(** * Unused-CSS-class finder: a model of [tools/clean-up-css/css_utils.py]

    The program scans a stylesheet for class selectors, scans markup and
    script files for class usages, and reports or erases the selectors that
    are never used.  Everything it does is regular-expression scanning and
    set arithmetic, so the model consists of

    - Python text as a list of Unicode code points;
    - the fragment of Python's [re] that the program's patterns use, as a
      backtracking matcher with [findall] and [sub];
    - the file-system calls of [os], [os.path] and [glob] as a record of
      observations;
    - Python sets as [gset], [sorted] as a merge sort on code-point order;
    - console output as the list of printed messages. *)

From Stdlib Require Import String Ascii NArith List Bool Lia DecimalString.
From stdpp Require Import base option list sets gmap sorting.

Local Open Scope N_scope.
Local Open Scope nat_scope.

(** ** Text *)

(** A Python [str] is a sequence of code points. *)
Definition char := N.
Definition text := list char.

(** The code points of a UTF-8 byte sequence (well-formed input only). *)
Fixpoint utf8_decode (bs : list N) : text :=
  match bs with
  | [] => []
  | b :: bs1 =>
      if (b <? 128)%N then b :: utf8_decode bs1
      else if (b <? 224)%N then
        match bs1 with
        | b1 :: bs2 => ((b - 192) * 64 + (b1 - 128))%N :: utf8_decode bs2
        | _ => []
        end
      else if (b <? 240)%N then
        match bs1 with
        | b1 :: b2 :: bs3 =>
            ((b - 224) * 4096 + (b1 - 128) * 64 + (b2 - 128))%N
            :: utf8_decode bs3
        | _ => []
        end
      else
        match bs1 with
        | b1 :: b2 :: b3 :: bs4 =>
            ((b - 240) * 262144 + (b1 - 128) * 4096 + (b2 - 128) * 64
             + (b3 - 128))%N :: utf8_decode bs4
        | _ => []
        end
  end.

(** A string literal of the source as text. *)
Definition str (s : string) : text :=
  utf8_decode (map N_of_ascii (list_ascii_of_string s)).

Definition ch (a : ascii) : char := N_of_ascii a.

Definition dquote : char := 34%N.
Definition squote : char := 39%N.
Definition newline : char := 10%N.

(** [Py_UNICODE_ISSPACE]: the characters that [\s] matches in a [str]
    pattern and on which [str.split()] splits. *)
Definition is_space (c : char) : bool :=
  ((9 <=? c) && (c <=? 13) || (28 <=? c) && (c <=? 32)
   || (c =? 133) || (c =? 160) || (c =? 5760)
   || (8192 <=? c) && (c <=? 8202)
   || (c =? 8232) || (c =? 8233) || (c =? 8239) || (c =? 8287)
   || (c =? 12288))%N.

(** [[a-zA-Z]] *)
Definition is_alpha (c : char) : bool :=
  ((97 <=? c) && (c <=? 122) || (65 <=? c) && (c <=? 90))%N.

(** [[a-zA-Z0-9_-]] *)
Definition is_ident_char (c : char) : bool :=
  (is_alpha c || (48 <=? c) && (c <=? 57) || (c =? 95) || (c =? 45))%N.

Definition is_char (a : char) (c : char) : bool := (c =? a)%N.
Definition not_char (a : char) (c : char) : bool := negb (c =? a)%N.

(** [s.startswith(p)] *)
Fixpoint startswith (p s : text) : bool :=
  match p, s with
  | [], _ => true
  | a :: p', c :: s' => (a =? c)%N && startswith p' s'
  | _ :: _, [] => false
  end.

(** [s.endswith(p)] *)
Definition endswith (p s : text) : bool :=
  startswith (rev p) (rev s).

(** [p in s] on strings *)
Fixpoint contains (p s : text) : bool :=
  startswith p s ||
  match s with
  | [] => false
  | _ :: s' => contains p s'
  end.

(** [s.split()]: the maximal runs of non-whitespace characters.  [cur] is
    the run being read. *)
Fixpoint split_from (cur s : text) : list text :=
  match s with
  | [] => match cur with [] => [] | _ => [cur] end
  | c :: s' =>
      if is_space c
      then match cur with [] => split_from [] s' | _ => cur :: split_from [] s' end
      else split_from (cur ++ [c]) s'
  end.

Definition split (s : text) : list text := split_from [] s.

(** ** Regular expressions

    The patterns of the program only repeat single-character classes, so
    repetition is restricted to those and the matcher is structurally
    recursive on the input. *)

Inductive regex :=
| Lit (l : text)              (* the characters of [l], literally *)
| Cls (p : char -> bool)      (* one character of a class *)
| Star (p : char -> bool)     (* [p*], greedy *)
| Plus (p : char -> bool)     (* [p+], greedy *)
| LazyStar (p : char -> bool) (* [p*?] *)
| Alt (r1 r2 : regex)         (* [r1|r2] *)
| Seq (r1 r2 : regex)         (* [r1r2] *)
| Group (r : regex).          (* [(r)], capturing group 1 *)

Declare Scope regex_scope.
Delimit Scope regex_scope with re.
Bind Scope regex_scope with regex.
Infix "·" := Seq (at level 60, right associativity) : regex_scope.
Infix "<||>" := Alt (at level 65, right associativity) : regex_scope.

Section Matcher.
Context {A : Type}.

(** Backtracking in continuation-passing style: a matcher gets the input
    left and the continuation for the rest of the pattern; [None] makes the
    caller try its next alternative, so the first [Some] is the match the
    [re] engine reports. *)

Fixpoint lit (l : text) (k : text -> option A) (s : text) : option A :=
  match l, s with
  | [], _ => k s
  | a :: l', c :: s' => if (a =? c)%N then lit l' k s' else None
  | _ :: _, [] => None
  end.

Definition one (p : char -> bool) (k : text -> option A) (s : text) : option A :=
  match s with
  | c :: s' => if p c then k s' else None
  | [] => None
  end.

(** greedy: one more character first, the continuation after that *)
Fixpoint star (p : char -> bool) (k : text -> option A) (s : text) : option A :=
  match s with
  | c :: s' =>
      if p c
      then match star p k s' with
           | Some a => Some a
           | None => k s
           end
      else k s
  | [] => k s
  end.

(** lazy: the continuation first, one more character after that *)
Fixpoint lazy_star (p : char -> bool) (k : text -> option A) (s : text) : option A :=
  match k s with
  | Some a => Some a
  | None =>
      match s with
      | c :: s' => if p c then lazy_star p k s' else None
      | [] => None
      end
  end.

(** [g] is what group 1 captured so far. *)
Fixpoint exec (r : regex) (k : text -> option text -> option A)
    (s : text) (g : option text) : option A :=
  match r with
  | Lit l => lit l (fun s' => k s' g) s
  | Cls p => one p (fun s' => k s' g) s
  | Star p => star p (fun s' => k s' g) s
  | Plus p => one p (star p (fun s' => k s' g)) s
  | LazyStar p => lazy_star p (fun s' => k s' g) s
  | Alt r1 r2 =>
      match exec r1 k s g with
      | Some a => Some a
      | None => exec r2 k s g
      end
  | Seq r1 r2 => exec r1 (exec r2 k) s g
  | Group r1 =>
      exec r1 (fun s' _ => k s' (Some (take (length s - length s') s))) s g
  end.
End Matcher.

(** [pattern.match(s)]: the length of the match at the start of [s] and
    group 1. *)
Definition match_at (r : regex) (s : text) : option (nat * option text) :=
  exec r (fun s' g => Some (length s - length s', g)) s None.

(** What [findall] lists for a match of a pattern with one group: the group,
    or the empty string when the group took no part. *)
Definition group1 (g : option text) : text := default [] g.

(** [re.findall(r, s)]: the matches found scanning left to right, each
    search starting where the last match ended.  [skip] counts the characters
    still inside the last match.  No pattern of the program matches the empty
    string; after an empty match the scan moves on by one character. *)
Fixpoint findall_from (r : regex) (skip : nat) (s : text) : list text :=
  match s with
  | [] =>
      match skip, match_at r [] with
      | 0, Some (_, g) => [group1 g]
      | _, _ => []
      end
  | _ :: s' =>
      match skip with
      | S n => findall_from r n s'
      | 0 =>
          match match_at r s with
          | Some (len, g) => group1 g :: findall_from r (len - 1) s'
          | None => findall_from r 0 s'
          end
      end
  end.

Definition findall (r : regex) (s : text) : list text := findall_from r 0 s.

(** [re.sub] with the empty replacement: the text with every match cut
    out. *)
Fixpoint sub_from (r : regex) (skip : nat) (s : text) : text :=
  match s with
  | [] => []
  | c :: s' =>
      match skip with
      | S n => sub_from r n s'
      | 0 =>
          match match_at r s with
          | Some (S n, _) => sub_from r n s'
          | Some (0, _) | None => c :: sub_from r 0 s'
          end
      end
  end.

Definition sub_empty (r : regex) (s : text) : text := sub_from r 0 s.

(** The patterns of the program. *)
Module Pattern.
Local Open Scope regex_scope.

Definition any (_ : char) : bool := true.

(** Line 34: a slash and a star, [.*?] with [re.DOTALL], a star and a
    slash. *)
Definition block_comment : regex :=
  Lit (str "/*") · LazyStar any · Lit (str "*/").

(** Line 35, [//.*]: without [re.DOTALL] the dot stops at a newline. *)
Definition line_comment : regex :=
  Lit (str "//") · Star (not_char newline).

(** Line 38: a dot, group 1 of [[a-zA-Z][a-zA-Z0-9_-]*], then [\s*[,{]]. *)
Definition rule_class : regex :=
  Lit (str ".") · Group (Cls is_alpha · Star is_ident_char)
  · Star is_space
  · Cls (fun c => is_char (ch ",") c || is_char (ch "{") c).

(** Line 41: a dot and group 1 of [[a-zA-Z][a-zA-Z0-9_-]*]. *)
Definition any_class : regex :=
  Lit (str ".") · Group (Cls is_alpha · Star is_ident_char).

(** The pattern of line 85: [class=], a double quote, group 1 of any
    number of characters other than a double quote, a double quote. *)
Definition class_attr : regex :=
  Lit (str "class=" ++ [dquote]) · Group (Star (not_char dquote))
  · Lit [dquote].

Definition is_quote (c : char) : bool :=
  is_char squote c || is_char dquote c.

(** The pattern of line 92: [classList\.(?:add|remove|toggle|contains)\(\s*],
    a quote of either kind, group 1 of one or more characters that are no
    quotes, a quote of either kind. *)
Definition classList_call : regex :=
  Lit (str "classList.")
  · (Lit (str "add") <||> Lit (str "remove") <||> Lit (str "toggle")
     <||> Lit (str "contains"))
  · Lit (str "(") · Star is_space · Cls is_quote
  · Group (Plus (fun c => negb (is_quote c))) · Cls is_quote.

(** The pattern of line 98: as line 85 with [className=]. *)
Definition className_attr : regex :=
  Lit (str "className=" ++ [dquote]) · Group (Star (not_char dquote))
  · Lit [dquote].

(** Line 138: [\s*\.{re.escape(cls)}\s*{{[^}}]*}}] as an f-string, where
    the doubled braces stand for single ones and [re.escape] makes the
    characters of [cls] literal.  The flags [re.MULTILINE | re.DOTALL]
    change [^], [$] and the dot, none of which occurs. *)
Definition rule_of (cls : text) : regex :=
  Star is_space · Lit (str ".") · Lit cls · Star is_space
  · Lit (str "{") · Star (not_char (ch "}")) · Lit (str "}").
End Pattern.

(** ** Sets and order *)

(** [a < b] on [str]: lexicographic on code points. *)
Fixpoint text_ltb (a b : text) : bool :=
  match a, b with
  | _, [] => false
  | [], _ :: _ => true
  | x :: a', y :: b' => (x <? y)%N || (x =? y)%N && text_ltb a' b'
  end.

Definition text_lt (a b : text) : Prop := text_ltb a b = true.
Definition text_le (a b : text) : Prop := text_ltb b a = false.

#[global] Instance text_le_dec a b : Decision (text_le a b).
Proof. unfold text_le. apply _. Defined.

(** [sorted(xs)] on strings *)
Definition sorted (xs : list text) : list text := merge_sort text_le xs.

(** [str(n)] for a length *)
Definition decimal (n : nat) : text :=
  str (NilZero.string_of_uint (Nat.to_uint n)).

(** ** The file system *)

Definition path := text.

(** What the program observes of the file system through [os.path], [os],
    [glob] and [open]. *)
Record filesystem := {
  isfile : path -> bool;                              (* os.path.isfile *)
  isdir : path -> bool;                               (* os.path.isdir *)
  path_exists : path -> bool;                         (* os.path.exists *)
  walk : path -> list (path * list path * list path); (* os.walk: (root, dirs, files) *)
  glob : path -> list path;                           (* glob.glob *)
  read : path -> option text;   (* open(p, "r", encoding="utf-8").read(); None: it raises *)
  writable : path -> bool;      (* open(p, "w", encoding="utf-8") does not raise *)
  website_root : path;          (* WEBSITE_ROOT, two levels above the script *)
}.

(** The file system in which [p] holds [content] and all else is as before. *)
Definition with_content (fs : filesystem) (p : path) (content : text) : filesystem :=
  {| isfile := isfile fs; isdir := isdir fs;
     path_exists := path_exists fs; walk := walk fs; glob := glob fs;
     read := fun q => if decide (q = p) then Some content else read fs q;
     writable := writable fs; website_root := website_root fs |}.

(** Opening [p] for writing and writing [content]: only the content of [p]
    changes.  The program writes a file it has just read. *)
Definition write (fs : filesystem) (p : path) (content : text) : option filesystem :=
  if writable fs p then Some (with_content fs p content) else None.

(** [os.path.join(a, b)] of [posixpath], also the [/] of [pathlib] *)
Definition join (a b : path) : path :=
  if startswith (str "/") b then b
  else match a with
       | [] => b
       | _ => if endswith (str "/") a then a ++ b else a ++ str "/" ++ b
       end.

(** ** The program *)

Definition DEFAULT_CSS_FILE (fs : filesystem) : path :=
  join (join (website_root fs) (str "src")) (str "input.css").

Definition DEFAULT_SEARCH_PATHS (fs : filesystem) : list path :=
  [ join (join (website_root fs) (str "src")) (str "*.html");
    join (join (website_root fs) (str "src")) (str "partials");
    join (join (website_root fs) (str "src")) (str "common.js") ].

Definition strip_comments (content : text) : text :=
  let content := sub_empty Pattern.block_comment content in
  sub_empty Pattern.line_comment content.

(** lines 32-43: the classes of a stylesheet text *)
Definition css_classes_of (content : text) (ignore_comments : bool) : gset text :=
  if ignore_comments
  then list_to_set (findall Pattern.rule_class (strip_comments content))
  else list_to_set (findall Pattern.any_class content).

Definition get_css_classes (fs : filesystem) (css_file : path)
    (ignore_comments : bool) : option (gset text) :=
  content ← read fs css_file;
  Some (css_classes_of content ignore_comments).

Definition expand_search_paths (fs : filesystem) (paths : list path) : list path :=
  foldl (fun expanded_paths path =>
           if contains (str "*") path || contains (str "?") path
           then expanded_paths ++ glob fs path
           else expanded_paths ++ [path])
        [] paths.

(** the files that walking the directory [item] adds *)
Definition walk_files (fs : filesystem) (item : path) : list path :=
  foldl (fun files_to_check '(root, _, files) =>
           foldl (fun files_to_check file =>
                    if endswith (str ".html") file || endswith (str ".js") file
                    then files_to_check ++ [join root file]
                    else files_to_check)
                 files_to_check files)
        [] (walk fs item).

Definition files_to_check (fs : filesystem) (expanded_paths : list path) : list path :=
  foldl (fun files_to_check item =>
           if isfile fs item then files_to_check ++ [item]
           else if isdir fs item then files_to_check ++ walk_files fs item
           else files_to_check)
        [] expanded_paths.

(** [for match in matches: used_classes.update(match.split())] *)
Definition update_split (used_classes : gset text) (matches : list text) : gset text :=
  foldl (fun used m => used ∪ list_to_set (split m)) used_classes matches.

(** the body of the loop over [files_to_check] for a file that was read *)
Definition scan_content (content : text) (used_classes : gset text) : gset text :=
  let used_classes := update_split used_classes (findall Pattern.class_attr content) in
  let used_classes := used_classes ∪ list_to_set (findall Pattern.classList_call content) in
  update_split used_classes (findall Pattern.className_attr content).

Fixpoint scan_files (fs : filesystem) (files : list path) (used_classes : gset text)
    : option (gset text) :=
  match files with
  | [] => Some used_classes
  | file_path :: files' =>
      if path_exists fs file_path
      then content ← read fs file_path;
           scan_files fs files' (scan_content content used_classes)
      else scan_files fs files' used_classes
  end.

Definition get_used_classes (fs : filesystem) (files_and_dirs : list path)
    : option (gset text) :=
  let expanded_paths := expand_search_paths fs files_and_dirs in
  scan_files fs (files_to_check fs expanded_paths) ∅.

Definition find_unused_classes (fs : filesystem) (css_file : path)
    (search_paths : option (list path)) (ignore_comments : bool)
    : option (list text) :=
  let search_paths := default (DEFAULT_SEARCH_PATHS fs) search_paths in
  css_classes ← get_css_classes fs css_file ignore_comments;
  used_classes ← get_used_classes fs search_paths;
  let unused := css_classes ∖ used_classes in
  Some (sorted (elements unused)).

(** Console output: one entry for each call of [print]. *)
Definition output := list text.

Definition class_line (cls : text) : text := str "  ." ++ cls.

(** the loop of lines 136-139 *)
Definition remove_rules (unused : list text) (content : text) : text :=
  foldl (fun content cls => sub_empty (Pattern.rule_of cls) content) content unused.

Definition msg_none_found : text := str "Не найдено неиспользуемых стилей!".

Definition msg_found (n : nat) : text :=
  str "Найдено " ++ decimal n ++ str " неиспользуемых классов:".

Definition msg_removed (n : nat) (css_file : path) : text :=
  str "Удалено " ++ decimal n ++ str " неиспользуемых стилей из " ++ css_file.

(** The result is the file system after the call and what was printed;
    [None] when an exception ends the call. *)
Definition remove_unused_from_css (fs : filesystem) (css_file : path)
    (search_paths : option (list path)) : option (filesystem * output) :=
  unused ← find_unused_classes fs css_file search_paths false;
  match unused with
  | [] => Some (fs, [msg_none_found])
  | _ =>
      let out := msg_found (length unused) :: map class_line unused in
      content ← read fs css_file;
      let content := remove_rules unused content in
      fs' ← write fs css_file content;
      Some (fs', out ++ [msg_removed (length unused) css_file])
  end.

(** [cls in category_classes] *)
Definition mem (cls : text) (l : list text) : bool := bool_decide (cls ∈ l).

(** [categories[key].append(cls)] on a dict kept in insertion order *)
Fixpoint dict_append (categories : list (text * list text)) (key cls : text)
    : list (text * list text) :=
  match categories with
  | [] => []
  | (k, l) :: rest =>
      if decide (k = key) then (k, l ++ [cls]) :: rest
      else (k, l) :: dict_append rest key cls
  end.

Definition OTHER : text := str "Другое".

(** the dict of lines 158-172 *)
Definition initial_categories (unused : list text) : list (text * list text) :=
  [ (str "Кнопки", List.filter (startswith (str "btn-")) unused);
    (str "Карточки", List.filter (startswith (str "card")) unused);
    (str "Контент", List.filter (startswith (str "content-")) unused);
    (str "Формы", List.filter (startswith (str "form-")) unused);
    (str "Фичи", List.filter (startswith (str "feature-")) unused);
    (str "FAQ", List.filter (startswith (str "faq-")) unused);
    (str "Футер", List.filter (startswith (str "footer")) unused);
    (str "Навигация", List.filter (startswith (str "nav")) unused);
    (str "Секции", List.filter (startswith (str "section")) unused);
    (str "Анимации",
      List.filter (fun cls => contains (str "anim") cls || contains (str "fade") cls
                              || contains (str "slide") cls) unused);
    (OTHER, []) ].

(** the dict after the loop of lines 175-182 *)
Definition categories (unused : list text) : list (text * list text) :=
  foldl (fun categories cls =>
           if existsb (fun '(_, category_classes) => mem cls category_classes) categories
           then categories
           else dict_append categories OTHER cls)
        (initial_categories unused) unused.

(** what the loop of lines 184-188 prints for one item of the dict *)
Definition print_category (item : text * list text) : output :=
  let '(category, classes) := item in
  match classes with
  | [] => []
  | _ => ([newline] ++ str "📁 " ++ category ++ str ":")
         :: map class_line (sorted classes)
  end.

Definition msg_all_used : text := str "✅ Все стили используются!".

Definition msg_analysis_found (n : nat) : text :=
  [newline] ++ str "❌ Найдено " ++ decimal n ++ str " неиспользуемых классов:".

Definition msg_total (n : nat) : text :=
  [newline] ++ str "💡 Всего: " ++ decimal n ++ str " неиспользуемых классов".

Definition print_unused_analysis (unused : list text) : output :=
  match unused with
  | [] => [msg_all_used]
  | _ =>
      [msg_analysis_found (length unused); repeat (ch "=") 50]
      ++ concat (map print_category (categories unused))
      ++ [msg_total (length unused)]
  end.

(** * Vocabulary of the specification *)

(** [[a-zA-Z][a-zA-Z0-9_-]*] as a predicate: the ClassName syntax. *)
Definition is_ident (x : text) : bool :=
  match x with
  | [] => false
  | c :: x' => is_alpha c && forallb is_ident_char x'
  end.

(** The next character, if any, is outside the class [p]. *)
Definition stops (p : char -> bool) (s : text) : Prop :=
  match s with [] => True | c :: _ => p c = false end.

Definition starts_blank (s : text) : Prop :=
  match s with [] => True | c :: _ => is_space c = true end.

Definition no_space (t : text) : Prop :=
  forallb (fun c => negb (is_space c)) t = true.

(** [t] is one of the whitespace-separated tokens of [v]. *)
Definition is_token (v t : text) : Prop :=
  t <> [] /\ no_space t /\
  exists a b, v = a ++ t ++ b /\ starts_blank (rev a) /\ starts_blank b.

(** the classes that one file adds *)
Definition file_classes (content : text) : gset text := scan_content content ∅.

(** the test of line 51 *)
Definition has_wildcard (path : path) : bool :=
  contains (str "*") path || contains (str "?") path.

(** the test of line 76 *)
Definition recognized (file : path) : bool :=
  endswith (str ".html") file || endswith (str ".js") file.

(** The attribute patterns of lines 85 and 98 differ in the name only. *)
Definition attr_pattern (name : text) : regex :=
  (Lit (name ++ [dquote]) · Group (Star (not_char dquote)) · Lit [dquote])%re.


(** Every [class=] followed by a double quote that occurs in [pre] has a
    later double quote in [pre]: no attribute value is left open. *)
Definition closed_before (pre : text) : Prop :=
  forall a b, pre = a ++ (str "class=" ++ [dquote]) ++ b -> dquote ∈ b.

(** The class starts with the prefix of one of the nine prefix buckets. *)
Definition prefix_bucket (cls : text) : bool :=
  startswith (str "btn-") cls || startswith (str "card") cls
  || startswith (str "content-") cls || startswith (str "form-") cls
  || startswith (str "feature-") cls || startswith (str "faq-") cls
  || startswith (str "footer") cls || startswith (str "nav") cls
  || startswith (str "section") cls.

(** The test of the animation bucket. *)
Definition animation_bucket (cls : text) : bool :=
  contains (str "anim") cls || contains (str "fade") cls
  || contains (str "slide") cls.

(** How often [x] occurs in [l]. *)
Fixpoint count_of {A} `{EqDecision A} (x : A) (l : list A) : nat :=
  match l with
  | [] => 0
  | y :: l' => (if decide (y = x) then 1 else 0) + count_of x l'
  end.

(** The line that opens a bucket of the report. *)
Definition category_header (category : text) : text :=
  [newline] ++ str "📁 " ++ category ++ str ":".

(** The dict of the report with the catch-all bucket holding [rest]. *)
Definition categories_with (unused rest : list text) : list (text * list text) :=
  [ (str "Кнопки", List.filter (startswith (str "btn-")) unused);
    (str "Карточки", List.filter (startswith (str "card")) unused);
    (str "Контент", List.filter (startswith (str "content-")) unused);
    (str "Формы", List.filter (startswith (str "form-")) unused);
    (str "Фичи", List.filter (startswith (str "feature-")) unused);
    (str "FAQ", List.filter (startswith (str "faq-")) unused);
    (str "Футер", List.filter (startswith (str "footer")) unused);
    (str "Навигация", List.filter (startswith (str "nav")) unused);
    (str "Секции", List.filter (startswith (str "section")) unused);
    (str "Анимации", List.filter animation_bucket unused);
    (OTHER, rest) ].

(** The classes of the catch-all bucket. *)
Definition uncategorized (cls : text) : bool :=
  negb (prefix_bucket cls || animation_bucket cls).
(** ** Example file systems *)

Fixpoint assoc {V} (p : path) (l : list (path * V)) : option V :=
  match l with
  | [] => None
  | (k, v) :: l' => if decide (k = p) then Some v else assoc p l'
  end.

(** A file system given by its regular files and by what [os.walk] yields
    for its directories; every file can be read and written and no path has
    wildcard matches. *)
Definition make_fs (files : list (path * text))
    (dirs : list (path * list (path * list path * list path))) : filesystem :=
  {| isfile p := bool_decide (is_Some (assoc p files));
     isdir p := bool_decide (is_Some (assoc p dirs));
     path_exists p := bool_decide (is_Some (assoc p files))
                      || bool_decide (is_Some (assoc p dirs));
     walk p := default [] (assoc p dirs);
     glob _ := [];
     read p := assoc p files;
     writable _ := true;
     website_root := str "/site" |}.

Definition fused_css : text := str ".fo/**/o{}".

Definition fused_fs : filesystem := make_fs [(str "input.css", fused_css)] [].


(** A page styled with utility classes. *)
Definition utility_html : text :=
  str "<div class=" ++ [dquote] ++ str "md:flex" ++ [dquote] ++ str ">".

Definition utility_fs : filesystem :=
  make_fs [(str "index.html", utility_html); (str "input.css", str ".card{}")] [].

(** The example of the specification: two rules, one of them used. *)
Definition shop_css : text :=
  str ".btn-primary{color:red}.unused-box{display:none}".

Definition shop_html : text :=
  str "<div class=" ++ [dquote] ++ str "btn-primary" ++ [dquote] ++ str ">".

Definition shop_fs : filesystem :=
  make_fs [(str "input.css", shop_css); (str "index.html", shop_html)] [].

(** A directory of partials that also holds a stylesheet. *)
Definition partials_css : text :=
  str "/* <p class=" ++ [dquote] ++ str "ghost" ++ [dquote] ++ str "> */ .ghost{}".

Definition partials_fs : filesystem :=
  make_fs
    [ (str "src/partials/nav.html", shop_html);
      (str "src/partials/theme.css", partials_css) ]
    [ (str "src/partials",
       [ (str "src/partials", [], [str "nav.html"; str "theme.css"]) ]) ].

(** A stylesheet whose only class is used. *)
Definition clean_fs : filesystem :=
  make_fs [(str "input.css", str ".btn-primary{color:red}");
           (str "index.html", shop_html)] [].

(** A minified stylesheet: a rule for [.a.b] with a rule for [div] right
    after it. *)
Definition minified_fs : filesystem :=
  make_fs [(str "input.css", str ".a.b{x}div{y}")] [].

(** Markup in which a title ends in [class=]. *)
Definition titled_pre : text :=
  str "<a title=" ++ [dquote] ++ str "see class=" ++ [dquote] ++ str " ".

Definition titled_html : text :=
  titled_pre ++ (str "class=" ++ [dquote]) ++ str "a b c" ++ dquote :: str ">".

Definition titled_fs : filesystem := make_fs [(str "page.html", titled_html)] [].

(** Markup with two attributes. *)
Definition card_pre : text :=
  str "<p class=" ++ [dquote] ++ str "x" ++ [dquote] ++ str "><b ".

Definition card_html : text :=
  card_pre ++ (str "class=" ++ [dquote]) ++ str "a b c" ++ dquote :: str ">".

Definition card_fs : filesystem := make_fs [(str "page.html", card_html)] [].

(** A script that toggles a class, and a component with a [className]. *)
Definition script_fs : filesystem :=
  make_fs
    [ (str "common.js", str "menu.classList.toggle('is-open');");
      (str "app.js",
       str "<div className=" ++ [dquote] ++ str "hero wide" ++ [dquote] ++ str ">") ]
    [].

(** A site laid out as the default configuration expects. *)
Definition site_fs : filesystem :=
  make_fs
    [ (str "/site/src/input.css", shop_css);
      (str "/site/src/partials/nav.html", shop_html);
      (str "/site/src/common.js", str "menu.classList.toggle('is-open');") ]
    [ (str "/site/src/partials",
       [ (str "/site/src/partials", [], [str "nav.html"]) ]) ].

(** * The two scripts *)

Definition msg_show_intro : text := str "🔍 Анализ неиспользуемых стилей в CSS...".

(** [show_unused_styles.py] *)
Definition show_unused_styles (fs : filesystem) : option output :=
  unused ← find_unused_classes fs (DEFAULT_CSS_FILE fs) None true;
  Some (msg_show_intro :: print_unused_analysis unused).

Definition msg_remove_intro : text := str "Анализ неиспользуемых стилей...".

Definition msg_preview_found (n : nat) : text :=
  [newline] ++ str "Найдено " ++ decimal n ++ str " неиспользуемых классов:".

Definition msg_preview_more (n : nat) : text :=
  str "  ... и еще " ++ decimal n.

Definition msg_nothing_unused : text := str "Все стили используются!".

(** [remove_unused_styles.py]: the preview shows the first 20 classes, then
    [remove_unused_from_css] computes the unused set again. *)
Definition remove_unused_styles (fs : filesystem) : option (filesystem * output) :=
  unused ← find_unused_classes fs (DEFAULT_CSS_FILE fs) None false;
  match unused with
  | [] => Some (fs, [msg_remove_intro; msg_nothing_unused])
  | _ =>
      let out :=
        [msg_remove_intro; msg_preview_found (length unused)]
        ++ map class_line (take 20 unused)
        ++ (if 20 <? length unused
            then [msg_preview_more (length unused - 20)] else []) in
      '(fs', out') ← remove_unused_from_css fs (DEFAULT_CSS_FILE fs) None;
      Some (fs', out ++ out')
  end.

(** * More vocabulary *)

(** [out] is [s] with some non-empty spans cut out, each of them a [P]. *)
Inductive cuts (P : text -> Prop) : text -> text -> Prop :=
| cuts_nil : cuts P [] []
| cuts_keep c s out : cuts P s out -> cuts P (c :: s) (c :: out)
| cuts_cut span s out : P span -> span <> [] -> cuts P s out -> cuts P (span ++ s) out.

Definition all_space (ws : text) : Prop := forallb is_space ws = true.

(** A rule block of the class [cls] as the eraser sees it: whitespace, a
    dot, the name, whitespace, and braces around a body without a closing
    brace. *)
Definition is_rule_block (cls span : text) : Prop :=
  exists ws ws' body,
    span = ws ++ str "." ++ cls ++ ws' ++ str "{" ++ body ++ str "}"
    /\ all_space ws /\ all_space ws' /\ ch "}" ∉ body.

(** [sub] occurs in [s]. *)
Definition occurs (sub s : text) : Prop := exists a b, s = a ++ sub ++ b.

(** The last character is whitespace. *)
Definition ends_blank (s : text) : bool :=
  match rev s with
  | c :: _ => is_space c
  | [] => false
  end.

(** [[,{]] *)
Definition is_rule_end (c : char) : bool := is_char (ch ",") c || is_char (ch "{") c.

(** The four methods of the pattern of line 92. *)
Definition classList_methods : list text :=
  [str "add"; str "remove"; str "toggle"; str "contains"].

Definition no_quote (name : text) : Prop :=
  forallb (fun c => negb (Pattern.is_quote c)) name = true.

(** As [closed_before], for an attribute of any name. *)
Definition closed_attr_before (name pre : text) : Prop :=
  forall a b, pre = a ++ (name ++ [dquote]) ++ b -> dquote ∈ b.

(** What the loop of lines 175-182 adds to the catch-all bucket [rest] for
    the classes [todo]. *)
Definition catch_all (rest todo : list text) : list text :=
  foldl (fun rest cls =>
           if uncategorized cls && negb (mem cls rest) then rest ++ [cls] else rest)
        rest todo.

(** * The specification's view *)

(** ** Stylesheets

    What the specification calls the class rules of a stylesheet: the text
    is a sequence of rules, block comments and whitespace, and a rule is a
    comma-separated list of class selectors before a brace block. *)

Definition dot : char := 46%N.
Definition slash : char := 47%N.

Definition is_brace (c : char) : bool := is_char (ch "{") c || is_char (ch "}") c.
Definition not_brace (c : char) : bool := negb (is_brace c).

(** Every dot of [s] is followed by a character that is no letter: the
    dots of numbers such as [0.5em], none that could start a class. *)
Fixpoint dots_numeric (s : text) : bool :=
  match s with
  | [] => true
  | c :: s' =>
      (negb (c =? dot)%N
       || match s' with d :: _ => negb (is_alpha d) | [] => false end)
      && dots_numeric s'
  end.

(** A class selector: the whitespace before it, the class after the dot,
    and what follows the class, whitespace for a plain class selector and a
    pseudo-class or the like otherwise. *)
Record selector := { sel_lead : text; sel_class : text; sel_tail : text }.

Inductive item :=
| Rule (first : selector) (more : list selector) (body : text)
| BlockComment (body : text)
| Blank (ws : text).

Definition stylesheet := list item.

Definition render_selector (s : selector) : text :=
  sel_lead s ++ str "." ++ sel_class s ++ sel_tail s.

(** the selectors after the first, each after its comma, and the opening
    brace *)
Fixpoint render_more (more : list selector) : text :=
  match more with
  | [] => str "{"
  | s :: more' => str "," ++ render_selector s ++ render_more more'
  end.

Definition render_item (i : item) : text :=
  match i with
  | Rule first more body =>
      render_selector first ++ render_more more ++ body ++ str "}"
  | BlockComment body => str "/*" ++ body ++ str "*/"
  | Blank ws => ws
  end.

(** the text of a stylesheet *)
Fixpoint render (sheet : stylesheet) : text :=
  match sheet with
  | [] => []
  | i :: sheet' => render_item i ++ render sheet'
  end.

Definition item_classes (i : item) : list text :=
  match i with
  | Rule first more _ => sel_class first :: map sel_class more
  | _ => []
  end.

Fixpoint rule_names (sheet : stylesheet) : list text :=
  match sheet with
  | [] => []
  | i :: sheet' => item_classes i ++ rule_names sheet'
  end.

(** The classes for which the stylesheet has a rule. *)
Definition rule_classes (sheet : stylesheet) : gset text :=
  list_to_set (rule_names sheet).

(** A plain class selector: a dot and an identifier with whitespace
    around. *)
Definition plain_selector (s : selector) : bool :=
  forallb is_space (sel_lead s) && is_ident (sel_class s)
  && forallb is_space (sel_tail s).

(** A declaration block without braces and slashes in which no dot starts
    a class. *)
Definition plain_body (body : text) : bool :=
  forallb (fun c => negb (is_brace c) && negb (c =? slash)%N) body
  && dots_numeric body.

Definition simple_item (i : item) : bool :=
  match i with
  | Rule first more body =>
      plain_selector first && forallb plain_selector more && plain_body body
  | BlockComment body => negb (contains (str "*/") body)
  | Blank ws => forallb is_space ws
  end.

(** A stylesheet of rules with plain class selectors, of comments and of
    whitespace. *)
Definition simple (sheet : stylesheet) : bool := forallb simple_item sheet.

Definition is_comment (i : item) : bool :=
  match i with BlockComment _ => true | _ => false end.

(** the stylesheet without its comments *)
Definition uncomment (sheet : stylesheet) : stylesheet :=
  List.filter (fun i => negb (is_comment i)) sheet.

(** The selectors of the rules. *)
Definition item_selectors (i : item) : list selector :=
  match i with
  | Rule first more _ => first :: more
  | _ => []
  end.

Fixpoint selectors (sheet : stylesheet) : list selector :=
  match sheet with
  | [] => []
  | i :: sheet' => item_selectors i ++ selectors sheet'
  end.

(** The selector is the bare class: only whitespace follows the class. *)
Definition bare (s : selector) : bool := forallb is_space (sel_tail s).

(** A class selector with a suffix of any kind, such as a pseudo-class:
    what follows the class holds no dot and no brace and does not go on with
    an identifier character. *)
Definition tame_selector (s : selector) : bool :=
  forallb is_space (sel_lead s) && is_ident (sel_class s)
  && forallb (fun c => not_char dot c && not_brace c) (sel_tail s)
  && match sel_tail s with [] => true | c :: _ => negb (is_ident_char c) end.

(** A stylesheet of rules with one class selector each, one after the
    other, with whitespace at most before a rule and at the end. *)
Fixpoint single_rules (sheet : stylesheet) : bool :=
  match sheet with
  | [] => true
  | Rule s [] body :: sheet' =>
      tame_selector s && plain_body body && single_rules sheet'
  | Blank ws :: [] => forallb is_space ws
  | _ => false
  end.

(** All selectors are bare classes. *)
Definition bare_rules (sheet : stylesheet) : bool := forallb bare (selectors sheet).

(** the stylesheet with the rules only whose first selector passes [keep] *)
Definition keep_rules (keep : selector -> bool) (sheet : stylesheet) : stylesheet :=
  List.filter (fun i => match i with
                        | Rule s _ _ => keep s
                        | _ => true
                        end) sheet.

(** The rule of the selector is one that the eraser of [cls] cuts out: the
    selector is the bare class [cls]. *)
Definition erased_by (cls : text) (s : selector) : bool :=
  bool_decide (sel_class s = cls) && bare s.

(** The rule of the selector stays when the classes of [used] are the used
    ones: its class is used or its selector is more than the bare class. *)
Definition stays (used : gset text) (s : selector) : bool :=
  bool_decide (sel_class s ∈ used) || negb (bare s).

(** ** Scanned files and usages *)


(** The files that the search paths reach: an existing file that a search
    path names or matches, or one with a recognized name in the tree of a
    directory that a search path names or matches. *)
Definition scanned (fs : filesystem) (paths : list path) (file : path) : Prop :=
  path_exists fs file = true /\
  exists path item,
    path ∈ paths
    /\ (if has_wildcard path then item ∈ glob fs path else item = path)
    /\ (isfile fs item = true /\ file = item
        \/ isfile fs item = false /\ isdir fs item = true
           /\ exists root dirs files name,
                (root, dirs, files) ∈ walk fs item /\ name ∈ files
                /\ recognized name = true /\ file = join root name).






(** ** Stripping and seams *)

(** [out] is [s] with some spans cut out, where each span starts with a
    slash and what is left of the text after the span does not start with an
    identifier character. *)
Inductive seamed : text -> text -> Prop :=
| seamed_nil : seamed [] []
| seamed_keep c s out : seamed s out -> seamed (c :: s) (c :: out)
| seamed_cut span s out :
    head span = Some slash -> stops is_ident_char out ->
    seamed s out -> seamed (span ++ s) out.

(** No comment terminator of [content] is directly followed by an
    identifier character. *)
Definition comments_set_off (content : text) : Prop :=
  forall a b, content = a ++ str "*/" ++ b -> stops is_ident_char b.

(** ** The buckets of the report *)

(** The nine prefix buckets in the order of the report, each with its
    label and its test. *)
Definition prefix_buckets : list (text * (text -> bool)) :=
  [ (str "Кнопки", startswith (str "btn-"));
    (str "Карточки", startswith (str "card"));
    (str "Контент", startswith (str "content-"));
    (str "Формы", startswith (str "form-"));
    (str "Фичи", startswith (str "feature-"));
    (str "FAQ", startswith (str "faq-"));
    (str "Футер", startswith (str "footer"));
    (str "Навигация", startswith (str "nav"));
    (str "Секции", startswith (str "section")) ].

Definition ANIMATIONS : text := str "Анимации".

(** The buckets with a test of their own: the prefix buckets and the
    animation bucket. *)
Definition tested_buckets : list (text * (text -> bool)) :=
  prefix_buckets ++ [(ANIMATIONS, animation_bucket)].

(** All buckets: the catch-all takes what passes no test. *)
Definition report_buckets : list (text * (text -> bool)) :=
  tested_buckets ++ [(OTHER, uncategorized)].

(** What the report shows of a bucket: nothing when the bucket is empty,
    else its header and its classes in ascending order. *)
Definition report_section (label : text) (classes : list text) : output :=
  match classes with
  | [] => []
  | _ => category_header label :: map class_line (sorted classes)
  end.

(** The section of a bucket whose classes are those of [unused] that pass
    its test. *)
Definition bucket_section (unused : list text) (b : text * (text -> bool)) : output :=
  report_section b.1 (List.filter b.2 unused).

(** The labels of the buckets whose test the class passes. *)
Definition buckets_of (cls : text) : list text :=
  map fst (List.filter (fun b : text * (text -> bool) => b.2 cls) report_buckets).

(** ** More examples *)



(** A stylesheet with a commented-out rule and a rule for two classes, and
    a directory of pages. *)
Definition catalog_sheet : stylesheet :=
  [ BlockComment (str " .old{} ");
    Rule {| sel_lead := [newline]; sel_class := str "btn-primary"; sel_tail := [] |}
      [ {| sel_lead := str " "; sel_class := str "btn-ghost"; sel_tail := str " " |} ]
      (str "margin:0.5em");
    Blank [newline];
    Rule {| sel_lead := []; sel_class := str "unused-box"; sel_tail := [] |} []
      (str "display:none") ].


(** A stylesheet with a rule for a pseudo-class of a class that nothing
    uses. *)
Definition tabs_sheet : stylesheet :=
  [ Rule {| sel_lead := []; sel_class := str "tab"; sel_tail := str ":hover" |} []
      (str "color:red");
    Rule {| sel_lead := [newline]; sel_class := str "unused-box"; sel_tail := str " " |} []
      (str "display:none");
    Blank [newline] ].

Definition tabs_fs : filesystem :=
  make_fs [(str "input.css", render tabs_sheet); (str "index.html", shop_html)] [].

(** * Properties *)

(** Closed goals are settled by evaluation. *)
Ltac by_compute :=
  vm_compute; solve [reflexivity | discriminate | intros; discriminate | done].

(** ** The matcher *)

Section MatcherFacts.
Context {A : Type}.
Implicit Types (k : text -> option A) (p : char -> bool) (s l : text).

Lemma lit_Some l k s a :
  lit l k s = Some a <-> exists s', s = l ++ s' /\ k s' = Some a.
Proof.
  revert s. induction l as [|x l IH]; intros s; simpl.
  - split; [eauto | intros (? & -> & ?); done].
  - destruct s as [|c s].
    + split; [done | intros (? & ? & ?); done].
    + destruct (N.eqb_spec x c) as [->|Hne].
      * rewrite IH. split; intros (s' & E & ?); exists s'.
        -- by rewrite E.
        -- by injection E as ->.
      * split; [done | intros (? & E & ?); congruence].
Qed.

Lemma lit_app l k s : lit l k (l ++ s) = k s.
Proof.
  destruct (lit l k (l ++ s)) as [a|] eqn:E.
  - apply lit_Some in E as (s' & E & ?). by simplify_list_eq.
  - destruct (k s) as [a|] eqn:E'; [|done].
    assert (lit l k (l ++ s) = Some a) by (apply lit_Some; eauto).
    congruence.
Qed.

Lemma one_Some p k s a :
  one p k s = Some a <-> exists c s', s = c :: s' /\ p c = true /\ k s' = Some a.
Proof.
  destruct s as [|c s]; simpl.
  - split; [done | intros (? & ? & ? & ?); done].
  - destruct (p c) eqn:E.
    + split; [eauto | intros (? & ? & [= <- <-] & ? & ?); done].
    + split; [done | intros (? & ? & [= <- <-] & ? & ?); congruence].
Qed.

(** A repetition hands its continuation the input after a run of
    characters of the class. *)
Lemma star_Some p k s a :
  star p k s = Some a ->
  exists run s', s = run ++ s' /\ forallb p run = true /\ k s' = Some a.
Proof.
  induction s as [|c s IH]; simpl.
  - intros ?. by exists [], [].
  - destruct (p c) eqn:E.
    + destruct (star p k s) as [b|] eqn:Es.
      * intros [= ->]. destruct IH as (run & s' & -> & ? & ?); [done|].
        exists (c :: run), s'. simpl. by rewrite E.
      * intros ?. by exists [], (c :: s).
    + intros ?. by exists [], (c :: s).
Qed.

Lemma lazy_star_Some p k s a :
  lazy_star p k s = Some a ->
  exists run s', s = run ++ s' /\ forallb p run = true /\ k s' = Some a.
Proof.
  induction s as [|c s IH]; simpl.
  - destruct (k []) eqn:E; [|done]. intros [= ->]. by exists [], [].
  - destruct (k (c :: s)) eqn:E.
    + intros [= ->]. by exists [], (c :: s).
    + destruct (p c) eqn:Ep; [|done]. intros H.
      destruct (IH H) as (run & s' & -> & ? & ?).
      exists (c :: run), s'. simpl. by rewrite Ep.
Qed.

(** The greedy repetition takes the whole run when the continuation
    accepts what follows it. *)
Lemma star_run p k run s a :
  forallb p run = true ->
  k s = Some a ->
  star p k (run ++ s) = star p k s.
Proof.
  intros Hrun Hk. induction run as [|c run IH]; [done|].
  simpl in *. apply andb_prop in Hrun as [-> Hrun].
  rewrite (IH Hrun).
  destruct (star p k s) eqn:E; [done|].
  destruct s as [|c' s']; simpl in E; [congruence|].
  destruct (p c'); [|congruence].
  destruct (star p k s'); congruence.
Qed.

Lemma star_stop p k s :
  match s with [] => True | c :: _ => p c = false end ->
  star p k s = k s.
Proof. destruct s as [|c s]; simpl; [done|]. by intros ->. Qed.
End MatcherFacts.

(** ** The patterns *)


Lemma take_app_sub (x s : text) : take (length (x ++ s) - length s) (x ++ s) = x.
Proof.
  rewrite length_app. replace (length x + length s - length s) with (length x) by lia.
  by rewrite take_app_length.
Qed.

Lemma any_class_sound s n g :
  match_at Pattern.any_class s = Some (n, g) ->
  exists x rest, s = str "." ++ x ++ rest /\ g = Some x /\ n = S (length x)
                 /\ is_ident x = true.
Proof.
  unfold match_at, Pattern.any_class. cbn [exec].
  intros H. apply lit_Some in H as (s1 & -> & H).
  apply one_Some in H as (c & s2 & -> & Hc & H).
  apply star_Some in H as (run & s3 & -> & Hrun & H).
  exists (c :: run), s3.
  change (c :: run ++ s3) with ((c :: run) ++ s3) in H.
  rewrite take_app_sub in H. injection H as <- <-.
  repeat split.
  - simpl. rewrite length_app. lia.
  - simpl. by rewrite Hc.
Qed.

(** Comparisons on code points as linear arithmetic. *)
Ltac char_arith :=
  repeat match goal with
    | H : _ = true |- _ =>
        rewrite ?orb_true_iff, ?andb_true_iff, ?negb_true_iff,
          ?N.leb_le, ?N.eqb_eq, ?N.eqb_neq, ?N.ltb_lt in H
    | H : _ = false |- _ =>
        rewrite ?orb_false_iff, ?andb_false_iff, ?negb_false_iff,
          ?N.leb_gt, ?N.eqb_neq, ?N.eqb_eq, ?N.ltb_ge in H
    end;
  rewrite ?orb_true_iff, ?andb_true_iff, ?negb_true_iff, ?orb_false_iff,
    ?andb_false_iff, ?negb_false_iff, ?N.leb_le, ?N.leb_gt, ?N.eqb_eq,
    ?N.eqb_neq, ?N.ltb_lt, ?N.ltb_ge;
  lia.

Lemma space_not_ident c : is_space c = true -> is_ident_char c = false.
Proof.
  unfold is_space, is_ident_char, is_alpha. intros H.
  destruct (_ || _ || _ || _)%bool eqn:E in |- *; [|done].
  exfalso. char_arith.
Qed.

Lemma any_class_complete x rest :
  is_ident x = true ->
  stops is_ident_char rest ->
  match_at Pattern.any_class (str "." ++ x ++ rest) = Some (S (length x), Some x).
Proof.
  intros Hx Hrest. destruct x as [|c run]; [done|].
  simpl in Hx. apply andb_prop in Hx as [Hc Hrun].
  unfold match_at, Pattern.any_class. cbn [exec].
  rewrite lit_app. simpl one. rewrite Hc.
  assert (Hk : forall s : text,
    (fun s' : text =>
       Some (length (str "." ++ (c :: run) ++ rest) - length s',
             Some (take (length (c :: run ++ rest) - length s') (c :: run ++ rest))))
      s = Some (length (str "." ++ (c :: run) ++ rest) - length s,
             Some (take (length (c :: run ++ rest) - length s) (c :: run ++ rest))))
    by done.
  erewrite star_run; [|done|apply Hk].
  rewrite star_stop by done.
  change (c :: run ++ rest) with ((c :: run) ++ rest).
  replace (S (length (run ++ rest)) - length rest) with (length (c :: run))
    by (rewrite length_app; simpl; lia).
  rewrite take_app_length. do 2 f_equal.
  rewrite length_app. simpl. lia.
Qed.

Lemma rule_class_sound s n g :
  match_at Pattern.rule_class s = Some (n, g) ->
  exists x rest, s = str "." ++ x ++ rest /\ g = Some x /\ is_ident x = true
                 /\ stops is_ident_char rest /\ rest <> [].
Proof.
  unfold match_at, Pattern.rule_class. cbn [exec].
  intros H. apply lit_Some in H as (s1 & -> & H).
  apply one_Some in H as (c & s2 & -> & Hc & H).
  apply star_Some in H as (run & s3 & -> & Hrun & H).
  apply star_Some in H as (ws & s4 & -> & Hws & H).
  apply one_Some in H as (d & s5 & -> & Hd & H).
  exists (c :: run), (ws ++ d :: s5).
  change (c :: run ++ ws ++ d :: s5) with ((c :: run) ++ ws ++ d :: s5) in H.
  rewrite take_app_sub in H. injection H as <- <-.
  repeat split.
  - simpl. by rewrite Hc.
  - destruct ws as [|w ws]; simpl in *.
    + unfold is_ident_char, is_alpha, is_char, ch in *. simpl in Hd.
      destruct (_ || _ || _ || _)%bool eqn:E in |- *; [|done].
      exfalso. char_arith.
    + apply andb_prop in Hws as [Hw _]. by apply space_not_ident.
  - by destruct ws.
Qed.

(** ** Scanning *)

(** Whatever [findall] lists is group 1 of a match at some position. *)
Lemma findall_from_sound r skip s x :
  x ∈ findall_from r skip s ->
  exists pre s' n g, s = pre ++ s' /\ match_at r s' = Some (n, g) /\ x = group1 g.
Proof.
  revert skip. induction s as [|c s IH]; intros skip; simpl.
  - destruct skip; [|by intros ?%elem_of_nil].
    destruct (match_at r []) as [[n g]|] eqn:E; [|by intros ?%elem_of_nil].
    intros ->%list_elem_of_singleton. by exists [], [], n, g.
  - destruct skip as [|skip].
    + destruct (match_at r (c :: s)) as [[n g]|] eqn:E.
      * intros [->|H]%elem_of_cons.
        -- by exists [], (c :: s), n, g.
        -- destruct (IH _ H) as (pre & s' & n' & g' & -> & ? & ?).
           by exists (c :: pre), s', n', g'.
      * intros H. destruct (IH _ H) as (pre & s' & n' & g' & -> & ? & ?).
        by exists (c :: pre), s', n', g'.
    + intros H. destruct (IH _ H) as (pre & s' & n' & g' & -> & ? & ?).
      by exists (c :: pre), s', n', g'.
Qed.

(** The scan arrives at a match when no match that starts before it runs
    past its start. *)
Lemma findall_from_reaches r pre s n g :
  match_at r s = Some (n, g) ->
  (forall a b m g', pre = a ++ b -> b <> [] ->
     match_at r (b ++ s) = Some (m, g') -> m <= length b) ->
  forall skip, skip <= length pre ->
  group1 g ∈ findall_from r skip (pre ++ s).
Proof.
  intros Hs. induction pre as [|c pre IH]; intros Hpre skip Hskip.
  - simpl in *. assert (skip = 0) as -> by lia.
    destruct s as [|c s]; simpl; rewrite Hs; apply elem_of_cons; by left.
  - simpl. destruct skip as [|skip].
    + destruct (match_at r (c :: pre ++ s)) as [[m g']|] eqn:E.
      * apply elem_of_cons; right. apply IH.
        -- intros a b m' g'' -> ?. by apply (Hpre (c :: a)).
        -- specialize (Hpre [] (c :: pre) m g' eq_refl). simpl in Hpre.
           specialize (Hpre ltac:(done) E). lia.
      * apply IH; [|lia]. intros a b m' g'' -> ?. by apply (Hpre (c :: a)).
    + apply IH; [|simpl in Hskip; lia].
      intros a b m' g'' -> ?. by apply (Hpre (c :: a)).
Qed.

(** A run of characters of a class ends before the first character outside
    the class. *)
Lemma run_before_stop (p : char -> bool) (run r1 b r2 : text) c :
  forallb p run = true -> p c = false ->
  run ++ r1 = b ++ c :: r2 ->
  length run <= length b.
Proof.
  revert b. induction run as [|d run IH]; intros b Hrun Hc E; simpl; [lia|].
  simpl in Hrun. apply andb_prop in Hrun as [Hd Hrun].
  destruct b as [|e b]; simplify_eq/=; [congruence|].
  specialize (IH b Hrun Hc ltac:(done)). lia.
Qed.

Lemma ident_chars x : is_ident x = true -> forallb is_ident_char x = true.
Proof.
  destruct x as [|c x]; [done|]. simpl. intros [Hc ->]%andb_prop.
  unfold is_ident_char. by rewrite Hc.
Qed.

(** The broad pattern finds every dot that an identifier follows. *)
Lemma any_class_finds pre x rest :
  is_ident x = true ->
  stops is_ident_char rest ->
  x ∈ findall Pattern.any_class (pre ++ str "." ++ x ++ rest).
Proof.
  intros Hx Hrest.
  apply (findall_from_reaches _ _ _ _ (Some x) (any_class_complete x rest Hx Hrest));
    [|lia].
  intros a b m g' -> Hb Hm.
  apply any_class_sound in Hm as (y & rest' & E & _ & -> & Hy).
  destruct b as [|d b]; [done|]. simpl in E. injection E as -> E. simpl.
  apply le_n_S. apply ident_chars in Hy.
  by eapply (run_before_stop is_ident_char y rest' b _ 46%N).
Qed.

Lemma attr_sound name s n g :
  match_at (attr_pattern name) s = Some (n, g) ->
  exists v rest, s = (name ++ [dquote]) ++ v ++ dquote :: rest /\ g = Some v
                 /\ forallb (not_char dquote) v = true
                 /\ n = length name + length v + 2.
Proof.
  unfold match_at, attr_pattern. cbn [exec].
  intros H. apply lit_Some in H as (s1 & -> & H).
  apply star_Some in H as (v & s2 & -> & Hv & H).
  apply lit_Some in H as (s3 & -> & H).
  exists v, s3. rewrite take_app_sub in H. injection H as <- <-.
  repeat split; [done|]. rewrite !length_app. simpl. lia.
Qed.

Lemma attr_complete name v rest :
  forallb (not_char dquote) v = true ->
  match_at (attr_pattern name) ((name ++ [dquote]) ++ v ++ dquote :: rest)
  = Some (length name + length v + 2, Some v).
Proof.
  intros Hv. unfold match_at, attr_pattern. cbn [exec].
  rewrite lit_app.
  assert (Hstop : stops (not_char dquote) (dquote :: rest)) by done.
  erewrite star_run; [rewrite star_stop by done| done |].
  - change (dquote :: rest) with ([dquote] ++ rest). rewrite lit_app.
    rewrite take_app_sub. do 2 f_equal. rewrite !length_app. simpl. lia.
  - change (dquote :: rest) with ([dquote] ++ rest). by rewrite lit_app.
Qed.

Lemma exec_Alt_Some {A} r1 r2 (k : text -> option text -> option A) s g a :
  exec (Alt r1 r2) k s g = Some a ->
  exec r1 k s g = Some a \/ exec r2 k s g = Some a.
Proof. simpl. destruct (exec r1 k s g); [intros [= ->]|]; eauto. Qed.

Lemma classList_call_sound s n g :
  match_at Pattern.classList_call s = Some (n, g) ->
  exists y, g = Some y /\ y <> [] /\ forallb (fun c => negb (Pattern.is_quote c)) y = true.
Proof.
  unfold match_at, Pattern.classList_call.
  change (exec (?r1 · ?r2) ?k ?s ?g) with (exec r1 (exec r2 k) s g).
  intros H. apply lit_Some in H as (s1 & -> & H).
  change (exec (?r1 · ?r2) ?k ?s ?g) with (exec r1 (exec r2 k) s g) in H.
  assert (exists s2 g2,
    exec (Lit (str "(") · Star is_space · Cls Pattern.is_quote
          · Group (Plus (fun c => negb (Pattern.is_quote c)))
          · Cls Pattern.is_quote)
      (fun s' g' => Some (length (str "classList." ++ s1) - length s', g')) s2 g2
    = Some (n, g)) as (s2 & g2 & H2).
  { repeat (apply exec_Alt_Some in H as [H|H]);
      apply lit_Some in H as (? & -> & H); eauto. }
  clear H. cbn [exec] in H2.
  apply lit_Some in H2 as (s3 & -> & H2).
  apply star_Some in H2 as (ws & s4 & -> & _ & H2).
  apply one_Some in H2 as (q & s5 & -> & _ & H2).
  apply one_Some in H2 as (c & s6 & -> & Hc & H2).
  apply star_Some in H2 as (run & s7 & -> & Hrun & H2).
  apply one_Some in H2 as (q' & s8 & -> & _ & H2).
  exists (c :: run).
  change (c :: run ++ q' :: s8) with ((c :: run) ++ q' :: s8) in H2.
  rewrite take_app_sub in H2. injection H2 as <- <-.
  repeat split; [done|]. simpl. by rewrite Hc.
Qed.

(** ** Splitting on whitespace *)


Lemma split_from_sound cur s t :
  t ∈ split_from cur s -> t <> [] /\ forall c, c ∈ t -> c ∈ cur ++ s.
Proof.
  revert cur. induction s as [|c s IH]; intros cur; simpl.
  - destruct cur as [|d cur]; [by intros ?%elem_of_nil|].
    intros ->%list_elem_of_singleton. split; [done|].
    intros ?. by rewrite app_nil_r.
  - destruct (is_space c).
    + assert (t ∈ split_from [] s -> t <> [] /\ forall c', c' ∈ t -> c' ∈ cur ++ c :: s).
      { intros [? H]%IH. split; [done|]. intros c' Hc'. specialize (H c' Hc').
        rewrite elem_of_app, elem_of_cons. simpl in H. auto. }
      destruct cur as [|d cur]; [done|].
      intros [->|?]%elem_of_cons; [|by auto].
      split; [done|]. intros c'. rewrite elem_of_app. auto.
    + intros [? H]%IH. split; [done|]. intros c' Hc'. specialize (H c' Hc').
      by rewrite <- app_assoc in H.
Qed.

Lemma split_from_run cur t b :
  no_space t -> split_from cur (t ++ b) = split_from (cur ++ t) b.
Proof.
  unfold no_space. revert cur. induction t as [|c t IH]; intros cur Ht; simpl.
  - by rewrite app_nil_r.
  - simpl in Ht. apply andb_prop in Ht as [Hc Ht].
    apply negb_true_iff in Hc. rewrite Hc, IH by done.
    by rewrite <- app_assoc.
Qed.

Lemma split_from_complete a t b cur :
  t <> [] -> no_space t ->
  starts_blank (rev a) -> starts_blank b ->
  (a = [] -> cur = []) ->
  t ∈ split_from cur (a ++ t ++ b).
Proof.
  intros Ht Hns Ha Hb. revert cur. induction a as [|c a IH]; intros cur Hcur.
  - simpl. rewrite (Hcur eq_refl), split_from_run by done. simpl.
    destruct b as [|d b]; simpl.
    + destruct t; [done|]. apply elem_of_cons; by left.
    + simpl in Hb. rewrite Hb. destruct t; [done|]. apply elem_of_cons; by left.
  - assert (Ha' : a <> [] -> starts_blank (rev a)).
    { intros Hne. simpl in Ha. destruct (rev a) as [|d r] eqn:E; [|done].
      apply (f_equal (@rev _)) in E. rewrite rev_involutive in E. done. }
    simpl. destruct (is_space c) eqn:Hc.
    + assert (t ∈ split_from [] (a ++ t ++ b)).
      { apply IH; [|done]. destruct a; [done|]. by apply Ha'. }
      destruct cur; [done|]. apply elem_of_cons; by right.
    + destruct a as [|d a].
      * simpl in Ha. congruence.
      * apply IH; [by apply Ha'|done].
Qed.

Lemma split_complete v t : is_token v t -> t ∈ split v.
Proof.
  intros (Ht & Hns & a & b & -> & Ha & Hb). by apply split_from_complete.
Qed.

(** ** The usage scan *)


Lemma elem_of_update_split used ms x :
  x ∈ update_split used ms <-> x ∈ used \/ exists m, m ∈ ms /\ x ∈ split m.
Proof.
  unfold update_split. revert used. induction ms as [|m ms IH]; intros used; simpl.
  - split; [by left|]. intros [?|(? & ?%elem_of_nil & _)]; done.
  - rewrite IH, elem_of_union, elem_of_list_to_set. split.
    + intros [[?|?]|(m' & ? & ?)]; [by left|right..].
      * exists m. split; [by left|done].
      * exists m'. split; [by right|done].
    + intros [?|(m' & [->|?]%elem_of_cons & ?)]; [by do 2 left|left; by right|].
      right. by exists m'.
Qed.

Lemma elem_of_scan_content content used x :
  x ∈ scan_content content used <->
  x ∈ used
  \/ (exists m, m ∈ findall Pattern.class_attr content /\ x ∈ split m)
  \/ x ∈ findall Pattern.classList_call content
  \/ (exists m, m ∈ findall Pattern.className_attr content /\ x ∈ split m).
Proof.
  unfold scan_content.
  rewrite elem_of_update_split, elem_of_union, elem_of_update_split,
    elem_of_list_to_set.
  tauto.
Qed.

Lemma scan_content_union content used :
  scan_content content used = used ∪ file_classes content.
Proof.
  apply set_eq. intros x. unfold file_classes.
  rewrite elem_of_union, !elem_of_scan_content, elem_of_empty. tauto.
Qed.

Lemma elem_of_scan_files fs files used result x :
  scan_files fs files used = Some result ->
  x ∈ result <->
  x ∈ used \/ exists file content, file ∈ files /\ path_exists fs file = true
                 /\ read fs file = Some content /\ x ∈ file_classes content.
Proof.
  revert used. induction files as [|f files IH]; intros used; simpl.
  - intros [= <-]. split; [by left|]. by intros [?|(? & ? & ?%elem_of_nil & _)].
  - destruct (path_exists fs f) eqn:Ex.
    + destruct (read fs f) as [content|] eqn:Er; [|done]. simpl.
      intros H. rewrite (IH _ H), scan_content_union, elem_of_union. split.
      * intros [[?|?]|(f' & c' & ? & ?)]; [by left|right..].
        -- exists f, content. split; [by left|done].
        -- exists f', c'. split; [by right|done].
      * intros [?|(f' & c' & [->|?]%elem_of_cons & ? & ? & ?)].
        -- by do 2 left.
        -- left; right. congruence.
        -- right. by exists f', c'.
    + intros H. rewrite (IH _ H). split.
      * intros [?|(f' & c' & ? & ?)]; [by left|right].
        exists f', c'. split; [by right|done].
      * intros [?|(f' & c' & [->|?]%elem_of_cons & ? & ? & ?)];
          [by left|congruence|].
        right. by exists f', c'.
Qed.

(** ** Collecting the files *)

Lemma elem_of_foldl_app {B C} (step : list C -> B -> list C) (f : B -> list C)
    (l : list B) (init : list C) (x : C) :
  (forall acc b, step acc b = acc ++ f b) ->
  x ∈ foldl step init l <-> x ∈ init \/ exists b, b ∈ l /\ x ∈ f b.
Proof.
  intros Hstep. revert init. induction l as [|b l IH]; intros init; simpl.
  - split; [by left|]. by intros [?|(? & ?%elem_of_nil & _)].
  - rewrite IH, Hstep, elem_of_app. split.
    + intros [[?|?]|(b' & ? & ?)]; [by left|right..].
      * exists b. split; [by left|done].
      * exists b'. split; [by right|done].
    + intros [?|(b' & [->|?]%elem_of_cons & ?)]; [by do 2 left|left; by right|].
      right. by exists b'.
Qed.

Lemma foldl_app_init {B C} (step : list C -> B -> list C) (f : B -> list C)
    (l : list B) (init : list C) :
  (forall acc b, step acc b = acc ++ f b) ->
  foldl step init l = init ++ foldl step [] l.
Proof.
  intros Hstep. revert init. induction l as [|b l IH]; intros init; simpl.
  - by rewrite app_nil_r.
  - rewrite IH, (IH (step [] b)), !Hstep. simpl. by rewrite app_assoc.
Qed.


Lemma elem_of_expand_search_paths fs paths p :
  p ∈ expand_search_paths fs paths <->
  exists path, path ∈ paths /\
    if has_wildcard path then p ∈ glob fs path else p = path.
Proof.
  unfold expand_search_paths.
  rewrite (elem_of_foldl_app _
    (fun path => if has_wildcard path then glob fs path else [path])).
  - split.
    + intros [?%elem_of_nil|(path & ? & H)]; [done|]. exists path. split; [done|].
      destruct (has_wildcard path); [done|]. by apply list_elem_of_singleton.
    + intros (path & ? & H). right. exists path. split; [done|].
      destruct (has_wildcard path); [done|]. by apply list_elem_of_singleton.
  - intros acc path. unfold has_wildcard. by destruct (_ || _).
Qed.

Lemma elem_of_walk_files fs item p :
  p ∈ walk_files fs item <->
  exists root dirs files file,
    (root, dirs, files) ∈ walk fs item /\ file ∈ files
    /\ recognized file = true /\ p = join root file.
Proof.
  unfold walk_files.
  rewrite (elem_of_foldl_app _
    (fun '(root, _, files) =>
       foldl (fun acc file => if recognized file then acc ++ [join root file] else acc)
             [] files)).
  - split.
    + intros [?%elem_of_nil|([[root dirs] files] & ? & H)]; [done|].
      rewrite (elem_of_foldl_app _
        (fun file => if recognized file then [join root file] else [])) in H.
      * destruct H as [?%elem_of_nil|(file & ? & H)]; [done|].
        exists root, dirs, files, file. destruct (recognized file); [|by apply elem_of_nil in H].
        by apply list_elem_of_singleton in H.
      * intros acc file. destruct (recognized file); [done|by rewrite app_nil_r].
    + intros (root & dirs & files & file & ? & ? & Hr & ->). right.
      exists (root, dirs, files). split; [done|].
      rewrite (elem_of_foldl_app _
        (fun file => if recognized file then [join root file] else [])).
      * right. exists file. split; [done|]. rewrite Hr. by apply list_elem_of_singleton.
      * intros acc f. destruct (recognized f); [done|by rewrite app_nil_r].
  - intros acc [[root dirs] files].
    apply (foldl_app_init _
      (fun file => if recognized file then [join root file] else [])).
    intros acc' file. unfold recognized.
    destruct (_ || _); [done|by rewrite app_nil_r].
Qed.

(** A file is checked when it is an entry that names a regular file, or
    when walking an entry that names a directory finds it under a name with
    a recognized extension. *)
Lemma elem_of_files_to_check fs expanded p :
  p ∈ files_to_check fs expanded <->
  exists item, item ∈ expanded /\
    (isfile fs item = true /\ p = item
     \/ isfile fs item = false /\ isdir fs item = true /\ p ∈ walk_files fs item).
Proof.
  unfold files_to_check.
  rewrite (elem_of_foldl_app _
    (fun item => if isfile fs item then [item]
                 else if isdir fs item then walk_files fs item else [])).
  - split.
    + intros [?%elem_of_nil|(item & ? & H)]; [done|]. exists item. split; [done|].
      destruct (isfile fs item).
      * left. by apply list_elem_of_singleton in H.
      * destruct (isdir fs item); [by right|by apply elem_of_nil in H].
    + intros (item & ? & [[Hf ->]|(Hf & Hd & ?)]); right; exists item;
        (split; [done|]); rewrite Hf; [by apply list_elem_of_singleton|].
      by rewrite Hd.
  - intros acc item. destruct (isfile fs item); [done|].
    destruct (isdir fs item); [done|by rewrite app_nil_r].
Qed.

(** ** The order of [sorted] *)

Lemma text_ltb_irrefl a : text_ltb a a = false.
Proof.
  induction a as [|x a IH]; [done|]. simpl.
  rewrite N.ltb_irrefl, N.eqb_refl. done.
Qed.

Lemma text_ltb_trichotomy a b :
  text_ltb a b = false -> text_ltb b a = false -> a = b.
Proof.
  revert b. induction a as [|x a IH]; intros [|y b]; simpl; try done.
  intros [H1 H2]%orb_false_iff [H3 H4]%orb_false_iff.
  apply N.ltb_ge in H1, H3. assert (x = y) as -> by lia.
  rewrite N.eqb_refl in H2, H4. simpl in *. f_equal. by apply IH.
Qed.

Lemma text_ltb_trans a b c :
  text_ltb a b = true -> text_ltb b c = true -> text_ltb a c = true.
Proof.
  revert b c. induction a as [|x a IH]; intros [|y b] [|z c]; simpl; try done.
  intros [H1|[H1 H2]%andb_prop]%orb_prop [H3|[H3 H4]%andb_prop]%orb_prop;
    rewrite ?N.ltb_lt, ?N.eqb_eq in *; apply orb_true_iff.
  - left. apply N.ltb_lt. lia.
  - left. apply N.ltb_lt. lia.
  - left. apply N.ltb_lt. lia.
  - right. apply andb_true_iff. split; [apply N.eqb_eq; lia|by eapply IH].
Qed.

Lemma text_ltb_asym a b : text_ltb a b = true -> text_ltb b a = false.
Proof.
  intros H. destruct (text_ltb b a) eqn:E; [|done].
  pose proof (text_ltb_trans _ _ _ H E) as Haa. by rewrite text_ltb_irrefl in Haa.
Qed.

#[global] Instance text_le_total : Total text_le.
Proof.
  intros a b. unfold text_le. destruct (text_ltb b a) eqn:E; [|by left].
  right. by apply text_ltb_asym.
Qed.

#[global] Instance text_le_trans : Transitive text_le.
Proof.
  intros a b c Hab Hbc. unfold text_le in *.
  destruct (text_ltb c a) eqn:Hca; [|done].
  destruct (text_ltb a b) eqn:Hlt.
  - by rewrite (text_ltb_trans _ _ _ Hca Hlt) in Hbc.
  - assert (a = b) as -> by by apply text_ltb_trichotomy. congruence.
Qed.

Lemma text_le_ne_lt a b : text_le a b -> a <> b -> text_lt a b.
Proof.
  unfold text_le, text_lt. intros Hba Hne.
  destruct (text_ltb a b) eqn:E; [done|].
  by destruct Hne; apply text_ltb_trichotomy.
Qed.

Lemma sorted_Permutation xs : sorted xs ≡ₚ xs.
Proof. apply merge_sort_Permutation. Qed.

Lemma elem_of_sorted xs x : x ∈ sorted xs <-> x ∈ xs.
Proof. by rewrite sorted_Permutation. Qed.


Lemma sorted_StronglySorted xs : StronglySorted text_le (sorted xs).
Proof. apply StronglySorted_merge_sort; apply _. Qed.

(** Without duplicates the result is strictly ascending. *)
Lemma sorted_strict xs : NoDup xs -> StronglySorted text_lt (sorted xs).
Proof.
  intros Hnd. rewrite <- sorted_Permutation in Hnd.
  pose proof (sorted_StronglySorted xs) as Hs.
  induction Hs as [|x l Hs IH Hall]; [constructor|].
  apply NoDup_cons in Hnd as [Hx Hnd]. constructor; [by apply IH|].
  apply Forall_forall. intros y Hy. apply text_le_ne_lt.
  - rewrite Forall_forall in Hall. by apply Hall.
  - intros ->. done.
Qed.


(** ** What the extractors return *)

Lemma css_classes_of_ident content ignore_comments x :
  x ∈ css_classes_of content ignore_comments -> is_ident x = true.
Proof.
  unfold css_classes_of. destruct ignore_comments;
    intros (pre & s' & n & g & _ & Hm & ->)%elem_of_list_to_set%findall_from_sound.
  - by apply rule_class_sound in Hm as (x & rest & _ & -> & Hx & _).
  - by apply any_class_sound in Hm as (x & rest & _ & -> & _ & Hx).
Qed.

Lemma attr_value_token name content m x :
  m ∈ findall (attr_pattern name) content -> x ∈ split m ->
  x <> [] /\ dquote ∉ x.
Proof.
  intros (pre & s' & n & g & _ & Hm & ->)%findall_from_sound.
  apply attr_sound in Hm as (v & rest & _ & -> & Hv & _). simpl.
  intros [Hx Hsub]%split_from_sound. split; [done|].
  intros Hq%Hsub. simpl in Hq.
  rewrite forallb_forall in Hv. apply list_elem_of_In, Hv in Hq.
  unfold not_char in Hq. by rewrite N.eqb_refl in Hq.
Qed.

Lemma file_classes_shape content x :
  x ∈ file_classes content -> x <> [] /\ dquote ∉ x.
Proof.
  unfold file_classes. rewrite elem_of_scan_content.
  intros [?%elem_of_empty|[(m & Hm & Hx)|[Hx|(m & Hm & Hx)]]]; [done|..].
  - by apply (attr_value_token (str "class=") content m).
  - apply findall_from_sound in Hx as (pre & s' & n & g & _ & Hm & ->).
    apply classList_call_sound in Hm as (y & -> & Hy & Hq). simpl.
    split; [done|]. intros Hin.
    rewrite forallb_forall in Hq. apply list_elem_of_In, Hq in Hin.
    by vm_compute in Hin.
  - by apply (attr_value_token (str "className=") content m).
Qed.

Lemma elem_of_get_used_classes fs paths used x :
  get_used_classes fs paths = Some used ->
  x ∈ used <->
  exists file content,
    file ∈ files_to_check fs (expand_search_paths fs paths)
    /\ path_exists fs file = true /\ read fs file = Some content
    /\ x ∈ file_classes content.
Proof.
  unfold get_used_classes. intros H. rewrite (elem_of_scan_files _ _ _ _ _ H).
  rewrite elem_of_empty. tauto.
Qed.

(** ** The difference *)

#[global] Instance text_le_antisym : AntiSymm (=) text_le.
Proof. intros a b Hab Hba. by apply text_ltb_trichotomy. Qed.

(** [sorted] does not depend on the order in which a set is iterated. *)
Lemma sorted_order_irrelevant xs ys : xs ≡ₚ ys -> sorted xs = sorted ys.
Proof.
  intros H. apply (Sorted_unique text_le).
  - apply Sorted_merge_sort, _.
  - apply Sorted_merge_sort, _.
  - by rewrite !sorted_Permutation.
Qed.

Lemma find_unused_classes_eq fs css_file search_paths ignore_comments defined used :
  get_css_classes fs css_file ignore_comments = Some defined ->
  get_used_classes fs (default (DEFAULT_SEARCH_PATHS fs) search_paths) = Some used ->
  find_unused_classes fs css_file search_paths ignore_comments
  = Some (sorted (elements (defined ∖ used))).
Proof. unfold find_unused_classes. by intros -> ->. Qed.

Lemma find_unused_classes_inv fs css_file search_paths ignore_comments unused :
  find_unused_classes fs css_file search_paths ignore_comments = Some unused ->
  exists defined used,
    get_css_classes fs css_file ignore_comments = Some defined
    /\ get_used_classes fs (default (DEFAULT_SEARCH_PATHS fs) search_paths) = Some used
    /\ unused = sorted (elements (defined ∖ used)).
Proof.
  unfold find_unused_classes.
  destruct (get_css_classes _ _ _) as [defined|]; [|done]. simpl.
  destruct (get_used_classes _ _) as [used|]; [|done]. simpl.
  intros [= <-]. by exists defined, used.
Qed.


(** ** Independence of files that are not checked *)

Lemma scan_files_with_content fs p content files used :
  p ∉ files ->
  scan_files (with_content fs p content) files used = scan_files fs files used.
Proof.
  revert used. induction files as [|f files IH]; intros used Hp; [done|].
  apply not_elem_of_cons in Hp as [Hne Hp]. simpl.
  destruct (path_exists fs f); [|by apply IH].
  destruct (decide (f = p)) as [->|_]; [done|].
  destruct (read fs f); simpl; [by apply IH|done].
Qed.

Lemma get_used_classes_with_content fs p content paths :
  p ∉ files_to_check fs (expand_search_paths fs paths) ->
  get_used_classes (with_content fs p content) paths = get_used_classes fs paths.
Proof. intros Hp. unfold get_used_classes. by apply scan_files_with_content. Qed.

(** ** Removing *)

Lemma remove_unused_from_css_removes fs css_file search_paths unused content :
  find_unused_classes fs css_file search_paths false = Some unused ->
  unused <> [] ->
  read fs css_file = Some content ->
  writable fs css_file = true ->
  remove_unused_from_css fs css_file search_paths
  = Some (with_content fs css_file (remove_rules unused content),
          msg_found (length unused) :: map class_line unused
          ++ [msg_removed (length unused) css_file]).
Proof.
  intros Hu Hne Hr Hw. unfold remove_unused_from_css, write.
  rewrite Hu. simpl. destruct unused; [done|]. by rewrite Hr, Hw.
Qed.

Lemma remove_unused_from_css_nothing fs css_file search_paths :
  find_unused_classes fs css_file search_paths false = Some [] ->
  remove_unused_from_css fs css_file search_paths = Some (fs, [msg_none_found]).
Proof. intros H. unfold remove_unused_from_css. by rewrite H. Qed.

Lemma remove_unused_from_css_inv fs css_file search_paths fs1 out1 :
  remove_unused_from_css fs css_file search_paths = Some (fs1, out1) ->
  find_unused_classes fs css_file search_paths false = Some [] /\ fs1 = fs
  \/ exists unused content,
       unused <> []
       /\ find_unused_classes fs css_file search_paths false = Some unused
       /\ read fs css_file = Some content
       /\ writable fs css_file = true
       /\ fs1 = with_content fs css_file (remove_rules unused content).
Proof.
  unfold remove_unused_from_css, write.
  destruct (find_unused_classes _ _ _ _) as [[|cls unused]|]; simpl; [|..|done].
  - intros [= <- _]. by left.
  - destruct (read fs css_file) as [content|]; simpl; [|done].
    destruct (writable fs css_file); simpl; [|done].
    intros [= <- _]. right. by exists (cls :: unused), content.
Qed.

(** ** Class attributes *)

Lemma class_attr_finds pre v post :
  forallb (not_char dquote) v = true ->
  closed_before pre ->
  v ∈ findall Pattern.class_attr
        (pre ++ (str "class=" ++ [dquote]) ++ v ++ dquote :: post).
Proof.
  intros Hv Hpre.
  apply (findall_from_reaches (attr_pattern (str "class=")) _ _ _ (Some v)
           (attr_complete (str "class=") v post Hv)); [|lia].
  intros a b m g' -> Hb Hm.
  apply attr_sound in Hm as (y & rest' & E & _ & Hy & ->).
  change (str "class=") with [99; 108; 97; 115; 115; 61]%N in *.
  unfold dquote in *.
  destruct b as [|c0 b]; [done|]. simpl in E. injection E as -> E.
  do 6 (destruct b as [|c0 b]; [discriminate|]; simpl in E;
        injection E as E0 E; subst c0).
  pose proof (Hpre a b eq_refl) as Hq.
  apply list_elem_of_split in Hq as (u & w & ->).
  rewrite <- app_assoc in E. symmetry in E.
  pose proof (run_before_stop (not_char 34%N) y _ u _ 34%N Hy eq_refl E).
  simpl. rewrite length_app. simpl. lia.
Qed.

Lemma not_elem_of_forallb (c : char) (v : text) :
  c ∉ v -> forallb (not_char c) v = true.
Proof.
  induction v as [|d v IH]; [done|].
  intros [Hne Hv]%not_elem_of_cons. simpl. rewrite (IH Hv), andb_true_r.
  unfold not_char. apply negb_true_iff, N.eqb_neq. congruence.
Qed.

(** ** The report *)

Lemma mem_filter p (l : list text) cls :
  cls ∈ l -> mem cls (List.filter p l) = p cls.
Proof.
  intros Hin. unfold mem. destruct (p cls) eqn:E.
  - apply bool_decide_eq_true. apply list_elem_of_In, filter_In.
    split; [by apply list_elem_of_In|done].
  - apply bool_decide_eq_false. intros [_ ?]%list_elem_of_In%filter_In. congruence.
Qed.

Lemma dict_append_other unused rest cls :
  dict_append (categories_with unused rest) OTHER cls
  = categories_with unused (rest ++ [cls]).
Proof. reflexivity. Qed.

Lemma categories_step unused rest cls :
  cls ∈ unused -> cls ∉ rest ->
  (if existsb (fun '(_, category_classes) => mem cls category_classes)
        (categories_with unused rest)
   then categories_with unused rest
   else dict_append (categories_with unused rest) OTHER cls)
  = categories_with unused (rest ++ List.filter uncategorized [cls]).
Proof.
  intros Hin Hrest.
  assert (Hex : existsb (fun '(_, category_classes) => mem cls category_classes)
                  (categories_with unused rest)
                = prefix_bucket cls || animation_bucket cls).
  { unfold categories_with, existsb. rewrite !mem_filter by done.
    replace (mem cls rest) with false
      by (symmetry; by apply bool_decide_eq_false).
    unfold prefix_bucket.
    repeat match goal with
      | |- context [startswith ?p cls] => destruct (startswith p cls); [done|]
      end.
    simpl. by rewrite !orb_false_r. }
  rewrite Hex. simpl. unfold uncategorized.
  destruct (prefix_bucket cls || animation_bucket cls); simpl.
  - by rewrite app_nil_r.
  - apply dict_append_other.
Qed.

Lemma categories_loop unused done todo :
  NoDup (done ++ todo) -> (forall cls, cls ∈ todo -> cls ∈ unused) ->
  foldl (fun categories cls =>
           if existsb (fun '(_, category_classes) => mem cls category_classes) categories
           then categories
           else dict_append categories OTHER cls)
        (categories_with unused (List.filter uncategorized done)) todo
  = categories_with unused (List.filter uncategorized (done ++ todo)).
Proof.
  revert done. induction todo as [|cls todo IH]; intros done Hnd Hsub; cbn [foldl].
  - by rewrite app_nil_r.
  - rewrite categories_step.
    + rewrite <- List.filter_app.
      replace (done ++ cls :: todo) with ((done ++ [cls]) ++ todo)
        by by rewrite <- app_assoc.
      apply IH; [by rewrite <- app_assoc|].
      intros c Hc. apply Hsub. by right.
    + apply Hsub. by left.
    + apply NoDup_app in Hnd as (_ & Hnd & _).
      intros Hc. apply list_elem_of_In, filter_In in Hc as [Hc _].
      apply list_elem_of_In in Hc. apply (Hnd cls Hc). by left.
Qed.

(** Without duplicates in [unused], each bucket holds the classes that pass
    its test, in the order of [unused]. *)
Lemma categories_NoDup unused :
  NoDup unused ->
  categories unused = categories_with unused (List.filter uncategorized unused).
Proof.
  intros Hnd. apply (categories_loop unused [] unused); [done|auto].
Qed.

Lemma count_of_app {A} `{EqDecision A} (x : A) l k :
  count_of x (l ++ k) = count_of x l + count_of x k.
Proof. induction l as [|y l IH]; simpl; [done|]. rewrite IH. lia. Qed.

Lemma count_of_Permutation {A} `{EqDecision A} (x : A) l k :
  l ≡ₚ k -> count_of x l = count_of x k.
Proof. induction 1; simpl; lia. Qed.

Lemma count_of_not_in {A} `{EqDecision A} (x : A) l :
  x ∉ l -> count_of x l = 0.
Proof.
  induction l as [|y l IH]; [done|]. intros [Hne Hl]%not_elem_of_cons. simpl.
  rewrite (IH Hl). by rewrite decide_False.
Qed.

Lemma count_of_class_lines cls l :
  count_of (class_line cls) (map class_line l) = count_of cls l.
Proof.
  induction l as [|y l IH]; simpl; [done|]. rewrite IH. f_equal.
  destruct (decide (y = cls)) as [->|Hne].
  - by rewrite decide_True.
  - rewrite decide_False; [done|]. unfold class_line. by intros ?%app_inv_head.
Qed.

Lemma count_of_filter p (l : list text) cls :
  NoDup l ->
  count_of cls (List.filter p l)
  = if bool_decide (cls ∈ l) then (if p cls then 1 else 0) else 0.
Proof.
  induction 1 as [|y l Hy Hnd IH]; simpl; [done|].
  destruct (decide (y = cls)) as [->|Hne].
  - rewrite bool_decide_eq_true_2 by by left.
    rewrite bool_decide_eq_false_2 in IH by done.
    destruct (p cls); simpl; [|done]. rewrite decide_True by done. lia.
  - assert (count_of cls (if p y then y :: List.filter p l else List.filter p l)
            = count_of cls (List.filter p l)) as ->.
    { destruct (p y); simpl; [|done]. by rewrite decide_False. }
    rewrite IH. destruct (bool_decide (cls ∈ l)) eqn:E.
    + apply bool_decide_eq_true in E. rewrite bool_decide_eq_true_2; [done|by right].
    + apply bool_decide_eq_false in E. rewrite bool_decide_eq_false_2; [done|].
      intros [->|?]%elem_of_cons; done.
Qed.

Lemma count_of_print_category cls category classes :
  count_of (class_line cls) (print_category (category, classes))
  = count_of cls classes.
Proof.
  unfold print_category. destruct classes as [|c classes]; [done|].
  cbn [count_of]. rewrite decide_False by done.
  by rewrite count_of_class_lines, (count_of_Permutation _ _ _ (sorted_Permutation _)).
Qed.

(** Two prefixes of one string are prefixes of one another. *)
Lemma startswith_compatible p q s :
  startswith p s = true -> startswith q s = true ->
  startswith p q || startswith q p = true.
Proof.
  revert q s. induction p as [|a p IH]; intros [|b q] [|c s]; simpl; try done.
  intros [Ha Hp]%andb_prop [Hb Hq]%andb_prop.
  apply N.eqb_eq in Ha, Hb. subst. rewrite N.eqb_refl. simpl. by eapply IH.
Qed.

(** The prefixes of the nine prefix buckets exclude one another. *)
Lemma prefix_buckets_exclusive cls :
  (if startswith (str "btn-") cls then 1 else 0)
  + (if startswith (str "card") cls then 1 else 0)
  + (if startswith (str "content-") cls then 1 else 0)
  + (if startswith (str "form-") cls then 1 else 0)
  + (if startswith (str "feature-") cls then 1 else 0)
  + (if startswith (str "faq-") cls then 1 else 0)
  + (if startswith (str "footer") cls then 1 else 0)
  + (if startswith (str "nav") cls then 1 else 0)
  + (if startswith (str "section") cls then 1 else 0)
  = if prefix_bucket cls then 1 else 0.
Proof.
  unfold prefix_bucket.
  repeat match goal with
    | |- context [startswith ?p cls] =>
        let E := fresh "E" in destruct (startswith p cls) eqn:E
    end;
  try reflexivity;
  match goal with
  | Hi : startswith ?p cls = true, Hj : startswith ?q cls = true |- _ =>
      pose proof (startswith_compatible p q cls Hi Hj) as X;
      vm_compute in X; discriminate X
  end.
Qed.

Lemma count_of_categories unused rest cls :
  NoDup unused -> cls ∈ unused ->
  count_of (class_line cls) (concat (map print_category (categories_with unused rest)))
  = (if prefix_bucket cls then 1 else 0) + (if animation_bucket cls then 1 else 0)
    + count_of cls rest.
Proof.
  intros Hnd Hin. rewrite <- prefix_buckets_exclusive.
  unfold categories_with. cbn [map concat].
  rewrite !count_of_app, !count_of_print_category, !count_of_filter by done.
  rewrite bool_decide_eq_true_2 by done. simpl. lia.
Qed.

Lemma count_of_categories_foreign unused rest cls :
  NoDup unused -> cls ∉ unused ->
  count_of (class_line cls) (concat (map print_category (categories_with unused rest)))
  = count_of cls rest.
Proof.
  intros Hnd Hin. unfold categories_with. cbn [map concat].
  rewrite !count_of_app, !count_of_print_category, !count_of_filter by done.
  rewrite bool_decide_eq_false_2 by done. simpl. lia.
Qed.

Lemma NoDup_list_filter (p : text -> bool) l : NoDup l -> NoDup (List.filter p l).
Proof.
  induction 1 as [|y l Hy Hnd IH]; simpl; [constructor|].
  destruct (p y); [|done]. constructor; [|done].
  intros [? _]%list_elem_of_In%filter_In. by apply Hy, list_elem_of_In.
Qed.


(** * Further properties *)

(** ** Scanning, continued *)

Lemma app_eq_split (l1 l2 l3 l4 : text) :
  l1 ++ l2 = l3 ++ l4 ->
  (exists l, l1 = l3 ++ l) \/ (exists d l, l3 = l1 ++ d :: l /\ head l2 = Some d).
Proof.
  revert l3. induction l1 as [|x l1 IH]; intros [|y l3] E; simpl in *.
  - left. by exists [].
  - right. subst. by exists y, l3.
  - left. by exists (x :: l1).
  - injection E as -> E. destruct (IH _ E) as [[l ->]|(d & l & -> & ?)].
    + left. by exists l.
    + right. by exists d, l.
Qed.

(** A literal whose first character does not come back in it cannot overlap
    a later copy of itself. *)
Lemma prefix_no_overlap (K' b R R' : text) c :
  c ∉ K' -> b <> [] ->
  b ++ (c :: K') ++ R = (c :: K') ++ R' ->
  exists b', b = (c :: K') ++ b'.
Proof.
  intros Hc Hb E.
  destruct (app_eq_split _ _ _ _ E) as [[l ->]|(d & l & EK & Hd)]; [by exists l|].
  exfalso. simpl in Hd. injection Hd as <-.
  destruct b as [|x b]; [done|]. simpl in EK. injection EK as -> ->.
  apply Hc. apply elem_of_app. right. by left.
Qed.

(** Skipping the rest of a match is dropping it. *)
Lemma sub_from_skip r n s : sub_from r n s = sub_from r 0 (drop n s).
Proof.
  revert n. induction s as [|c s IH]; intros [|n]; try done.
  simpl. apply IH.
Qed.

Lemma findall_from_skip r n s : n <= length s ->
  findall_from r n s = findall_from r 0 (drop n s).
Proof.
  revert n. induction s as [|c s IH]; intros [|n] Hn; try done.
  - simpl in Hn. lia.
  - simpl. apply IH. simpl in Hn. lia.
Qed.

(** A stretch of text in which no match starts is kept as it is. *)
Lemma sub_empty_keeps r pre s :
  (forall a b, pre = a ++ b -> b <> [] -> match_at r (b ++ s) = None) ->
  sub_empty r (pre ++ s) = pre ++ sub_empty r s.
Proof.
  unfold sub_empty. induction pre as [|c pre IH]; intros Hpre; [done|].
  pose proof (Hpre [] (c :: pre) eq_refl ltac:(done)) as Hc.
  simpl in *. rewrite Hc. f_equal.
  apply IH. intros a b -> ?. by apply (Hpre (c :: a)).
Qed.

(** A match at the start of the text is cut out. *)
Lemma sub_empty_cut r span s g :
  span <> [] -> match_at r (span ++ s) = Some (length span, g) ->
  sub_empty r (span ++ s) = sub_empty r s.
Proof.
  unfold sub_empty. intros Hne Hm. destruct span as [|c span]; [done|].
  simpl in *. rewrite Hm, sub_from_skip. by rewrite drop_app_length.
Qed.

(** [sub] with the empty replacement cuts out matches and nothing else. *)
Lemma sub_empty_cuts r (P : text -> Prop) :
  (forall s n g, match_at r s = Some (S n, g) ->
     exists span rest, s = span ++ rest /\ length span = S n /\ P span) ->
  forall s, cuts P s (sub_empty r s).
Proof.
  intros Hr s. unfold sub_empty.
  induction s as [s IH] using (induction_ltof1 _ (@length char)).
  unfold ltof in IH. destruct s as [|c s]; [constructor|].
  simpl. destruct (match_at r (c :: s)) as [[[|n] g]|] eqn:E.
  - constructor. apply IH. simpl. lia.
  - destruct (Hr _ _ _ E) as (span & rest & Es & Hlen & HP).
    destruct span as [|d span]; [done|]. simpl in Es, Hlen.
    injection Es as <- ->. injection Hlen as <-.
    rewrite sub_from_skip, drop_app_length.
    apply (cuts_cut P (c :: span) rest); [done..|].
    apply IH. simpl. rewrite length_app. lia.
  - constructor. apply IH. simpl. lia.
Qed.

Lemma cuts_sublist P s out : cuts P s out -> sublist out s.
Proof.
  induction 1 as [|c s out _ IH|span s out _ _ _ IH].
  - constructor.
  - by constructor.
  - by apply sublist_inserts_l.
Qed.

Lemma forallb_not_char c (body : text) :
  forallb (not_char c) body = true -> c ∉ body.
Proof.
  intros H Hin. rewrite forallb_forall in H.
  apply list_elem_of_In, H in Hin. unfold not_char in Hin.
  by rewrite N.eqb_refl in Hin.
Qed.

Lemma star_exact {A} p (k : text -> option A) run s a :
  forallb p run = true -> stops p s -> k s = Some a ->
  star p k (run ++ s) = Some a.
Proof.
  intros Hrun Hs Hk. rewrite (star_run p k run s a Hrun Hk).
  by rewrite star_stop.
Qed.

(** Lengths of concatenations. *)
Ltac text_length :=
  repeat first [rewrite length_app | rewrite length_cons | progress simpl length];
  lia.

(** ** The eraser *)

Lemma rule_of_sound cls s n g :
  match_at (Pattern.rule_of cls) s = Some (n, g) ->
  exists span rest, s = span ++ rest /\ length span = n /\ is_rule_block cls span.
Proof.
  unfold match_at, Pattern.rule_of. cbn [exec].
  intros H.
  apply star_Some in H as (ws & s1 & -> & Hws & H).
  apply lit_Some in H as (s2 & -> & H).
  apply lit_Some in H as (s3 & -> & H).
  apply star_Some in H as (ws' & s4 & -> & Hws' & H).
  apply lit_Some in H as (s5 & -> & H).
  apply star_Some in H as (body & s6 & -> & Hbody & H).
  apply lit_Some in H as (s7 & -> & H).
  injection H as <- <-.
  exists (ws ++ str "." ++ cls ++ ws' ++ str "{" ++ body ++ str "}"), s7.
  split; [by rewrite <- !app_assoc|]. split.
  - text_length.
  - exists ws, ws', body. repeat split; [done..|].
    by apply forallb_not_char.
Qed.

Lemma rule_of_complete cls ws ws' body rest :
  all_space ws -> all_space ws' -> ch "}" ∉ body ->
  match_at (Pattern.rule_of cls)
    ((ws ++ str "." ++ cls ++ ws' ++ str "{" ++ body ++ str "}") ++ rest)
  = Some (length (ws ++ str "." ++ cls ++ ws' ++ str "{" ++ body ++ str "}"), None).
Proof.
  intros Hws Hws' Hbody. unfold match_at, Pattern.rule_of. cbn [exec].
  rewrite <- !app_assoc.
  apply star_exact; [done|done|]. rewrite lit_app, lit_app.
  apply star_exact; [done|done|]. rewrite lit_app.
  apply star_exact; [by apply not_elem_of_forallb|done|]. rewrite lit_app.
  do 2 f_equal. text_length.
Qed.

Lemma startswith_app p s : startswith p (p ++ s) = true.
Proof. induction p as [|a p IH]; [done|]. simpl. by rewrite N.eqb_refl. Qed.

Lemma startswith_Some p s : startswith p s = true -> exists s', s = p ++ s'.
Proof.
  revert s. induction p as [|a p IH]; intros s; [by exists s|].
  destruct s as [|c s]; [done|]. simpl.
  intros [->%N.eqb_eq [s' ->]%IH]%andb_prop. by exists s'.
Qed.

(** [contains] decides [occurs]. *)
Lemma contains_occurs p s : contains p s = true <-> occurs p s.
Proof.
  split.
  - induction s as [|c s IH]; simpl.
    + rewrite orb_false_r. intros [s' ->]%startswith_Some. by exists [], s'.
    + intros [[s' E]%startswith_Some|(a & b & ->)%IH]%orb_prop.
      * exists [], s'. by rewrite E.
      * by exists (c :: a), b.
  - intros (a & b & ->). induction a as [|c a IH]; simpl.
    + assert (Hs : startswith p (p ++ b) = true) by apply startswith_app.
      destruct (p ++ b); simpl; by rewrite Hs.
    + rewrite IH. apply orb_true_r.
Qed.

Lemma not_contains p a b : contains p (a ++ p ++ b) = false -> False.
Proof.
  intros H. assert (contains p (a ++ p ++ b) = true) as H'
    by (apply contains_occurs; by exists a, b).
  congruence.
Qed.

Lemma ends_blank_app a b : b <> [] -> ends_blank (a ++ b) = ends_blank b.
Proof.
  intros Hb. unfold ends_blank. rewrite rev_app_distr.
  destruct (rev b) as [|c r] eqn:E; [|done].
  apply (f_equal (@rev _)) in E. rewrite rev_involutive in E. done.
Qed.

Lemma all_space_ends_blank b : b <> [] -> all_space b -> ends_blank b = true.
Proof.
  intros Hb Hall. unfold ends_blank. destruct (rev b) as [|c r] eqn:E.
  - apply (f_equal (@rev _)) in E. rewrite rev_involutive in E. done.
  - unfold all_space in Hall. rewrite forallb_forall in Hall. apply Hall.
    apply in_rev. rewrite E. by left.
Qed.

Lemma all_space_app a b : all_space (a ++ b) -> all_space a /\ all_space b.
Proof. unfold all_space. rewrite forallb_app. apply andb_prop. Qed.

(** Before the first rule block of a class no match of its eraser starts. *)
Lemma rule_of_no_match_before cls pre ws X a b :
  is_ident cls = true ->
  contains (str "." ++ cls) pre = false ->
  ends_blank pre = false ->
  all_space ws ->
  pre = a ++ b -> b <> [] ->
  match_at (Pattern.rule_of cls) (b ++ ws ++ str "." ++ X) = None.
Proof.
  intros Hcls Hocc Hend Hws -> Hb.
  destruct (match_at _ _) as [[n g]|] eqn:E; [exfalso|done].
  apply rule_of_sound in E as (span & rest & E & _ & (ws1 & ws1' & body & -> & Hws1 & _)).
  rewrite <- !app_assoc in E.
  assert (Hblank : all_space b -> False).
  { intros Hall. rewrite ends_blank_app in Hend by done.
    by rewrite all_space_ends_blank in Hend. }
  destruct (app_eq_split _ _ _ _ E) as [[l ->]|(d & l & -> & _)].
  - rewrite <- app_assoc in E. apply app_inv_head in E.
    rewrite (app_assoc (str ".") cls) in E.
    destruct (app_eq_split _ _ _ _ E) as [[l' ->]|(d & l' & El & Hd)].
    + apply (not_contains (str "." ++ cls) (a ++ ws1) l').
      by rewrite <- !app_assoc in *.
    + destruct l as [|x l].
      { apply Hblank. by rewrite app_nil_r. }
      simpl in El. injection El as _ ->.
      apply ident_chars in Hcls. rewrite forallb_app in Hcls.
      apply andb_prop in Hcls as [_ Hd']. simpl in Hd'.
      apply andb_prop in Hd' as [Hd' _].
      destruct ws as [|w ws]; simpl in Hd; injection Hd as <-.
      * by vm_compute in Hd'.
      * unfold all_space in Hws. simpl in Hws. apply andb_prop in Hws as [Hw _].
        by rewrite (space_not_ident _ Hw) in Hd'.
  - apply all_space_app in Hws1 as [Hb' _]. by apply Hblank.
Qed.

Lemma remove_rules_sublist unused content :
  sublist (remove_rules unused content) content.
Proof.
  unfold remove_rules. revert content.
  induction unused as [|cls unused IH]; intros content; simpl; [done|].
  etrans; [apply IH|].
  apply (cuts_sublist (is_rule_block cls)), sub_empty_cuts.
  intros s n g (span & rest & ? & ? & ?)%rule_of_sound. by exists span, rest.
Qed.

(** ** The selector patterns, continued *)

Lemma rule_class_shape s n g :
  match_at Pattern.rule_class s = Some (n, g) ->
  exists x ws c rest,
    s = str "." ++ x ++ ws ++ c :: rest /\ g = Some x /\ is_ident x = true
    /\ all_space ws /\ is_rule_end c = true /\ n = length x + length ws + 2.
Proof.
  unfold match_at, Pattern.rule_class. cbn [exec].
  intros H. apply lit_Some in H as (s1 & -> & H).
  apply one_Some in H as (c & s2 & -> & Hc & H).
  apply star_Some in H as (run & s3 & -> & Hrun & H).
  apply star_Some in H as (ws & s4 & -> & Hws & H).
  apply one_Some in H as (d & s5 & -> & Hd & H).
  exists (c :: run), ws, d, s5.
  change (c :: run ++ ws ++ d :: s5) with ((c :: run) ++ ws ++ d :: s5) in H.
  rewrite take_app_sub in H. injection H as <- <-.
  repeat split; [|done..|].
  - simpl. by rewrite Hc.
  - text_length.
Qed.

Lemma rule_class_complete x ws c rest :
  is_ident x = true -> all_space ws -> is_rule_end c = true ->
  match_at Pattern.rule_class (str "." ++ x ++ ws ++ c :: rest)
  = Some (length x + length ws + 2, Some x).
Proof.
  intros Hx Hws Hc. destruct x as [|a run]; [done|].
  simpl in Hx. apply andb_prop in Hx as [Ha Hrun].
  unfold match_at, Pattern.rule_class. cbn [exec].
  rewrite lit_app. cbn [one app]. rewrite Ha.
  assert (Hstop : stops is_ident_char (ws ++ c :: rest)).
  { destruct ws as [|w ws]; simpl.
    - unfold is_rule_end, is_char, ch in Hc. simpl in Hc.
      unfold is_ident_char, is_alpha.
      destruct (_ || _ || _ || _)%bool eqn:E in |- *; [|done].
      exfalso. char_arith.
    - apply space_not_ident. unfold all_space in Hws. simpl in Hws.
      by apply andb_prop in Hws as [? _]. }
  assert (Hstop' : stops is_space (c :: rest)).
  { simpl. unfold is_rule_end, is_char, ch in Hc. simpl in Hc. unfold is_space.
    destruct (_ || _)%bool eqn:E in |- *; [|done]. exfalso. char_arith. }
  apply star_exact; [done|done|].
  apply star_exact; [done|done|]. cbn [one].
  change (is_char _ c || is_char _ c) with (is_rule_end c). rewrite Hc.
  f_equal. f_equal; [text_length|]. f_equal.
  change (a :: run ++ ws ++ c :: rest) with ((a :: run) ++ ws ++ c :: rest).
  match goal with
  | |- take ?n _ = _ => replace n with (length (a :: run)) by text_length
  end.
  by rewrite take_app_length.
Qed.

(** The rule pattern finds every dotted identifier that whitespace and a
    comma or an opening brace follow. *)
Lemma rule_class_finds pre x ws c rest :
  is_ident x = true -> all_space ws -> is_rule_end c = true ->
  x ∈ findall Pattern.rule_class (pre ++ str "." ++ x ++ ws ++ c :: rest).
Proof.
  intros Hx Hws Hc.
  apply (findall_from_reaches _ _ _ _ (Some x) (rule_class_complete x ws c rest Hx Hws Hc));
    [|lia].
  intros a b m g' -> Hb Hm.
  apply rule_class_shape in Hm as (y & ws' & d & rest' & E & _ & Hy & Hws' & Hd & ->).
  destruct b as [|e b]; [done|]. simpl in E. injection E as -> E. simpl.
  assert (length (y ++ ws' ++ [d]) <= length b); [|revert H; text_length].
  apply (run_before_stop (fun c => negb (c =? 46)%N) _ rest' b
           (x ++ ws ++ c :: rest) 46%N); [|done|by rewrite <- !app_assoc].
  rewrite !forallb_app. apply ident_chars in Hy.
  repeat (apply andb_true_intro; split).
  - rewrite forallb_forall in Hy |- *. intros e He. specialize (Hy e He).
    destruct (N.eqb_spec e 46) as [->|]; [by vm_compute in Hy|done].
  - unfold all_space in Hws'. rewrite forallb_forall in Hws' |- *.
    intros e He. specialize (Hws' e He).
    destruct (N.eqb_spec e 46) as [->|]; [by vm_compute in Hws'|done].
  - destruct (N.eqb_spec d 46) as [->|]; [by vm_compute in Hd|done].
  - done.
Qed.

(** ** The usage patterns, continued *)

(** The literals of the goal as lists of code points. *)
Ltac eval_str :=
  repeat match goal with
    | |- context [str ?s] =>
        let v := eval vm_compute in (str s) in change (str s) with v
    end.

(** A character is none of the characters of a literal. *)
Ltac not_in_text :=
  let H := fresh in
  intros H; vm_compute in H;
  repeat (apply elem_of_cons in H as [H|H]; [discriminate H|]);
  by apply elem_of_nil in H.

Ltac eval_str_in H :=
  repeat match type of H with
    | context [str ?s] =>
        let v := eval vm_compute in (str s) in change (str s) with v in H
    end.

Lemma method_alternatives {A} (K : text -> option text -> option A) m X g a :
  m ∈ classList_methods -> K X g = Some a ->
  exec (Lit (str "add") <||> Lit (str "remove") <||> Lit (str "toggle")
        <||> Lit (str "contains"))%re K (m ++ X) g = Some a.
Proof.
  intros Hm HK. unfold classList_methods in Hm. eval_str. eval_str_in Hm.
  repeat (apply elem_of_cons in Hm as [->|Hm]; [simpl; by rewrite HK|]).
  by apply elem_of_nil in Hm.
Qed.

Lemma classList_call_starts s n g :
  match_at Pattern.classList_call s = Some (n, g) ->
  exists s1, s = str "classList." ++ s1.
Proof.
  unfold match_at, Pattern.classList_call.
  change (exec (?r1 · ?r2) ?k ?s ?g) with (exec r1 (exec r2 k) s g).
  intros H. apply lit_Some in H as (s1 & -> & _). by exists s1.
Qed.

Lemma classList_call_complete m ws q name q' rest :
  m ∈ classList_methods -> all_space ws ->
  Pattern.is_quote q = true -> Pattern.is_quote q' = true ->
  name <> [] -> no_quote name ->
  exists n,
    match_at Pattern.classList_call
      (str "classList." ++ m ++ str "(" ++ ws ++ q :: name ++ q' :: rest)
    = Some (n, Some name).
Proof.
  intros Hm Hws Hq Hq' Hne Hname.
  destruct name as [|c name]; [done|].
  unfold no_quote in Hname. simpl in Hname. apply andb_prop in Hname as [Hc Hname].
  eexists.
  unfold match_at, Pattern.classList_call.
  change (exec (?r1 · ?r2) ?k ?s ?g) with (exec r1 (exec r2 k) s g).
  change (exec (Lit ?l) ?k ?s ?g) with (lit l (fun s' => k s' g) s).
  rewrite lit_app.
  change (exec (?r1 · ?r2) ?k ?s ?g) with (exec r1 (exec r2 k) s g).
  apply (method_alternatives _ m); [done|].
  cbn [exec]. rewrite lit_app.
  assert (Hqs : forall c, Pattern.is_quote c = true -> is_space c = false).
  { intros e He. unfold Pattern.is_quote, is_char, squote, dquote in He.
    unfold is_space. destruct (_ || _)%bool eqn:E in |- *; [|done].
    exfalso. char_arith. }
  apply star_exact; [done|by apply Hqs|]. cbn [one]. rewrite Hq.
  cbn [one app]. rewrite Hc.
  apply star_exact; [done|simpl; by rewrite Hq'|]. cbn [one]. rewrite Hq'.
  change (c :: name ++ q' :: rest) with ((c :: name) ++ q' :: rest).
  by rewrite take_app_sub.
Qed.

Lemma classList_call_finds pre m ws q name q' rest :
  contains (str "classList.") pre = false ->
  m ∈ classList_methods -> all_space ws ->
  Pattern.is_quote q = true -> Pattern.is_quote q' = true ->
  name <> [] -> no_quote name ->
  name ∈ findall Pattern.classList_call
           (pre ++ str "classList." ++ m ++ str "(" ++ ws ++ q :: name ++ q' :: rest).
Proof.
  intros Hpre Hm Hws Hq Hq' Hne Hname.
  destruct (classList_call_complete m ws q name q' rest) as [n Hn]; [done..|].
  apply (findall_from_reaches _ _ _ _ (Some name) Hn); [|lia].
  intros a b k g' -> Hb (s1 & E)%classList_call_starts. exfalso.
  assert (exists b', b = str "classList." ++ b') as [b' ->].
  { apply (prefix_no_overlap (str "lassList.") b
             (m ++ str "(" ++ ws ++ q :: name ++ q' :: rest) s1 99%N);
      [not_in_text|done|exact E]. }
  by apply (not_contains (str "classList.") a b').
Qed.

Lemma attr_finds name c name' pre v post :
  name = c :: name' -> c ∉ name' ++ [dquote] ->
  forallb (not_char dquote) v = true ->
  closed_attr_before name pre ->
  v ∈ findall (attr_pattern name) (pre ++ (name ++ [dquote]) ++ v ++ dquote :: post).
Proof.
  intros Hname Hc Hv Hpre.
  apply (findall_from_reaches (attr_pattern name) _ _ _ (Some v)
           (attr_complete name v post Hv)); [|lia].
  intros a b m g' -> Hb Hm.
  apply attr_sound in Hm as (y & rest' & E & _ & Hy & ->).
  assert (exists b', b = (name ++ [dquote]) ++ b') as [b' ->].
  { subst name.
    apply (prefix_no_overlap (name' ++ [dquote]) b (v ++ dquote :: post)
             (y ++ dquote :: rest') c); [done|done|exact E]. }
  rewrite <- !app_assoc in E. do 2 apply app_inv_head in E.
  pose proof (Hpre a b' eq_refl) as Hq.
  apply list_elem_of_split in Hq as (u & w & ->).
  rewrite <- !app_assoc in E. symmetry in E.
  pose proof (run_before_stop (not_char dquote) y _ u _ dquote Hy eq_refl E).
  text_length.
Qed.

Lemma closed_attr_before_absent name pre :
  contains (name ++ [dquote]) pre = false -> closed_attr_before name pre.
Proof. intros H a b ->. by apply not_contains in H. Qed.

(** ** Failure and growth of the usage scan *)

Lemma scan_files_None fs files used :
  scan_files fs files used = None <->
  exists file, file ∈ files /\ path_exists fs file = true /\ read fs file = None.
Proof.
  revert used. induction files as [|f files IH]; intros used; simpl.
  - split; [done|]. by intros (? & ?%elem_of_nil & _).
  - destruct (path_exists fs f) eqn:Ex.
    + destruct (read fs f) as [content|] eqn:Er; simpl.
      * rewrite IH. split.
        -- intros (f' & ? & ? & ?). exists f'. split; [by right|done].
        -- intros (f' & [->|?]%elem_of_cons & ? & ?); [congruence|]. by exists f'.
      * split; [|done]. intros _. exists f. split; [by left|done].
    + rewrite IH. split.
      * intros (f' & ? & ? & ?). exists f'. split; [by right|done].
      * intros (f' & [->|?]%elem_of_cons & ? & ?); [congruence|]. by exists f'.
Qed.

Lemma files_to_check_mono fs paths paths' file :
  (forall p, p ∈ paths -> p ∈ paths') ->
  file ∈ files_to_check fs (expand_search_paths fs paths) ->
  file ∈ files_to_check fs (expand_search_paths fs paths').
Proof.
  intros Hsub (item & Hitem & H)%elem_of_files_to_check.
  apply elem_of_files_to_check. exists item. split; [|done].
  apply elem_of_expand_search_paths in Hitem as (path & Hpath & H').
  apply elem_of_expand_search_paths. exists path. split; [by apply Hsub|done].
Qed.

Lemma get_used_classes_mono fs paths paths' used' :
  (forall p, p ∈ paths -> p ∈ paths') ->
  get_used_classes fs paths' = Some used' ->
  exists used, get_used_classes fs paths = Some used /\ used ⊆ used'.
Proof.
  intros Hsub Hu'. destruct (get_used_classes fs paths) as [used|] eqn:Hu.
  - exists used. split; [done|]. intros x.
    rewrite (elem_of_get_used_classes _ _ _ _ Hu),
      (elem_of_get_used_classes _ _ _ _ Hu').
    intros (file & content & Hf & ?). exists file, content.
    split; [by apply (files_to_check_mono fs paths)|done].
  - unfold get_used_classes in Hu. apply scan_files_None in Hu as (file & Hf & He & Hr).
    assert (get_used_classes fs paths' = None); [|congruence].
    apply scan_files_None. exists file.
    split; [by apply (files_to_check_mono fs paths)|done].
Qed.

Lemma expand_search_paths_app fs l1 l2 :
  expand_search_paths fs (l1 ++ l2)
  = expand_search_paths fs l1 ++ expand_search_paths fs l2.
Proof.
  unfold expand_search_paths. rewrite foldl_app.
  apply (foldl_app_init _
    (fun path => if has_wildcard path then glob fs path else [path])).
  intros acc path. unfold has_wildcard. by destruct (_ || _).
Qed.

Lemma files_to_check_app fs l1 l2 :
  files_to_check fs (l1 ++ l2) = files_to_check fs l1 ++ files_to_check fs l2.
Proof.
  unfold files_to_check. rewrite foldl_app.
  apply (foldl_app_init _
    (fun item => if isfile fs item then [item]
                 else if isdir fs item then walk_files fs item else [])).
  intros acc item. destruct (isfile fs item); [done|].
  destruct (isdir fs item); [done|by rewrite app_nil_r].
Qed.

(** ** The scripts *)

Lemma count_of_report unused cls :
  NoDup unused ->
  count_of (class_line cls) (print_unused_analysis unused)
  = if bool_decide (cls ∈ unused)
    then (if prefix_bucket cls && animation_bucket cls then 2 else 1)
    else 0.
Proof.
  intros Hnd. destruct unused as [|c unused'] eqn:E.
  { cbn [print_unused_analysis count_of]. rewrite decide_False by done.
    by rewrite bool_decide_eq_false_2 by apply not_elem_of_nil. }
  rewrite <- E in *.
  assert (print_unused_analysis unused
          = [msg_analysis_found (length unused); repeat (ch "=") 50]
            ++ concat (map print_category (categories unused))
            ++ [msg_total (length unused)]) as -> by by rewrite E.
  rewrite categories_NoDup by done.
  cbn [app count_of]. rewrite !decide_False by done.
  rewrite count_of_app. cbn [count_of]. rewrite decide_False by done.
  destruct (bool_decide (cls ∈ unused)) eqn:Hin.
  - apply bool_decide_eq_true in Hin.
    rewrite count_of_categories, count_of_filter by done.
    rewrite bool_decide_eq_true_2 by done. unfold uncategorized.
    destruct (prefix_bucket cls), (animation_bucket cls); reflexivity.
  - apply bool_decide_eq_false in Hin.
    rewrite count_of_categories_foreign, count_of_filter by done.
    by rewrite bool_decide_eq_false_2.
Qed.

Lemma find_unused_classes_NoDup fs css_file search_paths ignore_comments unused :
  find_unused_classes fs css_file search_paths ignore_comments = Some unused ->
  NoDup unused.
Proof.
  intros (defined & used & _ & _ & ->)%find_unused_classes_inv.
  rewrite sorted_Permutation. apply NoDup_elements.
Qed.

(** ** Comments *)

Lemma block_comment_starts s n g :
  match_at Pattern.block_comment s = Some (n, g) -> exists s1, s = str "/*" ++ s1.
Proof.
  unfold match_at, Pattern.block_comment. cbn [exec].
  intros H. apply lit_Some in H as (s1 & -> & _). by exists s1.
Qed.

Lemma line_comment_sound s n g :
  match_at Pattern.line_comment s = Some (n, g) ->
  exists run rest, s = (str "//" ++ run) ++ rest /\ length (str "//" ++ run) = n
                   /\ newline ∉ run.
Proof.
  unfold match_at, Pattern.line_comment. cbn [exec].
  intros H. apply lit_Some in H as (s1 & -> & H).
  apply star_Some in H as (run & rest & -> & Hrun & H). injection H as <- <-.
  exists run, rest. split; [by rewrite <- app_assoc|]. split; [text_length|].
  by apply forallb_not_char.
Qed.

Lemma contains_app_l K a b : contains K (a ++ b) = false -> contains K a = false.
Proof.
  intros H. destruct (contains K a) eqn:E; [|done].
  apply contains_occurs in E as (x & y & ->).
  rewrite <- !app_assoc in H. by apply not_contains in H.
Qed.

Lemma contains_app_r K a b : contains K (a ++ b) = false -> contains K b = false.
Proof.
  intros H. destruct (contains K b) eqn:E; [|done].
  apply contains_occurs in E as (x & y & ->).
  rewrite app_assoc in H. by apply not_contains in H.
Qed.

(** A text in which no match starts is left as it is. *)
Lemma sub_empty_no_match r s :
  (forall a b, s = a ++ b -> b <> [] -> match_at r b = None) ->
  sub_empty r s = s.
Proof.
  intros H. rewrite <- (app_nil_r s) at 1. rewrite sub_empty_keeps.
  - unfold sub_empty. simpl. by rewrite app_nil_r.
  - intros a b E Hb. rewrite app_nil_r. by apply (H a).
Qed.

(** The lazy repetition stops at the first closing of the comment. *)
Lemma lazy_star_to_close {A} (k : text -> option A) body post a :
  contains (str "*/") body = false ->
  k post = Some a ->
  lazy_star Pattern.any (lit (str "*/") k) (body ++ str "*/" ++ post) = Some a.
Proof.
  intros Hbody Hk. induction body as [|c body IH].
  - assert (lit (str "*/") k (str "*/" ++ post) = Some a) as H
      by by rewrite lit_app.
    simpl in *. by rewrite H.
  - assert (contains (str "*/") body = false) as Hb
      by apply (contains_app_r _ [c] body Hbody).
    assert (lit (str "*/") k (c :: body ++ str "*/" ++ post) = None) as Hnone.
    { eval_str. eval_str_in Hbody. cbn [contains startswith] in Hbody.
      apply orb_false_iff in Hbody as [Hs _]. cbn [lit].
      destruct (N.eqb_spec 42 c) as [<-|]; [|done].
      destruct body as [|d body]; [done|]. cbn [app andb] in Hs |- *.
      by destruct (N.eqb_spec 47 d) as [<-|]. }
    change ((c :: body) ++ str "*/" ++ post) with (c :: body ++ str "*/" ++ post).
    cbn [lazy_star]. rewrite Hnone. by apply IH.
Qed.

Lemma block_comment_complete body post :
  contains (str "*/") body = false ->
  match_at Pattern.block_comment ((str "/*" ++ body ++ str "*/") ++ post)
  = Some (length (str "/*" ++ body ++ str "*/"), None).
Proof.
  intros Hbody. unfold match_at, Pattern.block_comment. cbn [exec].
  rewrite <- !app_assoc, lit_app.
  apply lazy_star_to_close; [done|]. do 2 f_equal. text_length.
Qed.

Lemma cuts_count (P : text -> Prop) c s out :
  (forall span, P span -> c ∉ span) ->
  cuts P s out -> count_of c out = count_of c s.
Proof.
  intros HP. induction 1 as [|d s out _ IH|span s out Hspan _ _ IH]; [done|..].
  - simpl. by rewrite IH.
  - rewrite count_of_app, (count_of_not_in c span) by by apply HP. done.
Qed.

(** ** The report for any list *)

Lemma count_of_filter_any p (l : list text) cls :
  count_of cls (List.filter p l) = if p cls then count_of cls l else 0.
Proof.
  induction l as [|y l IH]; simpl; [by destruct (p cls)|].
  destruct (decide (y = cls)) as [->|Hne].
  - destruct (p cls) eqn:E; simpl; [|done]. rewrite decide_True by done.
    by rewrite IH.
  - destruct (p y); simpl; [by rewrite decide_False|done].
Qed.

Lemma categories_step_any unused rest cls :
  cls ∈ unused ->
  (if existsb (fun '(_, category_classes) => mem cls category_classes)
        (categories_with unused rest)
   then categories_with unused rest
   else dict_append (categories_with unused rest) OTHER cls)
  = categories_with unused
      (if uncategorized cls && negb (mem cls rest) then rest ++ [cls] else rest).
Proof.
  intros Hin.
  assert (Hex : existsb (fun '(_, category_classes) => mem cls category_classes)
                  (categories_with unused rest)
                = prefix_bucket cls || animation_bucket cls || mem cls rest).
  { unfold categories_with, existsb. rewrite !mem_filter by done.
    unfold prefix_bucket.
    repeat match goal with
      | |- context [startswith ?p cls] => destruct (startswith p cls); [done|]
      end.
    simpl. by rewrite !orb_false_r. }
  rewrite Hex. unfold uncategorized.
  destruct (prefix_bucket cls || animation_bucket cls); simpl; [done|].
  destruct (mem cls rest); simpl; [done|]. apply dict_append_other.
Qed.

Lemma categories_loop_any unused rest todo :
  (forall cls, cls ∈ todo -> cls ∈ unused) ->
  foldl (fun categories cls =>
           if existsb (fun '(_, category_classes) => mem cls category_classes) categories
           then categories
           else dict_append categories OTHER cls)
        (categories_with unused rest) todo
  = categories_with unused (catch_all rest todo).
Proof.
  unfold catch_all. revert rest.
  induction todo as [|cls todo IH]; intros rest Hsub; cbn [foldl]; [done|].
  rewrite categories_step_any by (apply Hsub; by left).
  apply IH. intros c Hc. apply Hsub. by right.
Qed.

Lemma categories_any unused :
  categories unused = categories_with unused (catch_all [] unused).
Proof. by apply (categories_loop_any unused [] unused). Qed.

(** The catch-all bucket holds each of its classes once. *)
Lemma catch_all_spec rest todo :
  NoDup rest ->
  NoDup (catch_all rest todo)
  /\ forall x, x ∈ catch_all rest todo <->
               x ∈ rest \/ (x ∈ todo /\ uncategorized x = true).
Proof.
  unfold catch_all. revert rest.
  induction todo as [|cls todo IH]; intros rest Hnd; cbn [foldl].
  - split; [done|]. intros x. split; [by left|].
    by intros [?|[?%elem_of_nil _]].
  - destruct (uncategorized cls && negb (mem cls rest)) eqn:E.
    + apply andb_prop in E as [Hu Hm]. apply negb_true_iff in Hm.
      apply bool_decide_eq_false in Hm.
      destruct (IH (rest ++ [cls])) as [Hnd' Hin'].
      { apply NoDup_app. repeat split; [done| |apply NoDup_singleton].
        intros x Hx Hx'%list_elem_of_singleton. by subst. }
      split; [done|]. intros x. rewrite Hin', elem_of_app, list_elem_of_singleton,
        elem_of_cons. split.
      * intros [[?| ->]|[? ?]]; [by left|right; split; [by left|done]|].
        right. split; [by right|done].
      * intros [?|[[ -> |?] ?]]; [by left; left|by left; right|by right].
    + destruct (IH rest Hnd) as [Hnd' Hin']. split; [done|].
      intros x. rewrite Hin', elem_of_cons. split.
      * intros [?|[? ?]]; [by left|]. right. split; [by right|done].
      * intros [?|[[ -> |?] Hu]]; [by left| |by right].
        rewrite Hu in E. simpl in E. apply negb_false_iff in E.
        apply bool_decide_eq_true in E. by left.
Qed.

Lemma count_of_NoDup {A} `{EqDecision A} (x : A) l :
  NoDup l -> count_of x l = if bool_decide (x ∈ l) then 1 else 0.
Proof.
  induction 1 as [|y l Hy Hnd IH]; simpl; [done|].
  destruct (decide (y = x)) as [->|Hne].
  - rewrite bool_decide_eq_true_2 by by left.
    rewrite IH, bool_decide_eq_false_2 by done. done.
  - rewrite IH. destruct (bool_decide (x ∈ l)) eqn:E.
    + apply bool_decide_eq_true in E. rewrite bool_decide_eq_true_2; [done|by right].
    + apply bool_decide_eq_false in E. rewrite bool_decide_eq_false_2; [done|].
      intros [->|?]%elem_of_cons; done.
Qed.


(** * Properties of the specification's view *)

(** ** The report *)

Lemma report_section_print_category label classes :
  print_category (label, classes) = report_section label classes.
Proof. reflexivity. Qed.

(** The dict of the report, printed, is the sections of the buckets. *)
Lemma report_sections unused rest :
  concat (map print_category (categories_with unused rest))
  = concat (map (bucket_section unused) tested_buckets) ++ report_section OTHER rest.
Proof.
  unfold categories_with, tested_buckets, prefix_buckets.
  cbn [map concat app]. unfold bucket_section. cbn [fst snd].
  rewrite !report_section_print_category, app_nil_r, <- !app_assoc.
  reflexivity.
Qed.

Lemma count_of_report_section cls label classes :
  count_of (class_line cls) (report_section label classes) = count_of cls classes.
Proof. rewrite <- report_section_print_category. apply count_of_print_category. Qed.

Lemma length_filter_cons {A} (f : A -> bool) x l :
  length (List.filter f (x :: l)) = (if f x then 1 else 0) + length (List.filter f l).
Proof. simpl. by destruct (f x). Qed.

(** A class passes the test of at most one prefix bucket. *)
Lemma prefix_buckets_one cls :
  length (List.filter (fun b : text * (text -> bool) => b.2 cls) prefix_buckets)
  = if prefix_bucket cls then 1 else 0.
Proof.
  unfold prefix_buckets. rewrite !length_filter_cons. cbn [snd List.filter length].
  rewrite <- prefix_buckets_exclusive. lia.
Qed.

Lemma buckets_of_cases cls :
  (exists label, buckets_of cls = [label])
  \/ (exists label, label ∈ map fst prefix_buckets
        /\ buckets_of cls = [label; ANIMATIONS]).
Proof.
  unfold buckets_of, report_buckets, tested_buckets.
  rewrite !List.filter_app, !map_app.
  pose proof (prefix_buckets_one cls) as Hone.
  assert (Hin : forall b, b ∈ List.filter (fun b : text * (text -> bool) => b.2 cls)
                                  prefix_buckets -> b.1 ∈ map fst prefix_buckets).
  { intros b Hb. apply list_elem_of_In, List.filter_In in Hb as [Hb _].
    apply list_elem_of_In in Hb. by apply (list_elem_of_fmap_2 fst). }
  destruct (List.filter _ prefix_buckets) as [|b [|b' l]] eqn:E; simpl in Hone.
  - destruct (prefix_bucket cls) eqn:Hp; [done|].
    cbn [List.filter snd map app]. unfold uncategorized. rewrite Hp.
    destruct (animation_bucket cls); left; by eexists.
  - destruct (prefix_bucket cls) eqn:Hp; [|done].
    cbn [List.filter snd map app]. unfold uncategorized. rewrite Hp.
    destruct (animation_bucket cls); cbn [orb negb map app fst].
    + right. exists b.1. split; [|done]. apply Hin. by left.
    + left. by eexists.
  - destruct (prefix_bucket cls); simpl in Hone; lia.
Qed.

(** ** Runs of characters *)

(** Two texts that agree split at the first character outside a class at
    the same place. *)
Lemma run_unique (p : char -> bool) (x y r1 r2 : text) c d :
  forallb p x = true -> forallb p y = true -> p c = false -> p d = false ->
  x ++ c :: r1 = y ++ d :: r2 -> x = y /\ c = d /\ r1 = r2.
Proof.
  revert y. induction x as [|a x IH]; intros [|b y] Hx Hy Hc Hd E; simplify_eq/=.
  - done.
  - apply andb_prop in Hy as [? _]. congruence.
  - apply andb_prop in Hx as [? _]. congruence.
  - apply andb_prop in Hx as [_ Hx]. apply andb_prop in Hy as [_ Hy].
    destruct (IH y Hx Hy Hc Hd ltac:(done)) as (-> & -> & ->). done.
Qed.

Lemma forallb_rev (p : char -> bool) (l : text) : forallb p (rev l) = forallb p l.
Proof.
  induction l as [|c l IH]; [done|]. simpl.
  rewrite forallb_app, IH. simpl. rewrite andb_true_r. apply andb_comm.
Qed.

(** Two texts that agree split at the last character outside a class at
    the same place. *)
Lemma run_unique_last (p : char -> bool) (x y r1 r2 : text) c d :
  forallb p r1 = true -> forallb p r2 = true -> p c = false -> p d = false ->
  x ++ c :: r1 = y ++ d :: r2 -> x = y /\ c = d /\ r1 = r2.
Proof.
  intros H1 H2 Hc Hd E. apply (f_equal (@rev _)) in E.
  rewrite !rev_app_distr in E. simpl in E. rewrite <- !app_assoc in E. simpl in E.
  apply (run_unique p) in E as (E1 & -> & E2); [|by rewrite forallb_rev..|done|done].
  apply (f_equal (@rev _)) in E1, E2. rewrite !rev_involutive in E1, E2. done.
Qed.

Lemma forallb_drop (p : char -> bool) n (l : text) :
  forallb p l = true -> forallb p (drop n l) = true.
Proof.
  revert n. induction l as [|c l IH]; intros [|n]; simpl; try done.
  intros [_ ?]%andb_prop. by apply IH.
Qed.

Lemma forallb_elem_of (p : char -> bool) (l : text) c :
  forallb p l = true -> c ∈ l -> p c = true.
Proof.
  intros H Hc. apply list_elem_of_In in Hc.
  by apply (proj1 (forallb_forall p l) H).
Qed.

(** ** Scanning, step by step *)

(** [findall] passes over a stretch in which no match starts. *)
Lemma findall_keeps r pre s :
  (forall a b, pre = a ++ b -> b <> [] -> match_at r (b ++ s) = None) ->
  findall r (pre ++ s) = findall r s.
Proof.
  unfold findall. induction pre as [|c pre IH]; intros H; [done|].
  pose proof (H [] (c :: pre) eq_refl ltac:(done)) as H0.
  simpl in *. rewrite H0.
  apply IH. intros a b -> Hb. by apply (H (c :: a)).
Qed.

(** [findall] lists a match and goes on behind it. *)
Lemma findall_hit r span s g :
  span <> [] -> match_at r (span ++ s) = Some (length span, g) ->
  findall r (span ++ s) = group1 g :: findall r s.
Proof.
  unfold findall. destruct span as [|c span]; [done|]. intros _ H.
  simpl. simpl in H. rewrite H. f_equal. simpl.
  rewrite Nat.sub_0_r, findall_from_skip by (rewrite length_app; lia).
  by rewrite drop_app_length.
Qed.

Lemma dots_numeric_suffix a b : dots_numeric (a ++ b) = true -> dots_numeric b = true.
Proof.
  induction a as [|c a IH]; [done|]. simpl. intros [_ ?]%andb_prop. by apply IH.
Qed.

Lemma dots_numeric_no_dot (s : text) :
  forallb (not_char dot) s = true -> dots_numeric s = true.
Proof.
  induction s as [|c s IH]; [done|]. simpl. intros [Hc Hs]%andb_prop.
  unfold not_char in Hc. rewrite Hc. simpl. by apply IH.
Qed.

Lemma dots_numeric_app a b :
  dots_numeric a = true -> dots_numeric b = true -> dots_numeric (a ++ b) = true.
Proof.
  intros Ha Hb. induction a as [|c a IH]; [done|].
  simpl in *. apply andb_prop in Ha as [Hc Ha]. rewrite (IH Ha), andb_true_r.
  destruct a as [|d a]; simpl; [|done].
  rewrite orb_false_r in Hc. by rewrite Hc.
Qed.

Lemma forallb_impl (p q : char -> bool) (l : text) :
  (forall c, p c = true -> q c = true) -> forallb p l = true -> forallb q l = true.
Proof.
  intros Hpq. induction l as [|c l IH]; [done|]. simpl.
  intros [Hc Hl]%andb_prop. by rewrite (Hpq c Hc), (IH Hl).
Qed.

Lemma space_not_dot_char c : is_space c = true -> not_char dot c = true.
Proof. unfold not_char, dot, is_space. intros H. char_arith. Qed.

Lemma ident_not_dot_char c : is_ident_char c = true -> not_char dot c = true.
Proof. unfold not_char, dot, is_ident_char, is_alpha. intros H. char_arith. Qed.

Lemma space_not_dot (ws : text) :
  forallb is_space ws = true -> forallb (not_char dot) ws = true.
Proof. apply forallb_impl, space_not_dot_char. Qed.

Lemma ident_not_dot (x : text) :
  forallb is_ident_char x = true -> forallb (not_char dot) x = true.
Proof. apply forallb_impl, ident_not_dot_char. Qed.

Lemma rule_end_not_dot c : is_rule_end c = true -> not_char dot c = true.
Proof. unfold is_rule_end, is_char, not_char, dot, ch. simpl. intros H. char_arith. Qed.

Lemma rule_end_not_ident c : is_rule_end c = true -> is_ident_char c = false.
Proof.
  unfold is_rule_end, is_char, is_ident_char, is_alpha, ch. simpl. intros H.
  char_arith.
Qed.

(** *** The two class patterns on a stylesheet *)

Section ClassScan.
Variable r : regex.

(** A match starts with a dot and a letter. *)
Hypothesis starts_class : forall s n g,
  match_at r s = Some (n, g) -> exists d s', s = dot :: d :: s' /\ is_alpha d = true.

(** The head of a rule is matched, up to its comma or brace at most. *)
Hypothesis finds_head : forall x ws c rest,
  is_ident x = true -> all_space ws -> is_rule_end c = true ->
  exists n, match_at r (str "." ++ x ++ ws ++ c :: rest) = Some (S n, Some x)
            /\ n <= length x + length ws + 1.

Lemma scan_inert pre s : dots_numeric pre = true -> findall r (pre ++ s) = findall r s.
Proof.
  intros Hpre. apply findall_keeps. intros a b -> Hb.
  destruct (match_at r (b ++ s)) as [[n g]|] eqn:E; [|done].
  apply starts_class in E as (d & s' & E & Hd).
  apply dots_numeric_suffix in Hpre.
  destruct b as [|c [|d' b]]; simplify_eq/=.
  rewrite Hd in Hpre. done.
Qed.

Lemma scan_end : findall r [] = [].
Proof.
  unfold findall. simpl. destruct (match_at r []) as [[n g]|] eqn:E; [|done].
  by apply starts_class in E as (d & s' & E & _).
Qed.

Lemma scan_selector sel c rest :
  plain_selector sel = true -> is_rule_end c = true ->
  findall r (render_selector sel ++ c :: rest) = sel_class sel :: findall r rest.
Proof.
  unfold plain_selector, render_selector.
  intros [[Hlead Hx]%andb_prop Htail]%andb_prop Hc.
  rewrite <- app_assoc, scan_inert by by apply dots_numeric_no_dot, space_not_dot.
  rewrite <- !app_assoc.
  destruct (finds_head (sel_class sel) (sel_tail sel) c rest Hx Htail Hc)
    as (n & Hm & Hn).
  unfold findall. change (str ".") with [dot] in *. simpl in Hm |- *.
  rewrite Hm. simpl. f_equal. rewrite Nat.sub_0_r.
  rewrite findall_from_skip by (rewrite !length_app; simpl; lia).
  change (sel_class sel ++ sel_tail sel ++ c :: rest)
    with (sel_class sel ++ sel_tail sel ++ [c] ++ rest).
  rewrite !app_assoc, drop_app_le by (rewrite !length_app; simpl; lia).
  apply scan_inert, dots_numeric_no_dot, forallb_drop.
  rewrite !forallb_app. simpl.
  rewrite (ident_not_dot _ (ident_chars _ Hx)), (space_not_dot _ Htail).
  by rewrite (rule_end_not_dot _ Hc).
Qed.

Lemma scan_selectors s more X :
  plain_selector s = true -> forallb plain_selector more = true ->
  findall r (render_selector s ++ render_more more ++ X)
  = sel_class s :: map sel_class more ++ findall r X.
Proof.
  revert s. induction more as [|s' more IH]; intros s Hs Hmore.
  - change (render_more []) with [ch "{"]. simpl. by apply scan_selector.
  - simpl in Hmore. apply andb_prop in Hmore as [Hs' Hmore].
    change (render_more (s' :: more))
      with ([ch ","] ++ render_selector s' ++ render_more more).
    rewrite <- !app_assoc. simpl. rewrite scan_selector by done.
    f_equal. by apply IH.
Qed.

Lemma plain_body_dots body : plain_body body = true -> dots_numeric (body ++ str "}") = true.
Proof. intros [_ ?]%andb_prop. by apply dots_numeric_app. Qed.

(** On a stylesheet without comments the scan lists the classes of the
    rule heads, in order. *)
Lemma scan_sheet sheet :
  simple sheet = true -> forallb (fun i => negb (is_comment i)) sheet = true ->
  findall r (render sheet) = rule_names sheet.
Proof.
  induction sheet as [|i sheet IH]; [intros _ _; apply scan_end|].
  simpl. intros [Hi Hs]%andb_prop [Hc Hn]%andb_prop.
  destruct i as [first more body|body|ws]; simpl in *; [|done|].
  - apply andb_prop in Hi as [[Hfirst Hmore]%andb_prop Hbody].
    rewrite <- !app_assoc, scan_selectors by done. f_equal. f_equal.
    rewrite app_assoc, scan_inert by by apply plain_body_dots.
    by apply IH.
  - rewrite scan_inert by by apply dots_numeric_no_dot, space_not_dot.
    by apply IH.
Qed.
End ClassScan.

Lemma ident_starts x : is_ident x = true -> exists d x', x = d :: x' /\ is_alpha d = true.
Proof. destruct x as [|d x']; [done|]. simpl. intros [? _]%andb_prop. eauto. Qed.

Lemma rule_class_starts s n g :
  match_at Pattern.rule_class s = Some (n, g) ->
  exists d s', s = dot :: d :: s' /\ is_alpha d = true.
Proof.
  intros (x & rest & -> & _ & (d & x' & -> & Hd)%ident_starts & _)%rule_class_sound.
  by exists d, (x' ++ rest).
Qed.

Lemma any_class_starts s n g :
  match_at Pattern.any_class s = Some (n, g) ->
  exists d s', s = dot :: d :: s' /\ is_alpha d = true.
Proof.
  intros (x & rest & -> & _ & _ & (d & x' & -> & Hd)%ident_starts)%any_class_sound.
  by exists d, (x' ++ rest).
Qed.

Lemma rule_class_head x ws c rest :
  is_ident x = true -> all_space ws -> is_rule_end c = true ->
  exists n, match_at Pattern.rule_class (str "." ++ x ++ ws ++ c :: rest)
            = Some (S n, Some x)
            /\ n <= length x + length ws + 1.
Proof.
  intros Hx Hws Hc. exists (length x + length ws + 1). split; [|done].
  rewrite rule_class_complete by done. do 2 f_equal. lia.
Qed.

(** ** Stripping the comments of a stylesheet *)

Lemma space_not_slash (ws : text) :
  forallb is_space ws = true -> forallb (not_char slash) ws = true.
Proof.
  apply forallb_impl. intros c H. unfold not_char, slash, is_space in *. char_arith.
Qed.

Lemma ident_not_slash (x : text) :
  forallb is_ident_char x = true -> forallb (not_char slash) x = true.
Proof.
  apply forallb_impl. intros c H.
  unfold not_char, slash, is_ident_char, is_alpha in *. char_arith.
Qed.

Lemma plain_selector_no_slash s :
  plain_selector s = true -> forallb (not_char slash) (render_selector s) = true.
Proof.
  unfold plain_selector, render_selector.
  intros [[Hlead Hx]%andb_prop Htail]%andb_prop.
  rewrite !forallb_app, (space_not_slash _ Hlead), (space_not_slash _ Htail).
  by rewrite (ident_not_slash _ (ident_chars _ Hx)).
Qed.

Lemma render_more_no_slash more :
  forallb plain_selector more = true ->
  forallb (not_char slash) (render_more more) = true.
Proof.
  induction more as [|s more IH]; [done|]. simpl. intros [Hs Hmore]%andb_prop.
  rewrite forallb_app, (plain_selector_no_slash _ Hs). by apply IH.
Qed.

Lemma plain_body_no_slash body :
  plain_body body = true -> forallb (not_char slash) body = true.
Proof.
  intros [H _]%andb_prop. revert H. apply forallb_impl.
  intros c [_ ?]%andb_prop. done.
Qed.

Lemma plain_body_no_brace body :
  plain_body body = true -> forallb (fun c => negb (is_brace c)) body = true.
Proof.
  intros [H _]%andb_prop. revert H. apply forallb_impl.
  intros c [? _]%andb_prop. done.
Qed.

(** The text of a rule or of whitespace holds no slash. *)
Lemma item_no_slash i :
  simple_item i = true -> is_comment i = false ->
  forallb (not_char slash) (render_item i) = true.
Proof.
  destruct i as [first more body|body|ws]; simpl; [|done|].
  - intros [[Hfirst Hmore]%andb_prop Hbody]%andb_prop _.
    rewrite !forallb_app, (plain_selector_no_slash _ Hfirst),
      (render_more_no_slash _ Hmore), (plain_body_no_slash _ Hbody). done.
  - intros H _. by apply space_not_slash.
Qed.

Lemma render_no_slash sheet :
  simple sheet = true -> forallb (fun i => negb (is_comment i)) sheet = true ->
  forallb (not_char slash) (render sheet) = true.
Proof.
  induction sheet as [|i sheet IH]; [done|]. simpl.
  intros [Hi Hs]%andb_prop [Hc Hn]%andb_prop.
  rewrite forallb_app, item_no_slash, IH; try done. by apply negb_true_iff.
Qed.

(** In a text without a slash no comment starts. *)
Lemma no_slash_no_block pre s :
  forallb (not_char slash) pre = true ->
  sub_empty Pattern.block_comment (pre ++ s) = pre ++ sub_empty Pattern.block_comment s.
Proof.
  intros Hpre. apply sub_empty_keeps. intros a b -> Hb.
  destruct (match_at _ _) as [[n g]|] eqn:E; [|done].
  apply block_comment_starts in E as [s1 E].
  rewrite forallb_app in Hpre. apply andb_prop in Hpre as [_ Hpre].
  destruct b as [|c b]; [done|]. simpl in Hpre. injection E as -> _.
  by vm_compute in Hpre.
Qed.

Lemma no_slash_no_line s :
  forallb (not_char slash) s = true -> sub_empty Pattern.line_comment s = s.
Proof.
  intros Hs. apply sub_empty_no_match. intros a b -> Hb.
  destruct (match_at _ _) as [[n g]|] eqn:E; [|done].
  apply line_comment_sound in E as (run & rest & E & _).
  rewrite forallb_app in Hs. apply andb_prop in Hs as [_ Hs].
  destruct b as [|c b]; [done|]. simpl in Hs. injection E as -> _.
  by vm_compute in Hs.
Qed.

Lemma uncomment_simple sheet :
  simple sheet = true ->
  simple (uncomment sheet) = true
  /\ forallb (fun i => negb (is_comment i)) (uncomment sheet) = true.
Proof.
  induction sheet as [|i sheet IH]; [done|]. simpl. intros [Hi Hs]%andb_prop.
  destruct (IH Hs) as [IH1 IH2].
  destruct (is_comment i) eqn:Hc; simpl; [done|].
  by rewrite Hi, Hc, IH1, IH2.
Qed.

Lemma uncomment_names sheet : rule_names (uncomment sheet) = rule_names sheet.
Proof.
  induction sheet as [|i sheet IH]; [done|]. simpl.
  destruct i; simpl; by rewrite IH.
Qed.

(** Stripping the comments of a stylesheet leaves the text of its rules
    and its whitespace. *)
Lemma strip_comments_render sheet :
  simple sheet = true -> strip_comments (render sheet) = render (uncomment sheet).
Proof.
  intros Hs. unfold strip_comments.
  assert (sub_empty Pattern.block_comment (render sheet) = render (uncomment sheet))
    as ->.
  { induction sheet as [|i sheet IH]; [done|].
    simpl in Hs. apply andb_prop in Hs as [Hi Hs]. specialize (IH Hs). simpl.
    destruct (is_comment i) eqn:Hc; simpl.
    - destruct i as [| body |]; try done. simpl in Hi. apply negb_true_iff in Hi.
      rewrite <- IH.
      apply (sub_empty_cut _ (str "/*" ++ body ++ str "*/") _ None);
        [by eval_str|by apply block_comment_complete].
    - rewrite no_slash_no_block by by apply item_no_slash. by rewrite IH. }
  apply no_slash_no_line.
  destruct (uncomment_simple sheet Hs). by apply render_no_slash.
Qed.

(** The comment-excluded mode finds exactly the classes of the rule heads
    of a stylesheet, whatever its comments hold. *)
Lemma excluded_mode_of_sheet sheet :
  simple sheet = true -> css_classes_of (render sheet) true = rule_classes sheet.
Proof.
  intros Hs. unfold css_classes_of, rule_classes.
  rewrite strip_comments_render by done.
  destruct (uncomment_simple sheet Hs).
  rewrite (scan_sheet _ rule_class_starts rule_class_head) by done.
  by rewrite uncomment_names.
Qed.

(** ** Stylesheets of single rules *)

Lemma space_not_brace_char c : is_space c = true -> not_brace c = true.
Proof.
  intros H. unfold not_brace, is_brace, is_char, ch, is_space in *. simpl.
  char_arith.
Qed.

Lemma space_not_brace (ws : text) :
  forallb is_space ws = true -> forallb not_brace ws = true.
Proof. apply forallb_impl, space_not_brace_char. Qed.

Lemma ident_not_brace (x : text) :
  forallb is_ident_char x = true -> forallb not_brace x = true.
Proof.
  apply forallb_impl. intros c H.
  unfold not_brace, is_brace, is_char, ch, is_ident_char, is_alpha in *. simpl.
  char_arith.
Qed.

Lemma nonempty_last (b : text) : b <> [] -> exists b' e, b = b' ++ [e].
Proof.
  induction b as [|c b IH]; [done|]. intros _. destruct b as [|d b].
  - by exists [], c.
  - destruct IH as (b' & e & ->); [done|]. by exists (c :: b'), e.
Qed.

(** A run of identifier characters ends where the text stops being one. *)
Lemma ident_run_unique (x y r1 r2 : text) :
  forallb is_ident_char x = true -> forallb is_ident_char y = true ->
  stops is_ident_char r1 -> stops is_ident_char r2 ->
  x ++ r1 = y ++ r2 -> x = y /\ r1 = r2.
Proof.
  revert y. induction x as [|a x IH]; intros [|b y] Hx Hy H1 H2 E; simplify_eq/=.
  - done.
  - apply andb_prop in Hy as [? _]. congruence.
  - apply andb_prop in Hx as [? _]. congruence.
  - apply andb_prop in Hx as [_ Hx]. apply andb_prop in Hy as [_ Hy].
    destruct (IH y Hx Hy H1 H2 ltac:(done)) as [-> ->]. done.
Qed.

Lemma spaces_stop (ws : text) : forallb is_space ws = true -> stops is_ident_char ws.
Proof.
  destruct ws as [|c ws]; [done|]. simpl. intros [? _]%andb_prop.
  by apply space_not_ident.
Qed.

(** The parts of a tame selector. *)
Lemma tame_selector_parts s :
  tame_selector s = true ->
  forallb is_space (sel_lead s) = true /\ is_ident (sel_class s) = true
  /\ forallb (not_char dot) (sel_tail s) = true
  /\ forallb not_brace (sel_tail s) = true
  /\ stops is_ident_char (sel_tail s).
Proof.
  unfold tame_selector. intros [[[Hlead Hx]%andb_prop Htail]%andb_prop Hstop]%andb_prop.
  repeat split; try done.
  - revert Htail. apply forallb_impl. by intros c [? _]%andb_prop.
  - revert Htail. apply forallb_impl. by intros c [_ ?]%andb_prop.
  - destruct (sel_tail s); [done|]. by apply negb_true_iff.
Qed.

Lemma rule_text s body :
  render_item (Rule s [] body)
  = (sel_lead s ++ [dot] ++ sel_class s ++ sel_tail s) ++ [ch "{"] ++ body ++ [ch "}"].
Proof. unfold render_item, render_selector. simpl. by rewrite <- !app_assoc. Qed.

(** *** The comment-included mode *)

Lemma scan_single_rule s body rest :
  tame_selector s = true -> plain_body body = true ->
  findall Pattern.any_class (render_item (Rule s [] body) ++ rest)
  = sel_class s :: findall Pattern.any_class rest.
Proof.
  intros (Hlead & Hx & Hdot & Hbrace & Hstop)%tame_selector_parts Hbody.
  rewrite rule_text, <- !app_assoc.
  rewrite (scan_inert _ any_class_starts)
    by by apply dots_numeric_no_dot, space_not_dot.
  rewrite (app_assoc [dot]).
  rewrite (findall_hit _ ([dot] ++ sel_class s) _ (Some (sel_class s))).
  - change (group1 (Some (sel_class s))) with (sel_class s). f_equal.
    rewrite !app_assoc. apply (scan_inert _ any_class_starts).
    rewrite <- !app_assoc.
    apply dots_numeric_app; [by apply dots_numeric_no_dot|].
    apply (dots_numeric_app [ch "{"]); [done|]. by apply plain_body_dots.
  - done.
  - rewrite <- app_assoc. rewrite (any_class_complete (sel_class s)); [done|done|].
    destruct (sel_tail s); [|done]. by vm_compute.
Qed.

(** On a stylesheet of single rules the comment-included mode finds the
    classes of the rules. *)
Lemma included_mode_single sheet :
  single_rules sheet = true ->
  css_classes_of (render sheet) false = rule_classes sheet.
Proof.
  intros Hs. unfold css_classes_of, rule_classes. f_equal. revert Hs.
  induction sheet as [|[s [|s' more] body|body|ws] sheet IH]; try done.
  - intros [[Hs Hb]%andb_prop Hc]%andb_prop.
    change (render (Rule s [] body :: sheet))
      with (render_item (Rule s [] body) ++ render sheet).
    rewrite scan_single_rule by done. simpl. f_equal. by apply IH.
  - destruct sheet; [|done]. simpl. intros Hws. rewrite app_nil_r.
    rewrite <- (app_nil_r ws), (scan_inert _ any_class_starts)
      by by apply dots_numeric_no_dot, space_not_dot.
    apply (scan_end _ any_class_starts).
Qed.

(** *** The eraser *)

(** The head of a rule block: whitespace, a dot, a name, and what follows
    the name. *)
Lemma head_no_brace ws x tail :
  forallb is_space ws = true -> forallb is_ident_char x = true ->
  forallb not_brace tail = true ->
  forallb not_brace (ws ++ [dot] ++ x ++ tail) = true.
Proof.
  intros Hws Hx Htail.
  rewrite !forallb_app, (space_not_brace _ Hws), Htail.
  by rewrite (ident_not_brace _ Hx).
Qed.

(** The head of a rule ends with the head of a rule block of the class
    only when it is the bare class. *)
Lemma head_unique a ws x ws' s :
  forallb is_space ws' = true -> forallb is_ident_char x = true ->
  tame_selector s = true ->
  a ++ ws ++ [dot] ++ x ++ ws' = sel_lead s ++ [dot] ++ sel_class s ++ sel_tail s ->
  erased_by x s = true.
Proof.
  intros Hws' Hx (_ & Hy & Hdot & _ & Hstop)%tame_selector_parts E.
  apply ident_chars in Hy.
  change (a ++ ws ++ [dot] ++ x ++ ws') with (a ++ ws ++ dot :: (x ++ ws')) in E.
  rewrite app_assoc in E.
  apply (run_unique_last (not_char dot)) in E as (_ & _ & E); [| | |done|done].
  - apply ident_run_unique in E as [E1 E2]; [|done|done|by apply spaces_stop|done].
    unfold erased_by, bare. by rewrite <- E1, <- E2, bool_decide_eq_true_2.
  - by rewrite forallb_app, (ident_not_dot _ Hx), (space_not_dot _ Hws').
  - by rewrite forallb_app, (ident_not_dot _ Hy), Hdot.
Qed.

(** The eraser of a class passes over a rule that is not for the bare
    class. *)
Lemma erase_rule_keep cls s body rest :
  is_ident cls = true -> tame_selector s = true -> plain_body body = true ->
  erased_by cls s = false ->
  sub_empty (Pattern.rule_of cls) (render_item (Rule s [] body) ++ rest)
  = render_item (Rule s [] body) ++ sub_empty (Pattern.rule_of cls) rest.
Proof.
  intros Hcls Hs Hbody Hne.
  destruct (tame_selector_parts s Hs) as (Hlead & Hx & _ & Htail & _).
  apply ident_chars in Hcls, Hx. apply plain_body_no_brace in Hbody.
  apply sub_empty_keeps. intros a b HT Hb.
  destruct (match_at _ _) as [[n g]|] eqn:E; [|done]. exfalso.
  apply rule_of_sound in E
    as (span & rest' & E & _ & ws & ws' & body' & -> & Hws & Hws' & _).
  rewrite rule_text in HT.
  change (str ".") with [dot] in E. change (str "{") with [ch "{"] in E.
  change (str "}") with [ch "}"] in E.
  replace ((ws ++ [dot] ++ cls ++ ws' ++ [ch "{"] ++ body' ++ [ch "}"]) ++ rest')
    with ((ws ++ [dot] ++ cls ++ ws') ++ ch "{" :: (body' ++ [ch "}"] ++ rest')) in E
    by (by rewrite <- !app_assoc).
  pose proof (head_no_brace ws cls ws' Hws Hcls (space_not_brace _ Hws')) as Hhead.
  apply app_eq_split in HT as HT'. destruct HT' as [[l El]|(d & l & El & Hd)].
  - rewrite El, <- app_assoc in HT. apply app_inv_head in HT. subst b.
    rewrite <- app_assoc in E. simpl in E.
    apply (run_unique not_brace) in E as (-> & _ & _); [| |done|done|done].
    + rewrite (head_unique a ws cls ws' s) in Hne; done.
    + pose proof (head_no_brace _ _ _ Hlead Hx Htail) as HH.
      rewrite El, forallb_app in HH. by apply andb_prop in HH as [_ ?].
  - change (Some (ch "{") = Some d) in Hd. injection Hd as <-.
    rewrite El in HT. rewrite <- (app_assoc _ _ b) in HT.
    apply app_inv_head in HT. injection HT as HT.
    destruct (nonempty_last b Hb) as (b' & e & ->).
    rewrite app_assoc in HT. apply app_inj_tail in HT as [-> <-].
    rewrite <- app_assoc in E. simpl in E.
    apply (run_unique not_brace) in E as (_ & E & _); [done| |done|done|done].
    rewrite forallb_app in Hbody. by apply andb_prop in Hbody as [_ ?].
Qed.

(** The eraser of a class cuts the rule of the bare class out. *)
Lemma erase_rule_cut cls s body rest :
  tame_selector s = true -> plain_body body = true ->
  erased_by cls s = true ->
  sub_empty (Pattern.rule_of cls) (render_item (Rule s [] body) ++ rest)
  = sub_empty (Pattern.rule_of cls) rest.
Proof.
  intros (Hlead & _)%tame_selector_parts Hbody [<-%bool_decide_eq_true Htail]%andb_prop.
  apply plain_body_no_brace in Hbody.
  assert (render_item (Rule s [] body)
          = sel_lead s ++ str "." ++ sel_class s ++ sel_tail s ++ str "{" ++ body
            ++ str "}") as ->.
  { unfold render_item, render_selector. cbn [render_more].
    by rewrite <- !app_assoc. }
  apply (sub_empty_cut _ _ _ None).
  - destruct (sel_lead s); done.
  - apply rule_of_complete; [done..|].
    intros Hin. apply (forallb_elem_of _ _ _ Hbody) in Hin. by vm_compute in Hin.
Qed.

(** The eraser leaves whitespace alone. *)
Lemma erase_blank cls ws :
  forallb is_space ws = true -> sub_empty (Pattern.rule_of cls) ws = ws.
Proof.
  intros Hws. apply sub_empty_no_match. intros a b -> Hb.
  destruct (match_at _ _) as [[n g]|] eqn:E; [|done]. exfalso.
  apply rule_of_sound in E
    as (span & rest' & -> & _ & ws1 & ws' & body' & -> & _).
  apply space_not_dot in Hws. rewrite <- !app_assoc, !forallb_app in Hws.
  apply andb_prop in Hws as [_ [_ [Hd _]%andb_prop]%andb_prop].
  by vm_compute in Hd.
Qed.

(** Erasing a class from a stylesheet of single rules cuts out the rules
    of the bare class and nothing else. *)
Lemma erase_class cls sheet :
  is_ident cls = true -> single_rules sheet = true ->
  sub_empty (Pattern.rule_of cls) (render sheet)
  = render (keep_rules (fun s => negb (erased_by cls s)) sheet).
Proof.
  intros Hcls.
  induction sheet as [|[s [|s' more] body|body|ws] sheet IH]; simpl; try done.
  - intros [[Hs Hb]%andb_prop Hc]%andb_prop.
    destruct (erased_by cls s) eqn:He; simpl; rewrite <- IH by done.
    + by apply erase_rule_cut.
    + by apply erase_rule_keep.
  - destruct sheet; [|done]. intros Hws. simpl. rewrite !app_nil_r.
    by apply erase_blank.
Qed.

Lemma single_rules_keep keep sheet :
  single_rules sheet = true -> single_rules (keep_rules keep sheet) = true.
Proof.
  induction sheet as [|[s [|s' more] body|body|ws] sheet IH]; simpl; try done.
  - intros [[Hs Hb]%andb_prop Hc]%andb_prop.
    destruct (keep s); simpl; [|by apply IH].
    by rewrite Hs, Hb, IH.
  - destruct sheet; [|done]. done.
Qed.

Lemma keep_rules_twice k1 k2 sheet :
  keep_rules k1 (keep_rules k2 sheet) = keep_rules (fun s => k2 s && k1 s) sheet.
Proof.
  induction sheet as [|i sheet IH]; [done|]. unfold keep_rules in *. simpl.
  destruct i as [s more body|body|ws]; simpl.
  - destruct (k2 s); simpl; [|done].
    destruct (k1 s); simpl; by rewrite IH.
  - by rewrite IH.
  - by rewrite IH.
Qed.

Lemma keep_rules_ext k1 k2 sheet :
  (forall s, s ∈ selectors sheet -> k1 s = k2 s) ->
  keep_rules k1 sheet = keep_rules k2 sheet.
Proof.
  induction sheet as [|i sheet IH]; [done|]. intros H. unfold keep_rules in *. simpl.
  rewrite IH by (intros x Hx; apply H; simpl; apply elem_of_app; by right).
  destruct i as [s more body|body|ws]; [|done..].
  rewrite (H s); [done|]. simpl. by left.
Qed.

Lemma keep_rules_all keep sheet :
  (forall s, s ∈ selectors sheet -> keep s = true) -> keep_rules keep sheet = sheet.
Proof.
  intros H. rewrite (keep_rules_ext keep (fun _ => true)) by done.
  unfold keep_rules. clear H. induction sheet as [|i sheet IH]; [done|]. simpl.
  rewrite IH. by destruct i.
Qed.

Lemma selectors_keep keep sheet s :
  single_rules sheet = true ->
  s ∈ selectors (keep_rules keep sheet) <-> s ∈ selectors sheet /\ keep s = true.
Proof.
  induction sheet as [|[s1 [|s' more] body|body|ws] sheet IH]; simpl; try done.
  - intros _. rewrite elem_of_nil. by split; [|intros []].
  - intros [_ Hc]%andb_prop. specialize (IH Hc).
    destruct (keep s1) eqn:Hk; simpl; rewrite ?elem_of_cons, IH.
    + split; [intros [->|[? ?]]; auto|intros [[->|?] ?]; auto].
    + split; [intros [? ?]; auto|intros [[->|?] ?]; [congruence|auto]].
  - destruct sheet; [|done]. intros _. simpl. rewrite elem_of_nil.
    by split; [|intros []].
Qed.

Lemma rule_names_selectors sheet : rule_names sheet = map sel_class (selectors sheet).
Proof.
  induction sheet as [|i sheet IH]; [done|]. simpl. rewrite map_app, IH.
  by destruct i.
Qed.

Lemma elem_of_rule_classes sheet x :
  x ∈ rule_classes sheet <-> exists s, s ∈ selectors sheet /\ sel_class s = x.
Proof.
  unfold rule_classes. rewrite elem_of_list_to_set, rule_names_selectors.
  rewrite list_elem_of_fmap. split; intros (s & ? & ?); by exists s.
Qed.

(** The loop of the eraser on a stylesheet of single rules: the rules of
    the bare classes in the list go, the others stay. *)
Lemma remove_rules_render unused sheet :
  Forall (fun cls => is_ident cls = true) unused -> single_rules sheet = true ->
  remove_rules unused (render sheet)
  = render (keep_rules (fun s => negb (mem (sel_class s) unused && bare s)) sheet).
Proof.
  intros Hu. revert sheet. induction Hu as [|cls unused Hcls _ IH]; intros sheet Hc.
  - simpl. by rewrite keep_rules_all.
  - unfold remove_rules in *. simpl. rewrite erase_class by done.
    rewrite IH by by apply single_rules_keep. rewrite keep_rules_twice.
    f_equal. apply keep_rules_ext. intros s _. unfold erased_by, mem.
    destruct (bare s); [|by rewrite !andb_false_r]. rewrite !andb_true_r.
    rewrite <- negb_orb. f_equal.
    destruct (decide (sel_class s = cls)) as [->|Hne].
    + rewrite bool_decide_eq_true_2 by done.
      by rewrite (bool_decide_eq_true_2 (cls ∈ cls :: unused)) by by left.
    + rewrite (bool_decide_eq_false_2 (sel_class s = cls)) by done. simpl.
      apply bool_decide_ext. rewrite elem_of_cons.
      split; [by right|by intros [?|?]].
Qed.

(** ** The files that are scanned *)

Lemma scanned_files_to_check fs paths file :
  scanned fs paths file <->
  file ∈ files_to_check fs (expand_search_paths fs paths) /\ path_exists fs file = true.
Proof.
  unfold scanned. rewrite elem_of_files_to_check. split.
  - intros (Hex & path & item & Hpath & Hitem & H). split; [|done].
    exists item. split.
    { apply elem_of_expand_search_paths. by exists path. }
    destruct H as [?|(? & ? & root & dirs & files & name & ? & ? & ? & ->)];
      [by left|right].
    repeat split; [done..|]. apply elem_of_walk_files. by exists root, dirs, files, name.
  - intros [(item & (path & Hpath & Hitem)%elem_of_expand_search_paths & H) Hex].
    split; [done|]. exists path, item. repeat split; [done..|].
    destruct H as [?|(? & ? & H)]; [by left|right].
    apply elem_of_walk_files in H as (root & dirs & files & name & ? & ? & ? & ->).
    repeat split; [done..|]. by exists root, dirs, files, name.
Qed.

(** A file that is not scanned may change: the usages stay. *)
Lemma scan_files_unscanned fs p content files used :
  (p ∈ files -> path_exists fs p = false) ->
  scan_files (with_content fs p content) files used = scan_files fs files used.
Proof.
  revert used. induction files as [|f files IH]; intros used Hp; [done|].
  assert (Hp' : p ∈ files -> path_exists fs p = false)
    by (intros ?; apply Hp; by right).
  simpl. destruct (path_exists fs f) eqn:Hex; [|by apply IH].
  destruct (decide (f = p)) as [->|_].
  - rewrite Hp in Hex by by left. done.
  - destruct (read fs f); simpl; [by apply IH|done].
Qed.

Lemma get_used_classes_unscanned fs p content paths :
  ~ scanned fs paths p ->
  get_used_classes (with_content fs p content) paths = get_used_classes fs paths.
Proof.
  intros Hp. unfold get_used_classes. apply scan_files_unscanned.
  intros Hin. destruct (path_exists fs p) eqn:Hex; [|done].
  destruct Hp. by apply scanned_files_to_check.
Qed.

(** ** The second run *)

Lemma get_css_classes_single fs css_file sheet :
  single_rules sheet = true -> read fs css_file = Some (render sheet) ->
  get_css_classes fs css_file false = Some (rule_classes sheet).
Proof.
  intros Hs Hr. unfold get_css_classes. rewrite Hr.
  change (Some (css_classes_of (render sheet) false) = Some (rule_classes sheet)).
  by rewrite included_mode_single.
Qed.

Lemma elem_of_unused (defined used : gset text) x :
  x ∈ sorted (elements (defined ∖ used)) <-> x ∈ defined /\ x ∉ used.
Proof. by rewrite elem_of_sorted, elem_of_elements, elem_of_difference. Qed.

Lemma bare_rules_keep keep sheet :
  single_rules sheet = true -> bare_rules sheet = true ->
  bare_rules (keep_rules keep sheet) = true.
Proof.
  unfold bare_rules. intros Hs Hb. apply forallb_forall. intros s Hin.
  apply list_elem_of_In, selectors_keep in Hin as [Hin _]; [|done].
  apply list_elem_of_In in Hin. by apply (proj1 (forallb_forall _ _) Hb).
Qed.

(** A run on a stylesheet of single rules in which every rule of a bare
    class is for a used class leaves every file as it is; when all rules are
    for bare classes, it finds nothing unused. *)
Lemma second_run fs css_file search_paths sheet used :
  single_rules sheet = true ->
  read fs css_file = Some (render sheet) ->
  get_used_classes fs (default (DEFAULT_SEARCH_PATHS fs) search_paths) = Some used ->
  (forall s, s ∈ selectors sheet -> stays used s = true) ->
  writable fs css_file = true
  \/ find_unused_classes fs css_file search_paths false = Some [] ->
  exists fs2 out2,
    remove_unused_from_css fs css_file search_paths = Some (fs2, out2)
    /\ (forall q, read fs2 q = read fs q)
    /\ (bare_rules sheet = true ->
        find_unused_classes fs css_file search_paths false = Some []
        /\ fs2 = fs /\ out2 = [msg_none_found]).
Proof.
  intros Hs Hr Hu Hstay Hw.
  pose proof (get_css_classes_single fs css_file sheet Hs Hr) as Hd.
  pose proof (find_unused_classes_eq fs css_file search_paths false _ _ Hd Hu) as Hf.
  remember (sorted (elements (rule_classes sheet ∖ used))) as unused eqn:Eu.
  assert (Hin : forall x, x ∈ unused <-> x ∈ rule_classes sheet /\ x ∉ used)
    by (intros x; rewrite Eu; apply elem_of_unused).
  clear Eu. destruct (decide (unused = [])) as [->|Hne].
  { exists fs, [msg_none_found].
    by rewrite (remove_unused_from_css_nothing _ _ _ Hf). }
  assert (Hwr : writable fs css_file = true).
  { destruct Hw as [?|Hw]; [done|]. rewrite Hf in Hw. by injection Hw. }
  assert (Hids : Forall (fun cls => is_ident cls = true) unused).
  { apply Forall_forall. intros x [Hx _]%Hin.
    rewrite <- (included_mode_single sheet Hs) in Hx.
    by apply css_classes_of_ident in Hx. }
  assert (Hsame : remove_rules unused (render sheet) = render sheet).
  { rewrite remove_rules_render by done. f_equal. apply keep_rules_all.
    intros s Hs'. specialize (Hstay s Hs'). unfold stays in Hstay.
    destruct (bare s); [|by rewrite andb_false_r]. rewrite andb_true_r.
    rewrite orb_false_r in Hstay. apply bool_decide_eq_true in Hstay.
    apply negb_true_iff, bool_decide_eq_false. by intros [_ ?]%Hin. }
  eexists _, _. split; [by apply remove_unused_from_css_removes|]. split.
  - intros q. simpl. rewrite Hsame. destruct (decide (q = css_file)) as [->|]; done.
  - intros Hb. exfalso. destruct unused as [|x unused']; [done|].
    assert (x ∈ x :: unused') as [Hx Hnx]%Hin by by left.
    apply elem_of_rule_classes in Hx as (s & Hs' & <-). apply Hnx.
    specialize (Hstay s Hs'). unfold stays in Hstay.
    unfold bare_rules in Hb.
    rewrite (proj1 (forallb_forall _ _) Hb s) in Hstay by by apply list_elem_of_In.
    rewrite orb_false_r in Hstay. by apply bool_decide_eq_true in Hstay.
Qed.

(** ** Seams *)

Lemma seamed_stops s out :
  seamed s out -> stops is_ident_char s -> stops is_ident_char out.
Proof. by destruct 1. Qed.

(** A run of identifier characters of the output stands in the input as it
    is, and ends there too. *)
Lemma seamed_ident_run s out :
  seamed s out ->
  forall x b, forallb is_ident_char x = true -> stops is_ident_char b ->
    out = x ++ b -> exists b', s = x ++ b' /\ stops is_ident_char b'.
Proof.
  induction 1 as [|c s out Hs IH|span s out Hspan Hout Hs IH]; intros x b Hx Hb E.
  - destruct x; [|done]. by exists [].
  - destruct x as [|d x]; simpl in E.
    + exists (c :: s). split; [done|]. subst b. done.
    + injection E as -> E. simpl in Hx. apply andb_prop in Hx as [_ Hx].
      destruct (IH x b Hx Hb E) as (b' & -> & ?). by exists b'.
  - destruct x as [|d x].
    + exists (span ++ s). split; [done|].
      destruct span as [|c span]; [done|]. by injection Hspan as ->.
    + subst out. simpl in Hx, Hout. apply andb_prop in Hx as [Hd _]. congruence.
Qed.

(** A dot and an identifier in the output stand in the input as they are,
    and the identifier ends there too. *)
Lemma seamed_lifts s out :
  seamed s out ->
  forall a x b, forallb is_ident_char x = true -> stops is_ident_char b ->
    out = a ++ dot :: x ++ b ->
    exists a' b', s = a' ++ dot :: x ++ b' /\ stops is_ident_char b'.
Proof.
  induction 1 as [|c s out Hs IH|span s out Hspan Hout Hs IH]; intros a x b Hx Hb E.
  - by destruct a.
  - destruct a as [|d a]; simpl in E; injection E as -> E.
    + destruct (seamed_ident_run s out Hs x b Hx Hb E) as (b' & -> & ?).
      by exists [], b'.
    + destruct (IH a x b Hx Hb E) as (a' & b' & -> & ?). by exists (d :: a'), b'.
  - destruct (IH a x b Hx Hb E) as (a' & b' & -> & ?).
    exists (span ++ a'), b'. by rewrite <- app_assoc.
Qed.

(** [sub] with the empty replacement leaves seams of that kind when every
    match starts with a slash and is not followed by an identifier
    character. *)
Lemma sub_empty_seamed r (ok : text -> Prop) :
  (forall c s, ok (c :: s) -> ok s) ->
  (forall s n g, ok s -> match_at r s = Some (S n, g) ->
     exists span rest, s = span ++ rest /\ length span = S n
       /\ head span = Some slash /\ stops is_ident_char rest) ->
  forall s, ok s -> seamed s (sub_empty r s).
Proof.
  intros Hok Hr s. unfold sub_empty.
  assert (Hdrop : forall span rest, ok (span ++ rest) -> ok rest).
  { induction span as [|c span IH]; intros rest; [done|].
    intros H%Hok. by apply IH. }
  induction s as [s IH] using (induction_ltof1 _ (@length char)).
  unfold ltof in IH. intros Hs. destruct s as [|c s]; [constructor|].
  simpl. destruct (match_at r (c :: s)) as [[[|n] g]|] eqn:E.
  - constructor. apply IH; [simpl; lia|by apply (Hok c)].
  - destruct (Hr _ _ _ Hs E) as (span & rest & Es & Hlen & Hspan & Hrest).
    destruct span as [|d span]; [done|]. simpl in Es, Hlen.
    injection Es as <- ->. injection Hlen as <-.
    rewrite sub_from_skip, drop_app_length.
    assert (seamed rest (sub_from r 0 rest)) as Hseam.
    { apply IH; [simpl; rewrite length_app; lia|].
      by apply (Hdrop (c :: span)). }
    apply (seamed_cut (c :: span) rest); [done| |done].
    by apply (seamed_stops rest).
  - constructor. apply IH; [simpl; lia|by apply (Hok c)].
Qed.

Lemma comments_set_off_suffix c s : comments_set_off (c :: s) -> comments_set_off s.
Proof. intros H a b ->. by apply (H (c :: a) b). Qed.

Lemma block_comment_sound s n g :
  match_at Pattern.block_comment s = Some (n, g) ->
  exists body rest, s = (str "/*" ++ body ++ str "*/") ++ rest
                    /\ length (str "/*" ++ body ++ str "*/") = n.
Proof.
  unfold match_at, Pattern.block_comment. cbn [exec].
  intros H. apply lit_Some in H as (s1 & -> & H).
  apply lazy_star_Some in H as (body & s2 & -> & _ & H).
  apply lit_Some in H as (rest & -> & H). injection H as <- <-.
  exists body, rest. split; [by rewrite <- !app_assoc|]. text_length.
Qed.

(** The greedy repetition takes the longest run when the rest of the
    pattern accepts whatever follows. *)
Lemma star_greedy {A} p (k : text -> option A) s a :
  (forall s', is_Some (k s')) ->
  star p k s = Some a ->
  exists run rest, s = run ++ rest /\ forallb p run = true /\ stops p rest
                   /\ k rest = Some a.
Proof.
  intros Hk. induction s as [|c s IH]; simpl.
  - intros ?. by exists [], [].
  - destruct (p c) eqn:E.
    + destruct (star p k s) as [b|] eqn:Es.
      * intros [= ->]. destruct IH as (run & rest & -> & ? & ? & ?); [done|].
        exists (c :: run), rest. simpl. by rewrite E.
      * exfalso. clear IH. induction s as [|d s IHs]; simpl in Es.
        -- destruct (Hk []) as [? H]. congruence.
        -- destruct (p d); [destruct (star p k s); [done|]|];
             destruct (Hk (d :: s)) as [? H]; congruence.
    + intros ?. by exists [], (c :: s).
Qed.

Lemma line_comment_greedy s n g :
  match_at Pattern.line_comment s = Some (n, g) ->
  exists run rest, s = (str "//" ++ run) ++ rest /\ length (str "//" ++ run) = n
                   /\ stops (not_char newline) rest.
Proof.
  unfold match_at, Pattern.line_comment. cbn [exec].
  intros H. apply lit_Some in H as (s1 & -> & H).
  apply star_greedy in H as (run & rest & -> & Hrun & Hrest & H); [|by eexists].
  injection H as <- <-.
  exists run, rest. split; [by rewrite <- app_assoc|]. split; [text_length|done].
Qed.

(** Stripping the comments of a text in which every comment terminator is
    set off leaves seams that split no identifier. *)
Lemma strip_comments_seamed content :
  comments_set_off content ->
  seamed content (sub_empty Pattern.block_comment content)
  /\ seamed (sub_empty Pattern.block_comment content) (strip_comments content).
Proof.
  intros Hoff. split.
  - apply (sub_empty_seamed _ comments_set_off);
      [apply comments_set_off_suffix| |done].
    intros s n g Hs (body & rest & -> & Hlen)%block_comment_sound.
    exists (str "/*" ++ body ++ str "*/"), rest. repeat split; [done|].
    apply (Hs (str "/*" ++ body)). by rewrite <- !app_assoc.
  - apply (sub_empty_seamed _ (fun _ => True)); [done| |done].
    intros s n g _ (run & rest & -> & Hlen & Hrest)%line_comment_greedy.
    exists (str "//" ++ run), rest. repeat split; [done|].
    destruct rest as [|c rest]; [done|]. simpl in Hrest |- *.
    unfold not_char in Hrest. apply negb_false_iff, N.eqb_eq in Hrest. by subst c.
Qed.

(** A class that the comment-excluded mode finds stands in the text itself
    when every comment terminator is set off. *)
Lemma excluded_in_included content x :
  comments_set_off content ->
  x ∈ findall Pattern.rule_class (strip_comments content) ->
  x ∈ findall Pattern.any_class content.
Proof.
  intros [H1 H2]%strip_comments_seamed
    (pre & s' & n & g & E & Hm & ->)%findall_from_sound.
  apply rule_class_shape in Hm as (x & ws & c & rest & -> & -> & Hx & Hws & Hc & _).
  assert (Hstop : stops is_ident_char (ws ++ c :: rest)).
  { destruct ws as [|w ws]; simpl.
    - by apply rule_end_not_ident.
    - apply space_not_ident. unfold all_space in Hws. simpl in Hws.
      by apply andb_prop in Hws as [? _]. }
  pose proof (ident_chars _ Hx) as Hxs.
  destruct (seamed_lifts _ _ H2 pre x _ Hxs Hstop) as (a1 & b1 & E1 & Hb1).
  { by rewrite E. }
  destruct (seamed_lifts _ _ H1 a1 x _ Hxs Hb1 E1) as (a2 & b2 & -> & Hb2).
  by apply (any_class_finds a2 x b2).
Qed.

(** ** Usages *)












(** The class of a selector stands in the text of the stylesheet, and
    ends there. *)
Lemma selector_in_render sheet s :
  simple sheet = true -> s ∈ selectors sheet ->
  exists pre rest,
    render sheet = pre ++ str "." ++ sel_class s ++ rest
    /\ is_ident (sel_class s) = true /\ stops is_ident_char rest.
Proof.
  assert (Hsel : forall s X, plain_selector s = true -> stops is_ident_char X ->
            X <> [] ->
            exists pre rest,
              render_selector s ++ X = pre ++ str "." ++ sel_class s ++ rest
              /\ is_ident (sel_class s) = true /\ stops is_ident_char rest).
  { intros s0 X [[_ Hx]%andb_prop Htail]%andb_prop HX HXne.
    exists (sel_lead s0), (sel_tail s0 ++ X). unfold render_selector.
    split; [by rewrite <- !app_assoc|]. split; [done|].
    destruct (sel_tail s0) as [|c tail] eqn:E; [done|]. simpl in *.
    apply space_not_ident. by apply andb_prop in Htail as [? _]. }
  assert (Hmore : forall more X, stops is_ident_char (render_more more ++ X)
                                 /\ render_more more ++ X <> []).
  { by intros [|s0 more] X. }
  induction sheet as [|i sheet IH]; [by intros _ ?%elem_of_nil|].
  unfold simple. cbn [render selectors forallb].
  intros [Hi Hs]%andb_prop [Hin|Hin]%elem_of_app.
  - destruct i as [first more body|body|ws]; cbn [item_selectors] in Hin;
      [|by apply elem_of_nil in Hin..].
    cbn [simple_item] in Hi. apply andb_prop in Hi as [[Hfirst Hmores]%andb_prop _].
    cbn [render_item]. rewrite <- !app_assoc.
    apply elem_of_cons in Hin as [->|Hin].
    + destruct (Hmore more (body ++ str "}" ++ render sheet)) as [H1 H2].
      destruct (Hsel first _ Hfirst H1 H2) as (pre & rest & E & ? & ?).
      by exists pre, rest.
    + assert (exists pre rest,
                render_more more ++ body ++ str "}" ++ render sheet
                = pre ++ str "." ++ sel_class s ++ rest
                /\ is_ident (sel_class s) = true /\ stops is_ident_char rest)
        as (pre & rest & E & ? & ?).
      { clear IH Hfirst. induction more as [|s0 more IHm];
          [by apply elem_of_nil in Hin|].
        cbn [forallb] in Hmores. apply andb_prop in Hmores as [Hs0 Hmores].
        cbn [render_more]. rewrite <- !app_assoc.
        apply elem_of_cons in Hin as [->|Hin].
        - destruct (Hmore more (body ++ str "}" ++ render sheet)) as [H1 H2].
          destruct (Hsel s0 _ Hs0 H1 H2) as (pre & rest & E & ? & ?).
          exists (str "," ++ pre), rest. split; [|done].
          rewrite <- !app_assoc. f_equal. exact E.
        - destruct (IHm Hmores Hin) as (pre & rest & E & ? & ?).
          exists (str "," ++ render_selector s0 ++ pre), rest. split; [|done].
          rewrite <- !app_assoc. do 2 f_equal. exact E. }
      exists (render_selector first ++ pre), rest. split; [|done].
      rewrite <- !app_assoc. f_equal. exact E.
  - destruct (IH Hs Hin) as (pre & rest & -> & ? & ?).
    exists (render_item i ++ pre), rest. by rewrite <- !app_assoc.
Qed.

(** The comment-included mode finds the class of every rule head. *)
Lemma included_mode_rule_heads sheet :
  simple sheet = true -> rule_classes sheet ⊆ css_classes_of (render sheet) false.
Proof.
  intros Hs x (s & Hin & <-)%elem_of_rule_classes.
  destruct (selector_in_render sheet s Hs Hin) as (pre & rest & -> & ? & ?).
  unfold css_classes_of. apply elem_of_list_to_set. by apply any_class_finds.
Qed.

(** *** The pages of the catalog *)


(** * The claims *)

(** C2, counterexample.  Stripping a comment joins the text on its two
    sides: in [.fo/**/o{}] the comment-excluded mode finds the class [foo],
    which the comment-included mode, reading [.fo] and stopping at the
    slash, does not. *)
Lemma css_classes_comment_modes_counterexample :
  get_css_classes fused_fs (str "input.css") true = Some {[ str "foo" ]}
  /\ get_css_classes fused_fs (str "input.css") false = Some {[ str "fo" ]}
  /\ ~ ({[ str "foo" ]} : gset text) ⊆ {[ str "fo" ]}.
Proof.
  split; [by_compute|]. split; [by_compute|].
  intros H. specialize (H (str "foo")). rewrite !elem_of_singleton in H.
  by specialize (H eq_refl).
Qed.

(** C2, amended.  For every stylesheet text in which no comment terminator
    is directly followed by an identifier character, the classes of the
    comment-excluded mode are among those of the comment-included mode on
    the same text.  On a stylesheet of rules with plain class selectors, of
    comments and of whitespace, the comment-excluded mode returns exactly the
    classes of the rule heads, whatever the comments hold, and the
    comment-included mode returns all of these. *)
Theorem css_classes_comment_modes :
  (forall content, comments_set_off content ->
     css_classes_of content true ⊆ css_classes_of content false)
  /\ (forall sheet, simple sheet = true ->
        css_classes_of (render sheet) true = rule_classes sheet
        /\ rule_classes sheet ⊆ css_classes_of (render sheet) false).
Proof.
  split.
  - intros content Hoff x. unfold css_classes_of. rewrite !elem_of_list_to_set.
    by apply excluded_in_included.
  - intros sheet Hs. split.
    + by apply excluded_mode_of_sheet.
    + by apply included_mode_rule_heads.
Qed.

Lemma css_classes_comment_modes_witness :
  css_classes_of (str ".a{} /* .old{} */ .b, .c:hover {}") true
  ⊆ css_classes_of (str ".a{} /* .old{} */ .b, .c:hover {}") false
  /\ css_classes_of (render catalog_sheet) true = rule_classes catalog_sheet
  /\ rule_classes catalog_sheet ⊆ css_classes_of (render catalog_sheet) false.
Proof.
  destruct css_classes_comment_modes as [H1 H2]. split.
  - apply H1. intros a b E. vm_compute in E.
    repeat (destruct a as [|? a]; simpl in E;
            [ first [ discriminate E | injection E as <-; done ]
            | first [ discriminate E | injection E as _ E ] ]).
  - apply H2. by_compute.
Defined.

(** C4, counterexample.  A class attribute may hold any token: the markup
    [<div class="md:flex">] puts [md:flex] into the UsageSet. *)
Lemma class_name_syntax_counterexample :
  get_used_classes utility_fs [str "index.html"] = Some {[ str "md:flex" ]}
  /\ is_ident (str "md:flex") = false.
Proof. split; by_compute. Qed.

(** C4, amended.  Every name in a SelectorSet matches the identifier syntax
    (a letter, then letters, digits, hyphens and underscores); every name in
    a UsageSet is a non-empty string without a double quote. *)
Theorem class_name_syntax fs css_file ignore_comments paths defined used x :
  (get_css_classes fs css_file ignore_comments = Some defined ->
   x ∈ defined -> is_ident x = true)
  /\ (get_used_classes fs paths = Some used ->
      x ∈ used -> x <> [] /\ dquote ∉ x).
Proof.
  split.
  - unfold get_css_classes. destruct (read fs css_file) as [content|]; [|done].
    intros [= <-]. apply css_classes_of_ident.
  - intros H (file & content & _ & _ & _ & Hx)%(elem_of_get_used_classes _ _ _ _ H).
    by apply file_classes_shape in Hx.
Qed.

Lemma class_name_syntax_witness :
  is_ident (str "card") = true
  /\ (str "md:flex" <> [] /\ dquote ∉ str "md:flex").
Proof.
  pose proof (class_name_syntax utility_fs (str "input.css") true
                [str "index.html"] {[ str "card" ]} {[ str "md:flex" ]}) as H.
  split.
  - apply (H (str "card")); [by_compute|by apply elem_of_singleton].
  - apply (H (str "md:flex")); [by_compute|by apply elem_of_singleton].
Defined.




(** C9.  The sequence that [find_unused_classes] returns is strictly
    ascending in the order of strings, so it has no duplicates, and it is
    the same in whatever order the set difference is iterated. *)
Theorem find_unused_sorted fs css_file search_paths ignore_comments unused :
  find_unused_classes fs css_file search_paths ignore_comments = Some unused ->
  StronglySorted text_lt unused /\ NoDup unused
  /\ forall order, order ≡ₚ unused -> sorted order = unused.
Proof.
  intros (defined & used & _ & _ & ->)%find_unused_classes_inv.
  split; [apply sorted_strict, NoDup_elements|]. split.
  - rewrite sorted_Permutation. apply NoDup_elements.
  - intros order Ho. rewrite sorted_Permutation in Ho.
    by apply sorted_order_irrelevant.
Qed.

Lemma find_unused_sorted_witness :
  StronglySorted text_lt [str "btn-primary"; str "unused-box"]
  /\ NoDup [str "btn-primary"; str "unused-box"].
Proof.
  destruct (find_unused_sorted shop_fs (str "input.css") (Some []) true
              [str "btn-primary"; str "unused-box"]) as (H1 & H2 & _);
    [by_compute|done].
Defined.

(** C5.  A file that the search paths reach only by walking directories,
    and there only under names that end neither in [.html] nor in [.js],
    contributes nothing: whatever its text, the UsageSet is the same. *)
Theorem walk_skips_other_extensions fs paths p content :
  (forall item, item ∈ expand_search_paths fs paths ->
     isfile fs item = true -> item <> p) ->
  (forall item root dirs files file,
     item ∈ expand_search_paths fs paths ->
     isfile fs item = false -> isdir fs item = true ->
     (root, dirs, files) ∈ walk fs item -> file ∈ files ->
     join root file = p -> recognized file = false) ->
  get_used_classes (with_content fs p content) paths = get_used_classes fs paths.
Proof.
  intros Hdirect Hwalk. apply get_used_classes_with_content.
  intros (item & Hitem & [[Hf ->]|(Hf & Hd & Hw)])%elem_of_files_to_check.
  - by apply (Hdirect item).
  - apply elem_of_walk_files in Hw as (root & dirs & files & file & ? & ? & Hr & ->).
    by rewrite (Hwalk item root dirs files file) in Hr.
Qed.

Lemma walk_skips_other_extensions_witness :
  get_used_classes
    (with_content partials_fs (str "src/partials/theme.css")
       (str "<p class=" ++ [dquote] ++ str "other names" ++ [dquote] ++ str ">"))
    [str "src/partials"]
  = get_used_classes partials_fs [str "src/partials"].
Proof.
  apply walk_skips_other_extensions.
  - intros item Hitem.
    change (expand_search_paths partials_fs [str "src/partials"])
      with [str "src/partials"] in Hitem.
    apply list_elem_of_singleton in Hitem as ->. by_compute.
  - intros item root dirs files file Hitem _ _ Hw Hfile Hjoin.
    change (expand_search_paths partials_fs [str "src/partials"])
      with [str "src/partials"] in Hitem.
    apply list_elem_of_singleton in Hitem as ->.
    change (walk partials_fs (str "src/partials"))
      with [(str "src/partials", @nil path, [str "nav.html"; str "theme.css"])] in Hw.
    apply list_elem_of_singleton in Hw as [= -> -> ->].
    apply elem_of_cons in Hfile as [->|Hfile].
    + by vm_compute in Hjoin.
    + apply list_elem_of_singleton in Hfile as ->. by_compute.
Defined.

(** C7.  When the unused set computed by [remove_unused_from_css] is empty,
    the call returns normally, leaves the file system as it was and prints
    one message, which differs from every message of the removing path. *)
Theorem remove_unused_nothing_to_do fs css_file search_paths :
  find_unused_classes fs css_file search_paths false = Some [] ->
  remove_unused_from_css fs css_file search_paths = Some (fs, [msg_none_found])
  /\ forall n cls file,
       msg_none_found <> msg_found n /\ msg_none_found <> class_line cls
       /\ msg_none_found <> msg_removed n file.
Proof.
  intros H. split.
  - unfold remove_unused_from_css. by rewrite H.
  - intros n cls file. by repeat split.
Qed.

Lemma remove_unused_nothing_to_do_witness :
  remove_unused_from_css clean_fs (str "input.css") (Some [str "index.html"])
  = Some (clean_fs, [msg_none_found]).
Proof.
  apply (proj1 (remove_unused_nothing_to_do clean_fs (str "input.css")
                  (Some [str "index.html"]) ltac:(by_compute))).
Defined.

(** C10.  A search path without wildcard characters that names an existing
    regular file is scanned whatever its extension: all the classes of its
    text are in the UsageSet. *)
Theorem direct_file_is_scanned fs paths p content used :
  p ∈ paths -> has_wildcard p = false ->
  isfile fs p = true -> path_exists fs p = true -> read fs p = Some content ->
  get_used_classes fs paths = Some used ->
  file_classes content ⊆ used.
Proof.
  intros Hp Hw Hf He Hr Hu x Hx.
  apply (elem_of_get_used_classes _ _ _ _ Hu). exists p, content.
  repeat split; [|done..].
  apply elem_of_files_to_check. exists p. split; [|by left].
  apply elem_of_expand_search_paths. exists p. by rewrite Hw.
Qed.

Lemma direct_file_is_scanned_witness :
  file_classes partials_css ⊆ {[ str "ghost" ]}
  /\ file_classes partials_css = {[ str "ghost" ]}.
Proof.
  split.
  - apply (direct_file_is_scanned partials_fs [str "src/partials/theme.css"]
             (str "src/partials/theme.css"));
      [by apply list_elem_of_singleton|by_compute..].
  - by_compute.
Defined.

(** C3, counterexample.  In the minified stylesheet [.a.b{x}div{y}] with
    nothing used, the first pass erases [.b{x}] and leaves [.adiv{y}]; the
    second pass finds the new class [adiv] unused and erases the rest. *)
Lemma remove_unused_twice_counterexample :
  exists fs1 out1 fs2 out2,
    remove_unused_from_css minified_fs (str "input.css") (Some []) = Some (fs1, out1)
    /\ read fs1 (str "input.css") = Some (str ".adiv{y}")
    /\ find_unused_classes fs1 (str "input.css") (Some []) false = Some [str "adiv"]
    /\ remove_unused_from_css fs1 (str "input.css") (Some []) = Some (fs2, out2)
    /\ read fs2 (str "input.css") = Some [].
Proof.
  do 4 eexists. split.
  { apply (remove_unused_from_css_removes _ _ _ [str "a"; str "b"]
             (str ".a.b{x}div{y}")); by_compute. }
  split; [by_compute|]. split; [by_compute|]. split.
  { apply (remove_unused_from_css_removes _ _ _ [str "adiv"] (str ".adiv{y}"));
      by_compute. }
  by_compute.
Qed.

(** C3, amended.  Let the stylesheet be a sequence of rules with one class
    selector each, and let it be none of the scanned files.  The first run
    of [remove_unused_from_css] leaves the rules that stay: those of the used
    classes and those whose selector is more than the bare class.  A second
    run completes and leaves every file as the first run left it.  When all
    selectors are bare classes, the second run finds nothing unused, prints
    the message of that case and writes nothing. *)
Theorem remove_unused_twice fs css_file search_paths sheet fs1 out1 :
  single_rules sheet = true ->
  read fs css_file = Some (render sheet) ->
  ~ scanned fs (default (DEFAULT_SEARCH_PATHS fs) search_paths) css_file ->
  remove_unused_from_css fs css_file search_paths = Some (fs1, out1) ->
  exists used fs2 out2,
    get_used_classes fs (default (DEFAULT_SEARCH_PATHS fs) search_paths) = Some used
    /\ read fs1 css_file = Some (render (keep_rules (stays used) sheet))
    /\ remove_unused_from_css fs1 css_file search_paths = Some (fs2, out2)
    /\ (forall q, read fs2 q = read fs1 q)
    /\ (bare_rules sheet = true ->
        find_unused_classes fs1 css_file search_paths false = Some []
        /\ fs2 = fs1 /\ out2 = [msg_none_found]).
Proof.
  intros Hs Hr Hns Hrun.
  pose proof (get_css_classes_single fs css_file sheet Hs Hr) as Hd.
  apply remove_unused_from_css_inv in Hrun
    as [[Hu ->]|(unused & content & Hne & Hu & Hr' & Hw & ->)];
    destruct (find_unused_classes_inv _ _ _ _ _ Hu) as (defined & used & Hd' & Hused & E);
    rewrite Hd in Hd'; injection Hd' as <-; exists used.
  - assert (Hall : forall s, s ∈ selectors sheet -> stays used s = true).
    { intros s Hin. unfold stays. apply orb_true_intro. left.
      apply bool_decide_eq_true. destruct (decide (sel_class s ∈ used)) as [|Hnx]; [done|].
      assert (sel_class s ∈ sorted (elements (rule_classes sheet ∖ used))) as Hx.
      { apply elem_of_unused. split; [|done]. apply elem_of_rule_classes. by exists s. }
      rewrite <- E in Hx. by apply elem_of_nil in Hx. }
    rewrite keep_rules_all by done.
    destruct (second_run fs css_file search_paths sheet used Hs Hr Hused Hall)
      as (fs2 & out2 & ? & ? & ?); [by right|].
    by exists fs2, out2.
  - rewrite Hr in Hr'. injection Hr' as <-.
    assert (Hids : Forall (fun cls => is_ident cls = true) unused).
    { apply Forall_forall. intros x Hx. rewrite E in Hx.
      apply elem_of_unused in Hx as [Hx _].
      rewrite <- (included_mode_single sheet Hs) in Hx.
      by apply css_classes_of_ident in Hx. }
    rewrite remove_rules_render by done.
    rewrite (keep_rules_ext _ (stays used)).
    2:{ intros s Hin. unfold stays, mem. rewrite negb_andb. f_equal. rewrite E.
        destruct (decide (sel_class s ∈ used)) as [Hx|Hnx].
        - rewrite (bool_decide_eq_true_2 _ Hx), bool_decide_eq_false_2; [done|].
          by intros [_ ?]%elem_of_unused.
        - rewrite (bool_decide_eq_false_2 _ Hnx), bool_decide_eq_true_2; [done|].
          apply elem_of_unused. split; [|done]. apply elem_of_rule_classes.
          by exists s. }
    set (sheet1 := keep_rules (stays used) sheet).
    set (fs1 := with_content fs css_file (render sheet1)).
    assert (Hr1 : read fs1 css_file = Some (render sheet1)).
    { simpl. by rewrite decide_True. }
    destruct (second_run fs1 css_file search_paths sheet1 used)
      as (fs2 & out2 & H1 & H2 & H3); [by apply single_rules_keep|done| | |by left|].
    { change (DEFAULT_SEARCH_PATHS fs1) with (DEFAULT_SEARCH_PATHS fs).
      unfold fs1. by rewrite get_used_classes_unscanned. }
    { by intros s [_ ?]%selectors_keep. }
    exists fs2, out2. repeat split; try done; apply H3; by apply bare_rules_keep.
Qed.

Lemma remove_unused_twice_witness :
  exists used fs2 out2,
    get_used_classes tabs_fs [str "index.html"] = Some used
    /\ read (with_content tabs_fs (str "input.css")
               (str ".tab:hover{color:red}" ++ [newline]))
         (str "input.css")
       = Some (render (keep_rules (stays used) tabs_sheet))
    /\ remove_unused_from_css
         (with_content tabs_fs (str "input.css")
            (str ".tab:hover{color:red}" ++ [newline]))
         (str "input.css") (Some [str "index.html"]) = Some (fs2, out2)
    /\ (forall q,
          read fs2 q
          = read (with_content tabs_fs (str "input.css")
                    (str ".tab:hover{color:red}" ++ [newline])) q)
    /\ (bare_rules tabs_sheet = true ->
        find_unused_classes
          (with_content tabs_fs (str "input.css")
             (str ".tab:hover{color:red}" ++ [newline]))
          (str "input.css") (Some [str "index.html"]) false = Some []
        /\ fs2 = with_content tabs_fs (str "input.css")
                   (str ".tab:hover{color:red}" ++ [newline])
        /\ out2 = [msg_none_found]).
Proof.
  apply (remove_unused_twice tabs_fs (str "input.css") (Some [str "index.html"])
           tabs_sheet _
           (msg_found 2 :: map class_line [str "tab"; str "unused-box"]
            ++ [msg_removed 2 (str "input.css")])).
  - by_compute.
  - by_compute.
  - intros (_ & path & item & Hpath & Hitem & H).
    apply list_elem_of_singleton in Hpath as ->.
    change (has_wildcard (str "index.html")) with false in Hitem.
    cbn iota in Hitem. subst item.
    destruct H as [[_ H]|(H & _)]; by vm_compute in H.
  - apply (remove_unused_from_css_removes _ _ _ [str "tab"; str "unused-box"]
             (render tabs_sheet)); by_compute.
Defined.

(** C6, counterexample.  In [<a title="see class=" class="a b c">] the scan
    takes the text from the [class=] that ends the title up to the next
    double quote, which opens the class attribute; the attribute itself is
    passed over and [a], one of its tokens, is no element of the UsageSet. *)
Lemma class_attribute_tokens_counterexample :
  read titled_fs (str "page.html")
  = Some (titled_pre ++ (str "class=" ++ [dquote]) ++ str "a b c" ++ dquote :: str ">")
  /\ is_token (str "a b c") (str "a")
  /\ get_used_classes titled_fs [str "page.html"] = Some {[ str "class=" ]}
  /\ str "a" ∉ ({[ str "class=" ]} : gset text).
Proof.
  split; [by_compute|]. split.
  { split; [done|]. split; [by_compute|]. by exists [], (str " b c"). }
  split; [by_compute|].
  by intros [=]%elem_of_singleton.
Qed.

(** C6, amended.  Let a scanned file hold a class attribute: [class=], a
    double quote, a value without double quotes, a double quote.  When every
    earlier [class=] with its opening double quote has a closing double quote
    before the attribute starts, each whitespace-separated token of the value
    is an element of the UsageSet. *)
Theorem class_attribute_tokens fs paths file pre v post used t :
  file ∈ files_to_check fs (expand_search_paths fs paths) ->
  path_exists fs file = true ->
  read fs file = Some (pre ++ (str "class=" ++ [dquote]) ++ v ++ dquote :: post) ->
  closed_before pre ->
  dquote ∉ v ->
  get_used_classes fs paths = Some used ->
  is_token v t ->
  t ∈ used.
Proof.
  intros Hfile Hex Hread Hpre Hv Hused Ht.
  apply (elem_of_get_used_classes _ _ _ _ Hused).
  eexists file, _. repeat split; [done..|].
  unfold file_classes. apply elem_of_scan_content. right; left.
  exists v. split; [|by apply split_complete].
  by apply class_attr_finds; [apply not_elem_of_forallb|].
Qed.

Lemma card_pre_closed : closed_before card_pre.
Proof.
  intros a b E. vm_compute in E.
  repeat (destruct a as [|? a]; simpl in E;
          [ first [ discriminate E
                  | injection E as <-; apply list_elem_of_further, list_elem_of_here ]
          | first [ discriminate E | injection E as _ E ] ]).
Qed.

Lemma class_attribute_tokens_witness :
  str "b" ∈ ({[ str "x"; str "a"; str "b"; str "c" ]} : gset text).
Proof.
  apply (class_attribute_tokens card_fs [str "page.html"] (str "page.html")
           card_pre (str "a b c") (str ">")).
  - by apply list_elem_of_singleton.
  - by_compute.
  - by_compute.
  - apply card_pre_closed.
  - intros Hq. vm_compute in Hq.
    repeat (apply elem_of_cons in Hq as [[=]|Hq]). by apply elem_of_nil in Hq.
  - by_compute.
  - split; [done|]. split; [by_compute|]. by exists (str "a "), (str " c").
Defined.

(** C8, counterexample.  The class [btn-fade] starts with [btn-] and
    contains [fade]: the report prints it under the buttons and again under
    the animations. *)
Lemma print_report_buckets_counterexample :
  print_unused_analysis [str "btn-fade"]
  = [ msg_analysis_found 1; repeat (ch "=") 50;
      category_header (str "Кнопки"); class_line (str "btn-fade");
      category_header (str "Анимации"); class_line (str "btn-fade");
      msg_total 1 ]
  /\ count_of (class_line (str "btn-fade")) (print_unused_analysis [str "btn-fade"]) = 2.
Proof. split; by_compute. Qed.

(** C8, amended.  For an unused set (a sequence without duplicates) the
    report is its two opening lines, the sections of the buckets in their
    fixed order, and the total, the size of the set; for the empty set it is
    the single all-used message.  The section of a bucket is empty when no
    class of the set passes the test of the bucket, and else the header of
    the bucket and the classes that pass its test, each once, in strictly
    ascending order: the prefix of the bucket for the nine prefix buckets,
    one of the three substrings for the animation bucket, none of these tests
    for the catch-all.  So each class of the set stands under one bucket, or
    under two: its prefix bucket and the animation bucket. *)
Theorem print_report_buckets unused :
  NoDup unused ->
  (unused <> [] ->
     print_unused_analysis unused
     = [msg_analysis_found (length unused); repeat (ch "=") 50]
       ++ concat (map (bucket_section unused) report_buckets)
       ++ [msg_total (length unused)])
  /\ (unused = [] -> print_unused_analysis unused = [msg_all_used])
  /\ (forall label test cls, (label, test) ∈ report_buckets ->
        count_of (class_line cls) (bucket_section unused (label, test))
        = if test cls && bool_decide (cls ∈ unused) then 1 else 0)
  /\ (forall label test, (label, test) ∈ report_buckets ->
        StronglySorted text_lt (sorted (List.filter test unused)))
  /\ (forall cls,
        (exists label, buckets_of cls = [label])
        \/ (exists label, label ∈ map fst prefix_buckets
              /\ buckets_of cls = [label; ANIMATIONS])).
Proof.
  intros Hnd. split; [|split; [|split; [|split]]].
  - intros Hne.
    assert (print_unused_analysis unused
            = [msg_analysis_found (length unused); repeat (ch "=") 50]
              ++ concat (map print_category (categories unused))
              ++ [msg_total (length unused)]) as -> by by destruct unused.
    rewrite categories_NoDup, report_sections by done.
    unfold report_buckets. rewrite map_app, concat_app. cbn [map concat].
    by rewrite app_nil_r.
  - by intros ->.
  - intros label test cls _. unfold bucket_section. cbn [fst snd].
    rewrite count_of_report_section, count_of_filter by done.
    destruct (test cls), (bool_decide (cls ∈ unused)); reflexivity.
  - intros label test _. by apply sorted_strict, NoDup_list_filter.
  - apply buckets_of_cases.
Qed.

Lemma print_report_buckets_witness :
  print_unused_analysis [str "btn-fade"; str "hero"]
  = [msg_analysis_found 2; repeat (ch "=") 50]
    ++ concat (map (bucket_section [str "btn-fade"; str "hero"]) report_buckets)
    ++ [msg_total 2]
  /\ count_of (class_line (str "btn-fade"))
       (bucket_section [str "btn-fade"; str "hero"]
          (ANIMATIONS, animation_bucket)) = 1
  /\ count_of (class_line (str "hero"))
       (bucket_section [str "btn-fade"; str "hero"]
          (ANIMATIONS, animation_bucket)) = 0.
Proof.
  assert (Hnd : NoDup [str "btn-fade"; str "hero"]).
  { apply NoDup_cons. split; [|apply NoDup_singleton].
    by intros [=]%list_elem_of_singleton. }
  destruct (print_report_buckets [str "btn-fade"; str "hero"] Hnd)
    as (H1 & _ & H3 & _).
  assert (Hin : (ANIMATIONS, animation_bucket) ∈ report_buckets).
  { unfold report_buckets, tested_buckets. apply elem_of_app. left.
    apply elem_of_app. right. by left. }
  split; [by apply H1|]. split.
  - rewrite (H3 _ _ _ Hin). by_compute.
  - rewrite (H3 _ _ _ Hin). by_compute.
Defined.

(** * Further theorems *)

(** X1.  Erasing the rules of a class cuts out of the stylesheet only
    spans that are one-level rule blocks of that class: whitespace, the dot
    and the name, whitespace, and braces around a body without a closing
    brace.  Everything else stays, in order. *)
Theorem eraser_cuts_rule_blocks cls content :
  cuts (is_rule_block cls) content (sub_empty (Pattern.rule_of cls) content).
Proof.
  apply sub_empty_cuts.
  intros s n g (span & rest & ? & ? & ?)%rule_of_sound. by exists span, rest.
Qed.

(** X2.  A run of [remove_unused_from_css] that completes only deletes
    characters of the stylesheet: the new text is a subsequence of the old
    one, and no other file changes. *)
Theorem remove_unused_only_deletes fs css_file search_paths fs1 out content :
  remove_unused_from_css fs css_file search_paths = Some (fs1, out) ->
  read fs css_file = Some content ->
  (exists content1, read fs1 css_file = Some content1 /\ sublist content1 content)
  /\ forall q, q <> css_file -> read fs1 q = read fs q.
Proof.
  intros [[_ ->]|(unused & content' & _ & _ & Hr & _ & ->)]%remove_unused_from_css_inv Hc.
  - split; [by exists content|done].
  - rewrite Hr in Hc. injection Hc as ->. split.
    + exists (remove_rules unused content). simpl. rewrite decide_True by done.
      split; [done|apply remove_rules_sublist].
    + intros q Hq. simpl. by rewrite decide_False.
Qed.

Lemma remove_unused_only_deletes_witness :
  (exists content1,
     read (with_content shop_fs (str "input.css") (str ".btn-primary{color:red}"))
       (str "input.css") = Some content1
     /\ sublist content1 shop_css)
  /\ forall q, q <> str "input.css" ->
       read (with_content shop_fs (str "input.css") (str ".btn-primary{color:red}")) q
       = read shop_fs q.
Proof.
  apply (remove_unused_only_deletes shop_fs (str "input.css")
           (Some [str "index.html"]) _
           (msg_found 1 :: map class_line [str "unused-box"]
            ++ [msg_removed 1 (str "input.css")])).
  - apply (remove_unused_from_css_removes _ _ _ [str "unused-box"] shop_css);
      by_compute.
  - by_compute.
Defined.

(** X3.  The first rule block of a class is erased together with the
    whitespace before it, and the text before it is kept: when the text
    before the block does not contain the dotted name and does not end in
    whitespace, erasing the class from the whole text leaves that text
    followed by what erasing leaves of the text after the block. *)
Theorem eraser_erases_first_rule cls pre ws ws' body post :
  is_ident cls = true ->
  contains (str "." ++ cls) pre = false ->
  ends_blank pre = false ->
  all_space ws -> all_space ws' -> ch "}" ∉ body ->
  sub_empty (Pattern.rule_of cls)
    (pre ++ (ws ++ str "." ++ cls ++ ws' ++ str "{" ++ body ++ str "}") ++ post)
  = pre ++ sub_empty (Pattern.rule_of cls) post.
Proof.
  intros Hcls Hocc Hend Hws Hws' Hbody.
  rewrite sub_empty_keeps.
  - f_equal. eapply sub_empty_cut; [|by apply rule_of_complete].
    destruct ws; done.
  - intros a b E Hb. rewrite <- !app_assoc.
    by apply (rule_of_no_match_before cls pre ws _ a b).
Qed.

Lemma eraser_erases_first_rule_witness :
  sub_empty (Pattern.rule_of (str "unused-box"))
    (str ".btn-primary{color:red}"
     ++ ([] ++ str "." ++ str "unused-box" ++ [] ++ str "{" ++ str "display:none"
         ++ str "}") ++ [])
  = str ".btn-primary{color:red}"
    ++ sub_empty (Pattern.rule_of (str "unused-box")) [].
Proof.
  apply eraser_erases_first_rule; try by_compute.
  intros H. vm_compute in H.
  repeat (apply elem_of_cons in H as [H|H]; [discriminate H|]).
  by apply elem_of_nil in H.
Defined.

(** X4.  The comment-included mode misses no dotted identifier: wherever
    the stylesheet has a dot, then an identifier that no further identifier
    character follows, the identifier is in the SelectorSet. *)
Theorem included_mode_finds_every_class fs css_file pre x rest :
  read fs css_file = Some (pre ++ str "." ++ x ++ rest) ->
  is_ident x = true ->
  stops is_ident_char rest ->
  exists classes, get_css_classes fs css_file false = Some classes /\ x ∈ classes.
Proof.
  intros Hr Hx Hrest. unfold get_css_classes. rewrite Hr. simpl.
  eexists. split; [done|]. apply elem_of_list_to_set. by apply any_class_finds.
Qed.

Lemma included_mode_finds_every_class_witness :
  exists classes,
    get_css_classes shop_fs (str "input.css") false = Some classes
    /\ str "unused-box" ∈ classes.
Proof.
  apply (included_mode_finds_every_class shop_fs (str "input.css")
           (str ".btn-primary{color:red}") (str "unused-box")
           (str "{display:none}")); by_compute.
Defined.

(** X5.  The comment-excluded mode misses no rule head: wherever the
    stylesheet, with its comments stripped, has a dot, an identifier,
    optional whitespace and then a comma or an opening brace, the
    identifier is in the SelectorSet. *)
Theorem excluded_mode_finds_every_rule_head fs css_file content pre x ws c rest :
  read fs css_file = Some content ->
  strip_comments content = pre ++ str "." ++ x ++ ws ++ c :: rest ->
  is_ident x = true -> all_space ws ->
  c = ch "," \/ c = ch "{" ->
  exists classes, get_css_classes fs css_file true = Some classes /\ x ∈ classes.
Proof.
  intros Hr Hs Hx Hws Hc. unfold get_css_classes. rewrite Hr. simpl.
  eexists. split; [done|]. apply elem_of_list_to_set. rewrite Hs.
  apply rule_class_finds; [done..|]. by destruct Hc as [-> | ->].
Qed.

Lemma excluded_mode_finds_every_rule_head_witness :
  exists classes,
    get_css_classes shop_fs (str "input.css") true = Some classes
    /\ str "unused-box" ∈ classes.
Proof.
  apply (excluded_mode_finds_every_rule_head shop_fs (str "input.css") shop_css
           (str ".btn-primary{color:red}") (str "unused-box") [] (ch "{")
           (str "display:none}")); try by_compute.
  by right.
Defined.

(** X6.  A dynamic call counts as a usage: when a scanned file holds
    [classList.], one of the methods add, remove, toggle and contains, an
    opening parenthesis, optional whitespace and a quoted non-empty name
    without quotes in it, and [classList.] does not occur earlier in the
    file, the name is in the UsageSet.  The two quotes may be of either
    kind. *)
Theorem classList_call_is_usage fs paths file pre m ws q name q' post used :
  file ∈ files_to_check fs (expand_search_paths fs paths) ->
  path_exists fs file = true ->
  read fs file
  = Some (pre ++ str "classList." ++ m ++ str "(" ++ ws ++ q :: name ++ q' :: post) ->
  contains (str "classList.") pre = false ->
  m ∈ classList_methods -> all_space ws ->
  Pattern.is_quote q = true -> Pattern.is_quote q' = true ->
  name <> [] -> no_quote name ->
  get_used_classes fs paths = Some used ->
  name ∈ used.
Proof.
  intros Hfile Hex Hread Hpre Hm Hws Hq Hq' Hne Hname Hused.
  apply (elem_of_get_used_classes _ _ _ _ Hused).
  eexists file, _. repeat split; [done..|].
  unfold file_classes. apply elem_of_scan_content. right; right; left.
  by apply classList_call_finds.
Qed.

(** X7.  The tokens of a [className] attribute count as usages, under the
    condition of the class attribute: every earlier [className=] with its
    opening double quote is closed before the attribute starts. *)
Theorem className_attribute_tokens fs paths file pre v post used t :
  file ∈ files_to_check fs (expand_search_paths fs paths) ->
  path_exists fs file = true ->
  read fs file
  = Some (pre ++ (str "className=" ++ [dquote]) ++ v ++ dquote :: post) ->
  closed_attr_before (str "className=") pre ->
  dquote ∉ v ->
  get_used_classes fs paths = Some used ->
  is_token v t ->
  t ∈ used.
Proof.
  intros Hfile Hex Hread Hpre Hv Hused Ht.
  apply (elem_of_get_used_classes _ _ _ _ Hused).
  eexists file, _. repeat split; [done..|].
  unfold file_classes. apply elem_of_scan_content. right; right; right.
  exists v. split; [|by apply split_complete].
  apply (attr_finds (str "className=") 99%N (str "lassName="));
    [done|not_in_text|by apply not_elem_of_forallb|done].
Qed.

Lemma classList_call_is_usage_witness :
  str "is-open" ∈ ({[ str "is-open" ]} : gset text).
Proof.
  apply (classList_call_is_usage script_fs [str "common.js"] (str "common.js")
           (str "menu.") (str "toggle") [] squote (str "is-open") squote (str ");"));
    try by_compute.
  - by apply list_elem_of_singleton.
  - unfold classList_methods. do 2 right. by left.
Defined.

Lemma className_attribute_tokens_witness :
  str "wide" ∈ ({[ str "hero"; str "wide" ]} : gset text).
Proof.
  apply (className_attribute_tokens script_fs [str "app.js"] (str "app.js")
           (str "<div ") (str "hero wide") (str ">")).
  - by apply list_elem_of_singleton.
  - by_compute.
  - by_compute.
  - apply closed_attr_before_absent. by_compute.
  - not_in_text.
  - by_compute.
  - split; [done|]. split; [by_compute|]. by exists (str "hero "), [].
Defined.

(** X8.  [find_unused_classes] raises exactly when the stylesheet cannot
    be read or one of the files to check exists and cannot be read.  A file
    to check that does not exist is skipped and is no error. *)
Theorem find_unused_classes_fails fs css_file search_paths ignore_comments :
  find_unused_classes fs css_file search_paths ignore_comments = None <->
  read fs css_file = None
  \/ exists file,
       file ∈ files_to_check fs
         (expand_search_paths fs (default (DEFAULT_SEARCH_PATHS fs) search_paths))
       /\ path_exists fs file = true /\ read fs file = None.
Proof.
  unfold find_unused_classes, get_css_classes.
  destruct (read fs css_file) as [content|]; simpl; [|by split; [left|]].
  destruct (get_used_classes fs _) as [used|] eqn:Hu; simpl.
  - split; [done|]. intros [[=]|H].
    apply (scan_files_None fs _ ∅) in H. unfold get_used_classes in Hu. congruence.
  - split; [|done]. intros _. right. by apply scan_files_None in Hu.
Qed.

(** X9.  Scanning more search paths never reports more: when
    [find_unused_classes] completes for a list of search paths, it completes
    for every list with a part of those paths, and each class unused for the
    larger list is unused for the smaller one. *)
Theorem more_paths_fewer_unused fs css_file paths paths' ignore_comments unused' :
  (forall p, p ∈ paths -> p ∈ paths') ->
  find_unused_classes fs css_file (Some paths') ignore_comments = Some unused' ->
  exists unused,
    find_unused_classes fs css_file (Some paths) ignore_comments = Some unused
    /\ forall x, x ∈ unused' -> x ∈ unused.
Proof.
  intros Hsub (defined & used' & Hd & Hu' & ->)%find_unused_classes_inv.
  destruct (get_used_classes_mono fs paths paths' used' Hsub Hu') as (used & Hu & Hs).
  eexists. split; [by apply find_unused_classes_eq|].
  intros x. rewrite !elem_of_sorted, !elem_of_elements, !elem_of_difference.
  intros [? Hx]. split; [done|]. intros ?. by apply Hx, Hs.
Qed.

Lemma more_paths_fewer_unused_witness :
  exists unused,
    find_unused_classes shop_fs (str "input.css") (Some []) true = Some unused
    /\ forall x, x ∈ [str "unused-box"] -> x ∈ unused.
Proof.
  apply (more_paths_fewer_unused shop_fs (str "input.css") [] [str "index.html"]).
  - by intros p ?%elem_of_nil.
  - by_compute.
Defined.

(** X10.  A search path without wildcard characters that names neither a
    file nor a directory changes nothing, wherever it stands in the list. *)
Theorem missing_path_is_ignored fs paths1 p paths2 :
  has_wildcard p = false -> isfile fs p = false -> isdir fs p = false ->
  get_used_classes fs (paths1 ++ p :: paths2) = get_used_classes fs (paths1 ++ paths2).
Proof.
  intros Hw Hf Hd. unfold get_used_classes. f_equal.
  change (p :: paths2) with ([p] ++ paths2).
  rewrite !expand_search_paths_app, !files_to_check_app. do 2 f_equal.
  unfold expand_search_paths, files_to_check. simpl.
  unfold has_wildcard in Hw. rewrite Hw. simpl. by rewrite Hf, Hd.
Qed.

Lemma missing_path_is_ignored_witness :
  get_used_classes shop_fs ([str "index.html"] ++ str "gone.html" :: [])
  = get_used_classes shop_fs ([str "index.html"] ++ []).
Proof. apply missing_path_is_ignored; by_compute. Defined.

(** X11.  The report of [show_unused_styles.py] lists the unused classes and
    no others: after the opening line, a class of the SelectorSet
    (comment-excluded mode) that is not in the UsageSet of the default
    search paths has one line, or two when it both starts with a bucket
    prefix and passes the animation test; any other class has none. *)
Theorem show_unused_styles_report fs out defined used cls :
  show_unused_styles fs = Some out ->
  get_css_classes fs (DEFAULT_CSS_FILE fs) true = Some defined ->
  get_used_classes fs (DEFAULT_SEARCH_PATHS fs) = Some used ->
  head out = Some msg_show_intro
  /\ count_of (class_line cls) out
     = if bool_decide (cls ∈ defined ∖ used)
       then (if prefix_bucket cls && animation_bucket cls then 2 else 1)
       else 0.
Proof.
  unfold show_unused_styles. intros Hout Hd Hu.
  destruct (find_unused_classes fs (DEFAULT_CSS_FILE fs) None true)
    as [unused|] eqn:E; [|done].
  simpl in Hout. injection Hout as <-. split; [done|].
  cbn [count_of]. rewrite decide_False by done.
  rewrite count_of_report by by eapply find_unused_classes_NoDup.
  rewrite (find_unused_classes_eq fs _ None true defined used Hd Hu) in E.
  injection E as <-. simpl.
  destruct (bool_decide (cls ∈ defined ∖ used)) eqn:Hin.
  - apply bool_decide_eq_true in Hin.
    rewrite bool_decide_eq_true_2; [done|].
    by apply elem_of_sorted, elem_of_elements.
  - apply bool_decide_eq_false in Hin.
    rewrite bool_decide_eq_false_2; [done|].
    by intros ?%elem_of_sorted%elem_of_elements.
Qed.

(** X12.  [remove_unused_styles.py] computes the unused set twice, for its
    preview and inside [remove_unused_from_css], and the two agree: when
    nothing is unused it changes nothing and prints its own all-used line;
    otherwise it previews at most 20 classes, says how many more there are,
    and then removes the rules of all of them.  The nothing-found message of
    [remove_unused_from_css] is never printed. *)
Theorem remove_unused_styles_agrees fs fs' out :
  remove_unused_styles fs = Some (fs', out) ->
  (msg_none_found ∉ out)
  /\ exists unused,
       find_unused_classes fs (DEFAULT_CSS_FILE fs) None false = Some unused
       /\ match unused with
          | [] => fs' = fs /\ out = [msg_remove_intro; msg_nothing_unused]
          | _ =>
              exists content,
                read fs (DEFAULT_CSS_FILE fs) = Some content
                /\ fs' = with_content fs (DEFAULT_CSS_FILE fs)
                           (remove_rules unused content)
                /\ out
                   = [msg_remove_intro; msg_preview_found (length unused)]
                     ++ map class_line (take 20 unused)
                     ++ (if 20 <? length unused
                         then [msg_preview_more (length unused - 20)] else [])
                     ++ msg_found (length unused) :: map class_line unused
                     ++ [msg_removed (length unused) (DEFAULT_CSS_FILE fs)]
          end.
Proof.
  unfold remove_unused_styles.
  destruct (find_unused_classes fs (DEFAULT_CSS_FILE fs) None false)
    as [unused|] eqn:Hu; [|done].
  simpl. destruct unused as [|cls unused'] eqn:E.
  - intros [= <- <-]. split.
    + intros [H|[H|H%elem_of_nil]%elem_of_cons]%elem_of_cons; done.
    + by exists [].
  - rewrite <- E in *. assert (Hne : unused <> []) by by rewrite E.
    destruct (remove_unused_from_css fs (DEFAULT_CSS_FILE fs) None)
      as [[fs1 out1]|] eqn:Hr; [|done].
    simpl. intros [= <- <-].
    apply remove_unused_from_css_inv in Hr as Hinv.
    destruct Hinv as [[Hu' _]|(unused1 & content & _ & Hu' & Hread & Hw & ->)];
      [congruence|].
    rewrite Hu in Hu'. injection Hu' as <-.
    rewrite (remove_unused_from_css_removes _ _ _ unused content Hu Hne Hread Hw) in Hr.
    injection Hr as <-. split.
    + assert (Hlines : forall l, Forall (fun line => line <> msg_none_found)
                                   (map class_line l)).
      { intros l. apply Forall_fmap, Forall_true. by intros c. }
      match goal with
      | |- _ ∉ ?l =>
          enough (HF : Forall (fun line => line <> msg_none_found) l)
            by (intros Hin; by apply (proj1 (Forall_forall _ _) HF _ Hin))
      end.
      repeat first
        [ apply Forall_nil; done
        | apply Forall_cons; split; [done|]
        | apply Forall_app; split
        | apply Hlines ].
      destruct (20 <? length unused); [|by apply Forall_nil].
      by apply Forall_singleton.
    + exists unused. split; [done|]. rewrite E. rewrite <- E.
      exists content. repeat split; [done|]. by rewrite <- !app_assoc.
Qed.

Lemma show_unused_styles_report_witness :
  head (msg_show_intro :: print_unused_analysis [str "unused-box"])
  = Some msg_show_intro
  /\ count_of (class_line (str "unused-box"))
       (msg_show_intro :: print_unused_analysis [str "unused-box"])
     = if bool_decide (str "unused-box"
                       ∈ ({[ str "btn-primary"; str "unused-box" ]} : gset text)
                         ∖ {[ str "btn-primary"; str "is-open" ]})
       then (if prefix_bucket (str "unused-box")
                && animation_bucket (str "unused-box") then 2 else 1)
       else 0.
Proof.
  apply (show_unused_styles_report site_fs); by_compute.
Defined.

Lemma remove_unused_styles_agrees_witness :
  (msg_none_found
   ∉ [msg_remove_intro; msg_preview_found 1; class_line (str "unused-box");
      msg_found 1; class_line (str "unused-box");
      msg_removed 1 (str "/site/src/input.css")])
  /\ exists unused,
       find_unused_classes site_fs (DEFAULT_CSS_FILE site_fs) None false
       = Some unused.
Proof.
  destruct (remove_unused_styles_agrees site_fs
              (with_content site_fs (str "/site/src/input.css")
                 (str ".btn-primary{color:red}"))
              [msg_remove_intro; msg_preview_found 1; class_line (str "unused-box");
               msg_found 1; class_line (str "unused-box");
               msg_removed 1 (str "/site/src/input.css")])
    as (H1 & unused & H2 & _); [by_compute|].
  split; [done|]. by exists unused.
Defined.

(** X13.  A block comment is invisible to the comment-excluded mode: for a
    stylesheet with one block comment and no line comment, where joining the
    text before the comment to the text after it makes no new comment
    opening, stripping gives exactly the text around the comment, and the
    SelectorSet is that of the stylesheet without the comment. *)
Theorem block_comment_is_invisible pre body post :
  contains (str "/*") (pre ++ post) = false ->
  contains (str "//") (pre ++ post) = false ->
  contains (str "*/") body = false ->
  strip_comments (pre ++ (str "/*" ++ body ++ str "*/") ++ post) = pre ++ post
  /\ css_classes_of (pre ++ (str "/*" ++ body ++ str "*/") ++ post) true
     = css_classes_of (pre ++ post) true.
Proof.
  intros Hopen Hline Hbody.
  assert (Hblock : forall s, contains (str "/*") s = false ->
                     sub_empty Pattern.block_comment s = s).
  { intros s Hs. apply sub_empty_no_match. intros a b -> Hb.
    destruct (match_at _ b) as [[n g]|] eqn:E; [|done].
    apply block_comment_starts in E as [s1 ->]. by apply not_contains in Hs. }
  assert (Hlines : sub_empty Pattern.line_comment (pre ++ post) = pre ++ post).
  { apply sub_empty_no_match. intros a b E Hb.
    destruct (match_at _ b) as [[n g]|] eqn:Em; [|done].
    apply line_comment_sound in Em as (run & rest & -> & _).
    rewrite E, <- !app_assoc in Hline. by apply not_contains in Hline. }
  assert (Hstrip : strip_comments (pre ++ (str "/*" ++ body ++ str "*/") ++ post)
                   = pre ++ post).
  { unfold strip_comments. rewrite sub_empty_keeps.
    - rewrite (sub_empty_cut Pattern.block_comment
                 (str "/*" ++ body ++ str "*/") post None);
        [|eval_str; cbn [app]; done|by apply block_comment_complete].
      by rewrite (Hblock post) by by apply contains_app_r in Hopen.
    - intros a b -> Hb.
      destruct (match_at _ _) as [[n g]|] eqn:E; [|done].
      apply block_comment_starts in E as [s1 E]. exfalso.
      rewrite <- !app_assoc in E.
      apply (prefix_no_overlap (str "*") b _ s1 47%N) in E as [b' ->];
        [|not_in_text|done].
      apply contains_app_l in Hopen. by apply not_contains in Hopen. }
  split; [done|]. unfold css_classes_of. rewrite Hstrip.
  unfold strip_comments. by rewrite Hblock, Hlines.
Qed.

Lemma block_comment_is_invisible_witness :
  strip_comments
    (str ".a{} " ++ (str "/*" ++ str " .old{} " ++ str "*/") ++ str " .b{}")
  = str ".a{} " ++ str " .b{}"
  /\ css_classes_of
       (str ".a{} " ++ (str "/*" ++ str " .old{} " ++ str "*/") ++ str " .b{}") true
     = css_classes_of (str ".a{} " ++ str " .b{}") true.
Proof. apply block_comment_is_invisible; by_compute. Defined.

(** X14.  Stripping line comments never removes a newline: what a [//]
    comment takes ends before the end of its line, so the text has as many
    newlines after the substitution of line 35 as before. *)
Theorem line_comment_keeps_newlines content :
  count_of newline (sub_empty Pattern.line_comment content)
  = count_of newline content.
Proof.
  apply (cuts_count (fun span => newline ∉ span)); [done|].
  apply sub_empty_cuts. intros s n g (run & rest & -> & <- & Hrun)%line_comment_sound.
  exists (str "//" ++ run), rest. repeat split.
  intros [H|H]%elem_of_app; [|done]. revert H. not_in_text.
Qed.

(** X15.  Search paths without [*] and [?] pass through
    [expand_search_paths] unchanged: the same paths, in the same order,
    duplicates kept, and [glob] is not consulted. *)
Theorem plain_paths_pass_through fs paths :
  Forall (fun p => has_wildcard p = false) paths ->
  expand_search_paths fs paths = paths.
Proof.
  induction 1 as [|p paths Hp _ IH]; [done|].
  change (p :: paths) with ([p] ++ paths) at 1.
  rewrite expand_search_paths_app, IH.
  unfold expand_search_paths. simpl. unfold has_wildcard in Hp. by rewrite Hp.
Qed.

Lemma plain_paths_pass_through_witness :
  expand_search_paths shop_fs [str "index.html"; str "src"; str "index.html"]
  = [str "index.html"; str "src"; str "index.html"].
Proof.
  apply plain_paths_pass_through. repeat (apply Forall_cons; split; [by_compute|]).
  apply Forall_nil. done.
Defined.

(** X16.  [print_unused_analysis] on a list with repetitions: the report is
    its two opening lines, the sections of the prefix buckets and of the
    animation bucket, the section of the catch-all bucket, and the total, the
    length of the list with repetitions counted.  In the section of a prefix
    bucket or of the animation bucket a class that passes the test is listed
    as often as it stands in the list; in the catch-all a class of the list
    that passes no test is listed once only. *)
Theorem print_report_counts_any_list unused :
  unused <> [] ->
  exists rest,
    print_unused_analysis unused
    = [msg_analysis_found (length unused); repeat (ch "=") 50]
      ++ concat (map (bucket_section unused) tested_buckets)
      ++ report_section OTHER rest
      ++ [msg_total (length unused)]
    /\ (forall label test cls, (label, test) ∈ tested_buckets ->
          count_of (class_line cls) (bucket_section unused (label, test))
          = if test cls then count_of cls unused else 0)
    /\ (forall cls,
          count_of (class_line cls) (report_section OTHER rest)
          = if uncategorized cls && bool_decide (cls ∈ unused) then 1 else 0).
Proof.
  intros Hne. exists (catch_all [] unused). split; [|split].
  - assert (print_unused_analysis unused
            = [msg_analysis_found (length unused); repeat (ch "=") 50]
              ++ concat (map print_category (categories unused))
              ++ [msg_total (length unused)]) as -> by by destruct unused.
    by rewrite categories_any, report_sections, <- !app_assoc.
  - intros label test cls _. unfold bucket_section. cbn [fst snd].
    by rewrite count_of_report_section, count_of_filter_any.
  - intros cls. rewrite count_of_report_section.
    destruct (catch_all_spec [] unused) as [Hnd Hin]; [constructor|].
    rewrite (count_of_NoDup cls _ Hnd).
    destruct (uncategorized cls) eqn:Hu; simpl.
    + apply (f_equal (fun b : bool => if b then 1 else 0)).
      apply bool_decide_ext. rewrite Hin. split; [|by right].
      by intros [?%elem_of_nil|[? _]].
    + rewrite bool_decide_eq_false_2; [done|]. rewrite Hin.
      intros [?%elem_of_nil|[_ ?]]; [done|congruence].
Qed.

Lemma print_report_counts_any_list_witness :
  exists rest,
    print_unused_analysis [str "btn-x"; str "hero"; str "btn-x"; str "hero"]
    = [msg_analysis_found 4; repeat (ch "=") 50]
      ++ concat (map (bucket_section
                        [str "btn-x"; str "hero"; str "btn-x"; str "hero"])
                   tested_buckets)
      ++ report_section OTHER rest
      ++ [msg_total 4]
    /\ (forall label test cls, (label, test) ∈ tested_buckets ->
          count_of (class_line cls)
            (bucket_section [str "btn-x"; str "hero"; str "btn-x"; str "hero"]
               (label, test))
          = if test cls
            then count_of cls [str "btn-x"; str "hero"; str "btn-x"; str "hero"]
            else 0)
    /\ (forall cls,
          count_of (class_line cls) (report_section OTHER rest)
          = if uncategorized cls
               && bool_decide
                    (cls ∈ [str "btn-x"; str "hero"; str "btn-x"; str "hero"])
            then 1 else 0).
Proof.
  apply (print_report_counts_any_list
           [str "btn-x"; str "hero"; str "btn-x"; str "hero"]).
  done.
Defined.
